(** * Scion sync server: a shallow embedding of the vault sync engine

    The development follows the TypeScript sources of the server:

    - [db.ts]          the content store, a git working copy driven through
                        the [git] command line;
    - [metadata.ts]    the identity store, two SQLite tables and the
                        disaster-recovery manifest [.scion/manifest.json];
    - [operations.ts]  the V2 operations create / modify / rename / delete;
    - [server.ts]      the HTTP handlers;
    - [yjs-sync.ts]    the real-time update handler;
    - [binary-sync.ts] the conflict copies of binary files;
    - [websocket.ts]   the manager of the connected clients.

    Modelling conventions.

    - A [Buffer], a path and a message are [string]s (sequences of bytes).
      Requests and responses are taken after base64 decoding: the wire
      encoding is not part of the model.
    - A commit identifier is the number of the commit object ([N]); a file
      identifier is the number a UUID denotes ([N]).  JavaScript's [null],
      [undefined] and the empty string are one value, [None], wherever the
      code only tests truthiness.
    - A timestamp is [Math.floor(Date.now() / 1000)], a [positive] number of
      seconds, so that [x.deleted_at] is truthy exactly when it is not null.
    - The git repository is a working tree, an index, the chain of commits
      reachable from HEAD and the commits replaced by [--amend].  Paths name
      regular files and are not normalised; ignore rules and rename
      detection of [git diff] are not modelled.  [git commit] with nothing
      staged fails with the error the code looks for (nothing to commit).
    - [uuidv4()] draws from a counter kept in the state; the primary key of
      the [files] table is enforced by the insert.
    - [git merge-file] is a parameter of the development, and so are
      [path.extname] and the JSON reader where the code calls them.
    - A WebSocket is a number; the state of the sockets and the messages
      given to [socket.send] are kept with the manager.  The dispatch of
      incoming messages ([handleMessage]) is not modelled. *)

From Stdlib Require Import String Ascii List NArith PArith Bool Arith Lia.
From Stdlib Require Import DecimalString.
Import ListNotations.

Open Scope string_scope.

(* ================================================================= *)
(** ** Strings and bytes *)

Definition bytes := string.
Definition path := string.

Definition string_eq_dec := String.string_dec.

Definition starts_with (pre s : string) : bool := String.prefix pre s.

Definition nl : string := String (ascii_of_nat 10) EmptyString.
Definition dquote : string := String (ascii_of_nat 34) EmptyString.
Definition backslash : string := String (ascii_of_nat 92) EmptyString.

Fixpoint bytes_of_string (s : string) : list N :=
  match s with
  | EmptyString => []
  | String a s' => N_of_ascii a :: bytes_of_string s'
  end.

Definition hex_digit (n : N) : ascii :=
  ascii_of_N (if N.ltb n 10 then 48 + n else 87 + n).

(** [hex_of width n]: the last [width] hexadecimal digits of [n], lowercase. *)
Fixpoint hex_of (width : nat) (n : N) : string :=
  match width with
  | O => EmptyString
  | S w => hex_of w (N.div n 16) ++ String (hex_digit (N.modulo n 16)) EmptyString
  end.

Definition decimal_of_N (n : N) : string := NilZero.string_of_uint (N.to_uint n).

(* ================================================================= *)
(** ** [computeHash]: SHA-256, hexadecimal digest

    [createHash('sha256').update(content).digest('hex')]. *)

Module Sha256.

Definition w32 (x : N) : N := N.land x 0xFFFFFFFF.
Definition add32 (x y : N) : N := w32 (x + y).
Definition rotr (n x : N) : N := N.lor (N.shiftr x n) (w32 (N.shiftl x (32 - n))).
Definition not32 (x : N) : N := N.lxor x 0xFFFFFFFF.

Definition Ch (e f g : N) := N.lxor (N.land e f) (N.land (not32 e) g).
Definition Maj (a b c : N) := N.lxor (N.lxor (N.land a b) (N.land a c)) (N.land b c).
Definition Sigma0 (a : N) := N.lxor (N.lxor (rotr 2 a) (rotr 13 a)) (rotr 22 a).
Definition Sigma1 (e : N) := N.lxor (N.lxor (rotr 6 e) (rotr 11 e)) (rotr 25 e).
Definition sigma0 (x : N) := N.lxor (N.lxor (rotr 7 x) (rotr 18 x)) (N.shiftr x 3).
Definition sigma1 (x : N) := N.lxor (N.lxor (rotr 17 x) (rotr 19 x)) (N.shiftr x 10).

(** The value of a hexadecimal digit. *)
Definition hex_value (c : ascii) : option N :=
  let n := N_of_ascii c in
  if N.leb 48 n && N.leb n 57 then Some (n - 48)%N
  else if N.leb 97 n && N.leb n 102 then Some (n - 87)%N
  else None.

(** The words of a table written in hexadecimal; [cur] is the word being
    read. *)
Fixpoint hex_words (cur : option N) (s : string) : list N :=
  match s with
  | EmptyString => match cur with Some w => [w] | None => [] end
  | String c rest =>
      match hex_value c, cur with
      | Some d, Some w => hex_words (Some (16 * w + d)%N) rest
      | Some d, None => hex_words (Some d) rest
      | None, Some w => w :: hex_words None rest
      | None, None => hex_words None rest
      end
  end.

(** The round constants and the initial hash value of FIPS 180-4. *)
Definition K : list N := Eval vm_compute in
  hex_words None
    ("428a2f98 71374491 b5c0fbcf e9b5dba5 3956c25b 59f111f1 923f82a4 ab1c5ed5 "
     ++ "d807aa98 12835b01 243185be 550c7dc3 72be5d74 80deb1fe 9bdc06a7 c19bf174 "
     ++ "e49b69c1 efbe4786 0fc19dc6 240ca1cc 2de92c6f 4a7484aa 5cb0a9dc 76f988da "
     ++ "983e5152 a831c66d b00327c8 bf597fc7 c6e00bf3 d5a79147 06ca6351 14292967 "
     ++ "27b70a85 2e1b2138 4d2c6dfc 53380d13 650a7354 766a0abb 81c2c92e 92722c85 "
     ++ "a2bfe8a1 a81a664b c24b8b70 c76c51a3 d192e819 d6990624 f40e3585 106aa070 "
     ++ "19a4c116 1e376c08 2748774c 34b0bcb5 391c0cb3 4ed8aa4a 5b9cca4f 682e6ff3 "
     ++ "748f82ee 78a5636f 84c87814 8cc70208 90befffa a4506ceb bef9a3f7 c67178f2").

Definition H0 : list N := Eval vm_compute in
  hex_words None "6a09e667 bb67ae85 3c6ef372 a54ff53a 510e527f 9b05688c 1f83d9ab 5be0cd19".

(** Big-endian encoding of [n] on [k] bytes. *)
Fixpoint be_bytes (k : nat) (n : N) : list N :=
  match k with
  | O => []
  | S k' => be_bytes k' (N.div n 256) ++ [N.modulo n 256]
  end.

(** Padding: one bit, zeros up to 56 modulo 64, the bit length on 8 bytes. *)
Definition pad (msg : list N) : list N :=
  let len := length msg in
  let zeros := (64 - ((len + 9) mod 64)) mod 64 in
  msg ++ [128%N] ++ repeat 0%N zeros ++ be_bytes 8 (8 * N.of_nat len).

Fixpoint words_of (n : nat) (bs : list N) : list N :=
  match n with
  | O => []
  | S n' =>
      match bs with
      | b0 :: b1 :: b2 :: b3 :: rest =>
          (b0 * 16777216 + b1 * 65536 + b2 * 256 + b3)%N :: words_of n' rest
      | _ => []
      end
  end.

(** The message schedule: [window] holds words t .. t+15. *)
Fixpoint schedule (n : nat) (window : list N) : list N :=
  match n with
  | O => []
  | S n' =>
      match window with
      | w0 :: rest =>
          let w1 := nth 0 rest 0%N in
          let w9 := nth 8 rest 0%N in
          let w14 := nth 13 rest 0%N in
          let w16 := add32 (add32 (sigma1 w14) w9) (add32 (sigma0 w1) w0) in
          w0 :: schedule n' (rest ++ [w16])
      | [] => []
      end
  end.

Definition regs := (N * N * N * N * N * N * N * N)%type.

Definition round (r : regs) (kw : N * N) : regs :=
  let '(a, b, c, d, e, f, g, h) := r in
  let t1 := add32 (add32 (add32 h (Sigma1 e)) (add32 (Ch e f g) (fst kw))) (snd kw) in
  let t2 := add32 (Sigma0 a) (Maj a b c) in
  (add32 t1 t2, a, b, c, add32 d t1, e, f, g).

Definition regs_of (h : list N) : regs :=
  match h with
  | [a; b; c; d; e; f; g; i] => (a, b, c, d, e, f, g, i)
  | _ => (0, 0, 0, 0, 0, 0, 0, 0)%N
  end.

Definition list_of (r : regs) : list N :=
  let '(a, b, c, d, e, f, g, h) := r in [a; b; c; d; e; f; g; h].

Definition compress (h : list N) (block : list N) : list N :=
  let w := schedule 64 (words_of 16 block) in
  let r := fold_left round (combine K w) (regs_of h) in
  map (fun p => add32 (fst p) (snd p)) (combine h (list_of r)).

Fixpoint blocks (n : nat) (h : list N) (bs : list N) : list N :=
  match n with
  | O => h
  | S n' => blocks n' (compress h (firstn 64 bs)) (skipn 64 bs)
  end.

Definition digest (msg : list N) : list N :=
  let p := pad msg in
  blocks (length p / 64) H0 p.

Definition hex (msg : string) : string :=
  String.concat "" (map (hex_of 8) (digest (bytes_of_string msg))).

End Sha256.

Definition computeHash (content : bytes) : string := Sha256.hex content.


(* ================================================================= *)
(** ** File-system trees

    A tree maps paths to file contents.  Entries are kept in path order,
    the order in which [git ls-files] and [git diff --name-only] print. *)

Definition tree := list (path * bytes).

Fixpoint tree_lookup (p : path) (t : tree) : option bytes :=
  match t with
  | [] => None
  | (q, b) :: t' => if String.eqb p q then Some b else tree_lookup p t'
  end.

Fixpoint tree_insert (p : path) (b : bytes) (t : tree) : tree :=
  match t with
  | [] => [(p, b)]
  | (q, c) :: t' =>
      match String.compare p q with
      | Eq => (p, b) :: t'
      | Lt => (p, b) :: t
      | Gt => (q, c) :: tree_insert p b t'
      end
  end.

Definition tree_remove (p : path) (t : tree) : tree :=
  filter (fun e => negb (String.eqb p (fst e))) t.

Definition tree_remove_prefix (pre : string) (t : tree) : tree :=
  filter (fun e => negb (starts_with pre (fst e))) t.

Definition tree_paths (t : tree) : list path := map fst t.

Definition tree_mem (p : path) (t : tree) : bool :=
  match tree_lookup p t with Some _ => true | None => false end.

Definition opt_bytes_eqb (a b : option bytes) : bool :=
  match a, b with
  | Some x, Some y => String.eqb x y
  | None, None => true
  | _, _ => false
  end.

(** Two trees hold the same files. *)
Definition tree_eqb (t1 t2 : tree) : bool :=
  forallb (fun p => opt_bytes_eqb (tree_lookup p t1) (tree_lookup p t2))
          (tree_paths t1 ++ tree_paths t2).

(** The paths whose contents differ between two trees, in path order. *)
Definition tree_diff (t1 t2 : tree) : list path :=
  filter (fun p => negb (opt_bytes_eqb (tree_lookup p t1) (tree_lookup p t2)))
         (tree_paths (fold_left (fun acc e => tree_insert (fst e) (snd e) acc) t2 t1)).

(* ================================================================= *)
(** ** State of one vault *)

Definition commit_id := N.
Definition file_id_t := N.
Definition timestamp := positive.

Record Commit := mkCommit {
  commit_hash : commit_id;
  commit_tree : tree;
  commit_message : string;
  commit_time : timestamp
}.

(** The [.git] directory. [commits] is the chain from HEAD back to the root
    commit; [amended] keeps the commit objects [git commit --amend] replaced,
    which [git show] and [git diff] still resolve. *)
Record Repo := mkRepo {
  index : tree;
  commits : list Commit;
  amended : list Commit;
  next_object : N
}.

(** [metadata.ts], [interface FileMetadata]: a row of the table [files]. *)
Record FileMetadata := mkFileMetadata {
  file_id : file_id_t;
  vault_id : string;
  current_path : path;
  content_hash : option string;
  git_commit : option commit_id;
  created_at : timestamp;
  updated_at : timestamp;
  deleted_at : option timestamp
}.

(** [interface PathHistoryEntry]: a row of the table [path_history]. *)
Record PathHistoryEntry := mkPathHistoryEntry {
  ph_id : N;
  ph_file_id : file_id_t;
  old_path : path;
  new_path : path;
  changed_at : timestamp
}.

(** The SQLite database [.scion/metadata.db]; rows in insertion order. *)
Record Db := mkDb {
  files : list FileMetadata;
  path_history : list PathHistoryEntry;
  next_rowid : N
}.

Record Vault := mkVault {
  vault_name : string;
  worktree : tree;            (* the files of the vault directory *)
  git : option Repo;          (* None: no [.git] directory yet *)
  db : Db;
  uuid_seed : N;              (* the next value [uuidv4()] returns *)
  clock : timestamp           (* [Math.floor(Date.now() / 1000)] *)
}.

Definition set_worktree (w : tree) (st : Vault) : Vault :=
  mkVault (vault_name st) w (git st) (db st) (uuid_seed st) (clock st).
Definition set_git (g : option Repo) (st : Vault) : Vault :=
  mkVault (vault_name st) (worktree st) g (db st) (uuid_seed st) (clock st).
Definition set_db (d : Db) (st : Vault) : Vault :=
  mkVault (vault_name st) (worktree st) (git st) d (uuid_seed st) (clock st).
Definition set_uuid_seed (n : N) (st : Vault) : Vault :=
  mkVault (vault_name st) (worktree st) (git st) (db st) n (clock st).
Definition set_clock (t : timestamp) (st : Vault) : Vault :=
  mkVault (vault_name st) (worktree st) (git st) (db st) (uuid_seed st) t.

Definition set_files (fs : list FileMetadata) (d : Db) : Db :=
  mkDb fs (path_history d) (next_rowid d).

(* ================================================================= *)
(** ** Exceptions and the state monad of the server *)

Inductive Error :=
| GitNothingToCommit            (* git commit: nothing to commit *)
| GitPathspec (p : path)        (* git add: pathspec did not match any files *)
| GitBadSource (p : path)       (* git mv: bad source / not under version control *)
| GitDestinationExists (p : path)
| GitBadRevision                (* unknown revision or path not in the tree *)
| GitNoHead                     (* no commit yet *)
| GitNotARepository
| SqliteConstraint              (* UNIQUE constraint failed: files.file_id *)
| MergeFailed                   (* git merge-file: negative status *)
| YjsUpdateFailed               (* Y.applyUpdate threw *)
| InvalidVaultName.

Definition error_message (e : Error) : string :=
  match e with
  | GitNothingToCommit => "Git command failed: git commit: nothing to commit"
  | GitPathspec p => "Git command failed: git add: pathspec did not match any files: " ++ p
  | GitBadSource p => "Git command failed: git mv: bad source: " ++ p
  | GitDestinationExists p => "Git command failed: git mv: destination exists: " ++ p
  | GitBadRevision => "Git command failed: bad revision"
  | GitNoHead => "Git command failed: no commits yet"
  | GitNotARepository => "Git command failed: not a git repository"
  | SqliteConstraint => "UNIQUE constraint failed: files.file_id"
  | MergeFailed => "Command failed: git merge-file"
  | YjsUpdateFailed => "Failed to apply yjs update"
  | InvalidVaultName => "Invalid vault name"
  end.

Inductive outcome (A : Type) :=
| Ok (a : A)
| Throw (e : Error).
Arguments Ok {A} a.
Arguments Throw {A} e.

Definition M (A : Type) : Type := Vault -> Vault * outcome A.

Definition ret {A} (a : A) : M A := fun st => (st, Ok a).
Definition throw {A} (e : Error) : M A := fun st => (st, Throw e).
Definition bind {A B} (m : M A) (k : A -> M B) : M B :=
  fun st => match m st with
            | (st', Ok a) => k a st'
            | (st', Throw e) => (st', Throw e)
            end.
(** [try { m } catch (e) { h e }] *)
Definition try_catch {A} (m : M A) (h : Error -> M A) : M A :=
  fun st => match m st with
            | (st', Ok a) => (st', Ok a)
            | (st', Throw e) => h e st'
            end.
Definition gets {A} (f : Vault -> A) : M A := fun st => (st, Ok (f st)).
Definition modify (f : Vault -> Vault) : M unit := fun st => (f st, Ok tt).

Notation "x <- m ;; k" := (bind m (fun x => k))
  (at level 61, m at next level, right associativity).
Notation "m ;;; k" := (bind m (fun _ => k))
  (at level 61, right associativity).

(** [for (const x of xs) { ... }] collecting what the body pushes. *)
Fixpoint for_each {A B} (body : A -> M (option B)) (xs : list A) : M (list B) :=
  match xs with
  | [] => ret []
  | x :: xs' =>
      r <- body x ;;
      rs <- for_each body xs' ;;
      ret (match r with Some b => b :: rs | None => rs end)
  end.

(* ================================================================= *)
(** ** The git command line, as [db.ts] uses it *)

Module Git.

Definition head_commit (r : Repo) : option Commit := hd_error (commits r).

Definition head_tree (r : Repo) : tree :=
  match commits r with
  | c :: _ => commit_tree c
  | [] => []
  end.

(** Run a git command on the repository of the vault. *)
Definition with_repo {A} (f : Repo -> Vault -> Vault * outcome A) : M A :=
  fun st => match git st with
            | Some r => f r st
            | None => (st, Throw GitNotARepository)
            end.

Definition put_repo (r : Repo) : M unit := modify (set_git (Some r)).

(** [git rev-parse HEAD] *)
Definition rev_parse_HEAD : M commit_id :=
  with_repo (fun r =>
    match commits r with
    | c :: _ => ret (commit_hash c)
    | [] => throw GitNoHead
    end).

(** [git add "p"]: stage the file, or its removal. *)
Definition add (p : path) : M unit :=
  with_repo (fun r st =>
    match tree_lookup p (worktree st) with
    | Some b => put_repo (mkRepo (tree_insert p b (index r)) (commits r) (amended r) (next_object r)) st
    | None =>
        if tree_mem p (index r)
        then put_repo (mkRepo (tree_remove p (index r)) (commits r) (amended r) (next_object r)) st
        else throw (GitPathspec p) st
    end).

(** [git commit -m "msg"] *)
Definition commit (msg : string) : M unit :=
  with_repo (fun r st =>
    if tree_eqb (index r) (head_tree r)
    then throw GitNothingToCommit st
    else put_repo (mkRepo (index r)
                          (mkCommit (next_object r) (index r) msg (clock st) :: commits r)
                          (amended r)
                          (next_object r + 1)) st).

(** [git commit --amend --no-edit]: a new commit object takes the place of
    HEAD. *)
Definition commit_amend : M unit :=
  with_repo (fun r st =>
    match commits r with
    | c :: older =>
        put_repo (mkRepo (index r)
                         (mkCommit (next_object r) (index r) (commit_message c) (clock st) :: older)
                         (c :: amended r)
                         (next_object r + 1)) st
    | [] => throw GitNoHead st
    end).

(** [git mv "old" "new"] *)
Definition mv (old new : path) : M unit :=
  with_repo (fun r st =>
    match tree_lookup old (worktree st), tree_lookup old (index r) with
    | Some b, Some staged =>
        if tree_mem new (worktree st)
        then throw (GitDestinationExists new) st
        else
          (modify (set_worktree (tree_insert new b (tree_remove old (worktree st)))) ;;;
           put_repo (mkRepo (tree_insert new staged (tree_remove old (index r)))
                            (commits r) (amended r) (next_object r))) st
    | _, _ => throw (GitBadSource old) st
    end).

(** [git ls-files] *)
Definition ls_files : M (list path) :=
  with_repo (fun r => ret (tree_paths (index r))).

(** The last commit of the chain that changed [p]. *)
Fixpoint last_change (p : path) (cs : list Commit) : option Commit :=
  match cs with
  | [] => None
  | c :: older =>
      let before := match older with c' :: _ => tree_lookup p (commit_tree c') | [] => None end in
      if opt_bytes_eqb (tree_lookup p (commit_tree c)) before
      then last_change p older
      else Some c
  end.

(** [git log -1 --format=... -- "p"]: empty output ([None]) when no commit
    touches the path. *)
Definition log_1 (p : path) : M (option Commit) :=
  with_repo (fun r =>
    match commits r with
    | [] => throw GitNoHead
    | cs => ret (last_change p cs)
    end).

Definition find_commit (c : commit_id) (r : Repo) : option Commit :=
  find (fun k => N.eqb (commit_hash k) c) (commits r ++ amended r).

(** [git show "c:p"] *)
Definition show (c : commit_id) (p : path) : M bytes :=
  with_repo (fun r =>
    match Git.find_commit c r with
    | Some k =>
        match tree_lookup p (commit_tree k) with
        | Some b => ret b
        | None => throw GitBadRevision
        end
    | None => throw GitBadRevision
    end).

(** [git diff --name-only a b] *)
Definition diff_name_only (a b : commit_id) : M (list path) :=
  with_repo (fun r =>
    match find_commit a r, find_commit b r with
    | Some ka, Some kb => ret (tree_diff (commit_tree ka) (commit_tree kb))
    | _, _ => throw GitBadRevision
    end).

End Git.

(* ================================================================= *)
(** ** [metadata.ts]: the identity store *)

Definition manifest_path : path := ".scion/manifest.json".

(** [interface GitManifest]; [manifest_files] lists the keys of the object
    [files] in insertion order. *)
Record GitManifest := mkGitManifest {
  manifest_version : N;
  manifest_vault_id : string;
  manifest_files : list (file_id_t * (path * timestamp));
  manifest_updated_at : timestamp
}.

(** The canonical text of a UUID. *)
Definition uuid_string (n : N) : string :=
  hex_of 8 (N.shiftr n 96) ++ "-" ++ hex_of 4 (N.shiftr n 80) ++ "-" ++
  hex_of 4 (N.shiftr n 64) ++ "-" ++ hex_of 4 (N.shiftr n 48) ++ "-" ++ hex_of 12 n.

Definition json_escape_char (a : ascii) : string :=
  let n := N_of_ascii a in
  if N.eqb n 34 then backslash ++ dquote
  else if N.eqb n 92 then backslash ++ backslash
  else if N.eqb n 8 then backslash ++ "b"
  else if N.eqb n 12 then backslash ++ "f"
  else if N.eqb n 10 then backslash ++ "n"
  else if N.eqb n 13 then backslash ++ "r"
  else if N.eqb n 9 then backslash ++ "t"
  else if N.ltb n 32 then backslash ++ "u" ++ hex_of 4 n
  else String a EmptyString.

Fixpoint json_escape (s : string) : string :=
  match s with
  | EmptyString => EmptyString
  | String a s' => json_escape_char a ++ json_escape s'
  end.

Definition json_string (s : string) : string := dquote ++ json_escape s ++ dquote.

Definition json_manifest_entry (e : file_id_t * (path * timestamp)) : string :=
  "    " ++ json_string (uuid_string (fst e)) ++ ": {" ++ nl ++
  "      " ++ json_string "path" ++ ": " ++ json_string (fst (snd e)) ++ "," ++ nl ++
  "      " ++ json_string "created_at" ++ ": " ++ decimal_of_N (Npos (snd (snd e))) ++ nl ++
  "    }".

(** [fse.writeJsonSync(manifestPath, manifest, { spaces: 2 })] *)
Definition writeJson (m : GitManifest) : bytes :=
  "{" ++ nl ++
  "  " ++ json_string "version" ++ ": " ++ decimal_of_N (manifest_version m) ++ "," ++ nl ++
  "  " ++ json_string "vault_id" ++ ": " ++ json_string (manifest_vault_id m) ++ "," ++ nl ++
  "  " ++ json_string "files" ++ ": " ++
     match manifest_files m with
     | [] => "{}"
     | es => "{" ++ nl ++ String.concat ("," ++ nl) (map json_manifest_entry es) ++ nl ++ "  }"
     end ++ "," ++ nl ++
  "  " ++ json_string "updated_at" ++ ": " ++ decimal_of_N (Npos (manifest_updated_at m)) ++ nl ++
  "}" ++ nl.

Definition is_null {A} (o : option A) : bool :=
  match o with Some _ => false | None => true end.

(** Truthiness of a [string | null]. *)
Definition truthy (o : option string) : bool :=
  match o with Some s => negb (String.eqb s "") | None => false end.

Definition opt_string_eqb (a b : option string) : bool := opt_bytes_eqb a b.

(** [WHERE vault_id = ? AND deleted_at IS NULL] *)
Definition active_in (v : string) (r : FileMetadata) : bool :=
  String.eqb (vault_id r) v && is_null (deleted_at r).

Definition isVaultBootstrapped (st : Vault) : bool :=
  existsb (fun r => String.eqb (vault_id r) (vault_name st)) (files (db st)).

Definition now : M timestamp := gets clock.

Definition uuidv4 : M file_id_t :=
  fun st => (set_uuid_seed (uuid_seed st + 1) st, Ok (uuid_seed st)).

Definition generateFileId : M file_id_t := uuidv4.

Definition write_file (p : path) (content : bytes) : M unit :=
  modify (fun st => set_worktree (tree_insert p content (worktree st)) st).

(** Rewrites [.scion/manifest.json] from the active rows of the vault. *)
Definition updateGitManifest : M unit :=
  fun st =>
    let rows := filter (active_in (vault_name st)) (files (db st)) in
    let manifest :=
      mkGitManifest 1 (vault_name st)
        (map (fun r => (file_id r, (current_path r, created_at r))) rows)
        (clock st) in
    write_file manifest_path (writeJson manifest) st.

(** [INSERT INTO files ...]: [file_id] is the primary key. *)
Definition insert_file (row : FileMetadata) : M unit :=
  fun st =>
    if existsb (fun r => N.eqb (file_id r) (file_id row)) (files (db st))
    then (st, Throw SqliteConstraint)
    else (set_db (set_files (files (db st) ++ [row]) (db st)) st, Ok tt).

Definition createFileRecord (filePath : path) (contentHash : option string)
    (gitCommit : option commit_id) : M FileMetadata :=
  t <- now ;;
  fileId <- generateFileId ;;
  v <- gets vault_name ;;
  let row := mkFileMetadata fileId v filePath contentHash gitCommit t t None in
  insert_file row ;;;
  updateGitManifest ;;;
  ret row.

(** [SELECT * FROM files WHERE file_id = ?] *)
Definition getFileById (fileId : file_id_t) (st : Vault) : option FileMetadata :=
  find (fun r => N.eqb (file_id r) fileId) (files (db st)).

(** [... WHERE vault_id = ? AND current_path = ? AND deleted_at IS NULL] *)
Definition getFileByPath (filePath : path) (st : Vault) : option FileMetadata :=
  find (fun r => active_in (vault_name st) r && String.eqb (current_path r) filePath)
       (files (db st)).

(** [... WHERE vault_id = ? AND content_hash = ? AND deleted_at IS NULL] *)
Definition getFilesByHash (contentHash : string) (st : Vault) : list FileMetadata :=
  filter (fun r => active_in (vault_name st) r
                   && opt_string_eqb (content_hash r) (Some contentHash))
         (files (db st)).

(** [Partial<Pick<FileMetadata, 'current_path' | 'content_hash' | 'git_commit'>>]:
    [None] is a field left undefined. *)
Record FileUpdates := mkFileUpdates {
  u_current_path : option path;
  u_content_hash : option (option string);
  u_git_commit : option (option commit_id)
}.

Definition apply_updates (t : timestamp) (u : FileUpdates) (r : FileMetadata) : FileMetadata :=
  mkFileMetadata (file_id r) (vault_id r)
    (match u_current_path u with Some p => p | None => current_path r end)
    (match u_content_hash u with Some h => h | None => content_hash r end)
    (match u_git_commit u with Some c => c | None => git_commit r end)
    (created_at r) t (deleted_at r).

Definition has_id (fileId : file_id_t) (r : FileMetadata) : bool := N.eqb (file_id r) fileId.

(** [UPDATE files SET ... WHERE file_id = ?]; the result is [changes > 0]. *)
Definition updateFileRecord (fileId : file_id_t) (updates : FileUpdates) : M bool :=
  t <- now ;;
  rows <- gets (fun st => files (db st)) ;;
  let changed := existsb (has_id fileId) rows in
  modify (fun st => set_db (set_files
            (map (fun r => if has_id fileId r then apply_updates t updates r else r) rows)
            (db st)) st) ;;;
  (if changed && negb (is_null (u_current_path updates))
   then updateGitManifest else ret tt) ;;;
  ret changed.

Definition recordPathChange (fileId : file_id_t) (oldPath newPath : path) : M unit :=
  t <- now ;;
  modify (fun st =>
    let d := db st in
    set_db (mkDb (files d)
                 (path_history d ++ [mkPathHistoryEntry (next_rowid d) fileId oldPath newPath t])
                 (next_rowid d + 1)) st).

(** [ORDER BY changed_at DESC] *)
Fixpoint insert_desc (e : PathHistoryEntry) (l : list PathHistoryEntry) : list PathHistoryEntry :=
  match l with
  | [] => [e]
  | x :: l' => if Pos.ltb (changed_at e) (changed_at x) then x :: insert_desc e l' else e :: l
  end.

Definition getPathHistory (fileId : file_id_t) (st : Vault) : list PathHistoryEntry :=
  fold_right insert_desc []
    (filter (fun e => N.eqb (ph_file_id e) fileId) (path_history (db st))).

(** [Array.from(new Set(...))]: first occurrences, in order. *)
Fixpoint dedupe (seen : list string) (l : list string) : list string :=
  match l with
  | [] => []
  | x :: l' =>
      if existsb (String.eqb x) seen then dedupe seen l' else x :: dedupe (x :: seen) l'
  end.

Definition getAllPreviousPaths (fileId : file_id_t) (st : Vault) : list path :=
  dedupe [] (map old_path (getPathHistory fileId st)).

Definition mark_deleted (t : timestamp) (r : FileMetadata) : FileMetadata :=
  mkFileMetadata (file_id r) (vault_id r) (current_path r) (content_hash r) (git_commit r)
    (created_at r) t (Some t).

(** [UPDATE files SET deleted_at = ?, updated_at = ? WHERE file_id = ?] *)
Definition softDeleteFile (fileId : file_id_t) : M bool :=
  t <- now ;;
  rows <- gets (fun st => files (db st)) ;;
  let changed := existsb (has_id fileId) rows in
  modify (fun st => set_db (set_files
            (map (fun r => if has_id fileId r then mark_deleted t r else r) rows)
            (db st)) st) ;;;
  (if changed then updateGitManifest else ret tt) ;;;
  ret changed.

Definition ensureFileId (filePath : path) (contentHash : option string)
    (gitCommit : option commit_id) : M file_id_t :=
  existing <- gets (getFileByPath filePath) ;;
  match existing with
  | Some r =>
      (if truthy contentHash || negb (is_null gitCommit)
       then updateFileRecord (file_id r) (mkFileUpdates None (Some contentHash) (Some gitCommit)) ;;; ret tt
       else ret tt) ;;;
      ret (file_id r)
  | None =>
      record <- createFileRecord filePath contentHash gitCommit ;;
      ret (file_id record)
  end.

Definition detectRenameByHash (missingPath : path) (contentHash : string) (st : Vault)
  : option FileMetadata :=
  let filesWithHash := getFilesByHash contentHash st in
  let candidates := filter (fun f => negb (String.eqb (current_path f) missingPath)) filesWithHash in
  match candidates with
  | [c] => Some c
  | _ => None
  end.

Definition mark_restored (t : timestamp) (r : FileMetadata) : FileMetadata :=
  mkFileMetadata (file_id r) (vault_id r) (current_path r) (content_hash r) (git_commit r)
    (created_at r) t None.

(** [UPDATE files SET deleted_at = NULL, updated_at = ? WHERE file_id = ?] *)
Definition restoreFile (fileId : file_id_t) : M bool :=
  t <- now ;;
  rows <- gets (fun st => files (db st)) ;;
  let changed := existsb (has_id fileId) rows in
  modify (fun st => set_db (set_files
            (map (fun r => if has_id fileId r then mark_restored t r else r) rows)
            (db st)) st) ;;;
  (if changed then updateGitManifest else ret tt) ;;;
  ret changed.

(** [SELECT * FROM files WHERE vault_id = ? AND deleted_at IS NULL] *)
Definition getAllFiles (st : Vault) : list FileMetadata :=
  filter (active_in (vault_name st)) (files (db st)).

(** The join of [findFileByAnyPath]: the entries of [path_history] that
    name the path, as old or as new path, and whose file is an active row
    of the vault. *)
Definition history_hits (filePath : path) (st : Vault) : list PathHistoryEntry :=
  filter (fun e =>
            (String.eqb (old_path e) filePath || String.eqb (new_path e) filePath)
            && existsb (fun f => has_id (ph_file_id e) f && active_in (vault_name st) f)
                       (files (db st)))
         (path_history (db st)).

(** [findFileByAnyPath]: the active row of the path, else the file of the
    latest entry of the join ([ORDER BY ph.changed_at DESC LIMIT 1]). *)
Definition findFileByAnyPath (filePath : path) (st : Vault) : option FileMetadata :=
  match getFileByPath filePath st with
  | Some current => Some current
  | None =>
      match fold_right insert_desc [] (history_hits filePath st) with
      | e :: _ =>
          find (fun f => has_id (ph_file_id e) f && active_in (vault_name st) f) (files (db st))
      | [] => None
      end
  end.

(** [loadGitManifest]: [readJson] is [JSON.parse] on the text of the file,
    [None] when it throws. *)
Definition loadGitManifest (readJson : bytes -> option GitManifest) (st : Vault)
  : option GitManifest :=
  match tree_lookup manifest_path (worktree st) with
  | Some text => readJson text
  | None => None
  end.

(** [INSERT OR REPLACE INTO files ...]: a row with the same primary key is
    deleted, then the row is inserted. *)
Definition insert_or_replace (row : FileMetadata) (rows : list FileMetadata)
  : list FileMetadata :=
  (filter (fun r => negb (has_id (file_id row) r)) rows ++ [row])%list.

(** [rebuildFromManifest]: one row per entry of the manifest, in the order
    of [Object.entries], without hash and commit. *)
Definition rebuildFromManifest (readJson : bytes -> option GitManifest) : M bool :=
  manifest <- gets (loadGitManifest readJson) ;;
  match manifest with
  | None => ret false
  | Some m =>
      t <- now ;;
      v <- gets vault_name ;;
      modify (fun st => set_db (set_files
                (fold_left (fun rows e =>
                              insert_or_replace
                                (mkFileMetadata (fst e) v (fst (snd e)) None None (snd (snd e)) t None)
                                rows)
                           (manifest_files m) (files (db st)))
                (db st)) st) ;;;
      ret true
  end.

(* ================================================================= *)
(** ** [db.ts]: the content store *)

Definition includes (sub s : string) : bool :=
  match String.index 0 sub s with Some _ => true | None => false end.

(** The character class of [/^[a-zA-Z0-9_\- ]+$/]. *)
Definition vault_name_char (a : ascii) : bool :=
  let n := N_of_ascii a in
  (N.leb 97 n && N.leb n 122) || (N.leb 65 n && N.leb n 90) || (N.leb 48 n && N.leb n 57)
  || N.eqb n 95 || N.eqb n 45 || N.eqb n 32.

Definition validateVaultName (vaultName : string) : bool :=
  if String.eqb vaultName "" || Nat.ltb 100 (String.length vaultName) then false
  else if negb (forallb vault_name_char (list_ascii_of_string vaultName)) then false
  else if includes ".." vaultName || includes "/" vaultName || includes backslash vaultName
       then false
  else true.

Definition gitignore : bytes :=
  ".DS_Store" ++ nl ++ "Thumbs.db" ++ nl ++ ".scion/metadata.db" ++ nl ++
  ".scion/metadata.db-wal" ++ nl ++ ".scion/metadata.db-shm" ++ nl.

Definition empty_repo : Repo := mkRepo [] [] [] 0.

Definition initVaultGit : M unit :=
  v <- gets vault_name ;;
  if negb (validateVaultName v) then throw InvalidVaultName
  else
    g <- gets git ;;
    match g with
    | Some _ => ret tt
    | None =>
        modify (set_git (Some empty_repo)) ;;;   (* git init *)
        write_file ".gitignore" gitignore ;;;
        Git.add ".gitignore" ;;;
        Git.commit "Initialize vault"
    end.

Definition getHeadCommit : M (option commit_id) :=
  try_catch (c <- Git.rev_parse_HEAD ;; ret (Some c)) (fun _ => ret None).

Definition commitFile (filePath : path) (content : bytes) (message : string)
  : M (option commit_id) :=
  initVaultGit ;;;
  write_file filePath content ;;;
  Git.add filePath ;;;
  early <- try_catch (Git.commit message ;;; ret None)
             (fun e => match e with
                       | GitNothingToCommit => h <- getHeadCommit ;; ret (Some h)
                       | _ => throw e
                       end) ;;
  match early with
  | Some h => ret h
  | None => getHeadCommit
  end.

Definition getFileAtCommit (filePath : path) (commitHash : commit_id) : M (option bytes) :=
  try_catch (b <- Git.show commitHash filePath ;; ret (Some b)) (fun _ => ret None).

Definition getCurrentFile (filePath : path) : M (option bytes) :=
  gets (fun st => tree_lookup filePath (worktree st)).

Definition existsSync (filePath : path) : M bool :=
  gets (fun st => tree_mem filePath (worktree st)).

(** [fse.readFileSync] of a file known to exist; a missing file reads as
    empty (the callers test [existsSync] first). *)
Definition readFileSync (filePath : path) : M bytes :=
  gets (fun st => match tree_lookup filePath (worktree st) with Some b => b | None => "" end).

Record MergeResult := mkMergeResult {
  merged : bytes;
  hasConflicts : bool
}.

(** What [git merge-file] leaves: exit status 0 and the merged file, a
    positive status and the file with conflict markers, or a failure. *)
Inductive MergeExit :=
| MergeClean (result : bytes)
| MergeConflicts (result : bytes)
| MergeError.

Definition deleteFile (filePath : path) : M bool :=
  present <- existsSync filePath ;;
  if negb present then ret false
  else
    modify (fun st => set_worktree (tree_remove filePath (worktree st)) st) ;;;
    try_catch (Git.add filePath ;;; Git.commit ("Delete " ++ filePath)) (fun _ => ret tt) ;;;
    ret true.

(** The filter of [git ls-files] in [getManifest] and
    [bootstrapVaultMetadata]. *)
Definition user_path (f : path) : bool :=
  negb (String.eqb f "") && negb (String.eqb f ".gitignore") && negb (starts_with ".scion/" f).

Definition bootstrapVaultMetadata : M unit :=
  tracked <- try_catch (out <- Git.ls_files ;; ret (filter user_path out)) (fun _ => ret []) ;;
  for_each (fun filePath =>
      present <- existsSync filePath ;;
      if negb present then ret (@None unit)
      else
        content <- readFileSync filePath ;;
        let hash := computeHash content in
        commit <- try_catch (c <- Git.log_1 filePath ;; ret (option_map commit_hash c))
                            (fun _ => ret None) ;;
        ensureFileId filePath (Some hash) commit ;;;
        ret None) tracked ;;;
  updateGitManifest ;;;
  try_catch (Git.add manifest_path ;;; Git.commit "Initialize Scion metadata") (fun _ => ret tt).

(** [interface FileRecord]; [fr_commit] is [None] for the empty output of
    [git log], [fr_updated_at] is [None] for [NaN]. *)
Record FileRecord := mkFileRecord {
  fr_file_id : file_id_t;
  fr_path : path;
  fr_hash : string;
  fr_commit : option commit_id;
  fr_updated_at : option timestamp
}.

Definition or_else {A} (a b : option A) : option A :=
  match a with Some _ => a | None => b end.

(** The body of the loop of [getManifest]. *)
Definition manifest_row (headCommit : option commit_id) (filePath : path) : M (option FileRecord) :=
  present <- existsSync filePath ;;
  if negb present then ret None
  else
    content <- readFileSync filePath ;;
    let hash := computeHash content in
    updatedAt <- try_catch (c <- Git.log_1 filePath ;; ret (option_map commit_time c))
                           (fun _ => t <- now ;; ret (Some t)) ;;
    commit <- try_catch (c <- Git.log_1 filePath ;; ret (option_map commit_hash c))
                        (fun _ => ret headCommit) ;;
    fileId <- ensureFileId filePath (Some hash) commit ;;
    ret (Some (mkFileRecord fileId filePath hash commit updatedAt)).

Definition getManifest : M (list FileRecord) :=
  initVaultGit ;;;
  headCommit <- getHeadCommit ;;
  match headCommit with
  | None => ret []
  | Some _ =>
      listing <- try_catch (out <- Git.ls_files ;; ret (Some (filter user_path out)))
                           (fun _ => ret None) ;;
      match listing with
      | None => ret []
      | Some tracked =>
          bootstrapped <- gets isVaultBootstrapped ;;
          (if Nat.ltb 0 (length tracked) && negb bootstrapped
           then bootstrapVaultMetadata else ret tt) ;;;
          for_each (manifest_row headCommit) tracked
      end
  end.

Record Changes := mkChanges {
  ch_headCommit : option commit_id;
  changedFiles : list path
}.

Definition getChangesSince (sinceCommit : option commit_id) : M Changes :=
  initVaultGit ;;;
  headCommit <- getHeadCommit ;;
  match headCommit with
  | None => ret (mkChanges None [])
  | Some h =>
      match sinceCommit with
      | None => ret (mkChanges headCommit [])
      | Some since =>
          if N.eqb since h then ret (mkChanges headCommit [])
          else
            try_catch
              (out <- Git.diff_name_only since h ;;
               ret (mkChanges headCommit
                      (filter (fun f => negb (String.eqb f "") && negb (String.eqb f ".gitignore")) out)))
              (fun _ =>
                 manifest <- getManifest ;;
                 ret (mkChanges headCommit (map fr_path manifest)))
      end
  end.

Definition getFileRecord (filePath : path) : M (option FileRecord) :=
  present <- existsSync filePath ;;
  if negb present then ret None
  else
    content <- readFileSync filePath ;;
    let hash := computeHash content in
    commit <- try_catch (c <- Git.log_1 filePath ;; ret (option_map commit_hash c))
                        (fun _ => getHeadCommit) ;;
    updatedAt <- try_catch (c <- Git.log_1 filePath ;; ret (option_map commit_time c))
                           (fun _ => t <- now ;; ret (Some t)) ;;
    fileId <- ensureFileId filePath (Some hash) commit ;;
    ret (Some (mkFileRecord fileId filePath hash commit updatedAt)).

Inductive DetectionMethod := ByFileId | HashMatch | PathHistory.

Definition method_name (m : DetectionMethod) : string :=
  match m with
  | ByFileId => "file_id"
  | HashMatch => "hash_match"
  | PathHistory => "path_history"
  end.

Record DetectResult := mkDetectResult {
  found : bool;
  newPath : option path;
  dr_fileId : option file_id_t;
  method : option DetectionMethod
}.

Definition not_found : DetectResult := mkDetectResult false None None None.

Definition detectRename (missingPath : path) (contentHash : string)
    (fileId : option file_id_t) : M DetectResult :=
  (* Strategy 1: If file_id provided, check metadata for current path *)
  byId <- gets (fun st =>
            match fileId with
            | Some id =>
                match getFileById id st with
                | Some metadata =>
                    if negb (String.eqb (current_path metadata) missingPath)
                       && is_null (deleted_at metadata)
                    then Some metadata else None
                | None => None
                end
            | None => None
            end) ;;
  match byId with
  | Some metadata =>
      ret (mkDetectResult true (Some (current_path metadata)) (Some (file_id metadata)) (Some ByFileId))
  | None =>
      (* Strategy 2: Check hash index for exact content match *)
      matchedFile <- gets (detectRenameByHash missingPath contentHash) ;;
      match matchedFile with
      | Some f =>
          ret (mkDetectResult true (Some (current_path f)) (Some (file_id f)) (Some HashMatch))
      | None =>
          (* Strategy 3: Check path history *)
          allFiles <- getManifest ;;
          hit <- gets (fun st =>
                   find (fun file => existsb (String.eqb missingPath)
                                       (getAllPreviousPaths (fr_file_id file) st)) allFiles) ;;
          match hit with
          | Some file =>
              ret (mkDetectResult true (Some (fr_path file)) (Some (fr_file_id file)) (Some PathHistory))
          | None => ret not_found
          end
      end
  end.

Record RenameResult := mkRenameResult {
  rn_success : bool;
  rn_commit : option commit_id;     (* '' is [None] *)
  rn_error : option string
}.

Definition rename_failed (msg : string) : RenameResult := mkRenameResult false None (Some msg).

Definition renameFile (fileId : file_id_t) (oldPath newPath : path) (newContent : option bytes)
  : M RenameResult :=
  initVaultGit ;;;
  present <- existsSync oldPath ;;
  if negb present then ret (rename_failed "File not found at old path")
  else
    metadata <- gets (getFileById fileId) ;;
    match metadata with
    | None => ret (rename_failed "File ID not found in metadata")
    | Some md =>
        if negb (String.eqb (current_path md) oldPath)
        then ret (rename_failed "File ID does not match old path")
        else
          try_catch
            (Git.mv oldPath newPath ;;;
             match newContent with
             | Some c => write_file newPath c ;;; Git.add newPath
             | None => ret tt
             end ;;;
             Git.commit ("Rename " ++ oldPath ++ " to " ++ newPath) ;;;
             commit <- getHeadCommit ;;
             hash <- match newContent with
                     | Some c => ret (computeHash c)
                     | None => content <- readFileSync newPath ;; ret (computeHash content)
                     end ;;
             recordPathChange fileId oldPath newPath ;;;
             updateFileRecord fileId (mkFileUpdates (Some newPath) (Some (Some hash)) (Some commit)) ;;;
             updateGitManifest ;;;
             try_catch (Git.add manifest_path ;;; Git.commit_amend) (fun _ => ret tt) ;;;
             ret (mkRenameResult true commit None))
            (fun e => ret (rename_failed (error_message e)))
    end.

(** The loop of [getFileAtCommitWithHistory] over the previous paths. *)
Fixpoint first_at_commit (commitHash : commit_id) (paths : list path) : M (option bytes) :=
  match paths with
  | [] => ret None
  | prevPath :: rest =>
      prevContent <- getFileAtCommit prevPath commitHash ;;
      match prevContent with
      | Some c => ret (Some c)
      | None => first_at_commit commitHash rest
      end
  end.

Definition getFileAtCommitWithHistory (fileId : file_id_t) (commitHash : commit_id)
    (currentPath : path) : M (option bytes) :=
  content <- getFileAtCommit currentPath commitHash ;;
  match content with
  | Some c => ret (Some c)
  | None =>
      previousPaths <- gets (getAllPreviousPaths fileId) ;;
      first_at_commit commitHash previousPaths
  end.

(* ----------------------------------------------------------------- *)
(** *** [binary-sync.ts] *)

(** [/[^a-zA-Z0-9-]/]: what the sanitising of a device id removes. *)
Definition device_id_char (a : ascii) : bool :=
  let n := N_of_ascii a in
  (N.leb 97 n && N.leb n 122) || (N.leb 65 n && N.leb n 90) || (N.leb 48 n && N.leb n 57)
  || N.eqb n 45.

Fixpoint keep_chars (keep : ascii -> bool) (s : string) : string :=
  match s with
  | EmptyString => EmptyString
  | String a rest => if keep a then String a (keep_chars keep rest) else keep_chars keep rest
  end.

(** [generateConflictPath]. [ext] is [path.extname(originalPath)], which
    the development takes as given; [slice(0, -ext.length || undefined)]
    is the whole path for an empty extension. *)
Definition generateConflictPath (ext : string) (originalPath : path) (deviceId : string) : path :=
  let base :=
    if Nat.eqb (String.length ext) 0 then originalPath
    else substring 0 (String.length originalPath - String.length ext) originalPath in
  let safeDeviceId := substring 0 16 (keep_chars device_id_char deviceId) in
  base ++ ".conflict-" ++ safeDeviceId ++ ext.

Record BinarySyncResult := mkBinarySyncResult {
  bin_success : bool;
  bin_conflict : bool;
  bin_conflictPath : option path;
  bin_hash : string;
  bin_error : option string
}.

(** [syncBinaryFile].  With the result comes what the function hands to
    [wsManager.broadcast] for the other devices of the vault: the hash of
    the incoming bytes, in the conflict case, and nothing otherwise. *)
Definition syncBinaryFile (ext : string) (filePath : path) (content : bytes) (deviceId : string)
  : M (BinarySyncResult * option string) :=
  try_catch
    (let incomingHash := computeHash content in
     serverContent <- getCurrentFile filePath ;;
     match serverContent with
     | None =>
         commitFile filePath content ("Add binary file " ++ filePath) ;;;
         ret (mkBinarySyncResult true false None incomingHash None, None)
     | Some server =>
         let serverHash := computeHash server in
         if String.eqb serverHash incomingHash
         then ret (mkBinarySyncResult true false None incomingHash None, None)
         else
           let conflictPath := generateConflictPath ext filePath deviceId in
           commitFile conflictPath content ("Binary conflict copy from device " ++ deviceId) ;;;
           ret (mkBinarySyncResult true true (Some conflictPath) serverHash None,
                Some incomingHash)
     end)
    (fun e => ret (mkBinarySyncResult false false None "" (Some (error_message e)), None)).

(** [reply.status(s).send(body)]; a plain [return body] is status 200. *)
Record HttpReply (A : Type) := mkHttpReply {
  status : nat;
  payload : option A;
  reply_error : option string
}.
Arguments mkHttpReply {A} _ _ _.
Arguments status {A} _.
Arguments payload {A} _.
Arguments reply_error {A} _.

Definition send_ok {A} (body : A) : HttpReply A := mkHttpReply 200 (Some body) None.
Definition send_error {A} (s : nat) (msg : string) : HttpReply A := mkHttpReply s None (Some msg).

(** A stand-in for [git merge-file] that merges whole files: a side that
    kept the base gives way to the other, equal sides agree, and anything
    else is one conflict hunk.  It serves to run the model on examples. *)
Definition whole_file_merge (base local remote : bytes) : MergeExit :=
  if String.eqb local remote then MergeClean local
  else if String.eqb base local then MergeClean remote
  else if String.eqb base remote then MergeClean local
  else MergeConflicts ("<<<<<<< LOCAL" ++ nl ++ local ++ "=======" ++ nl
                       ++ remote ++ ">>>>>>> REMOTE" ++ nl).

(** A vault directory that does not exist yet. *)
Definition empty_vault (name : string) : Vault :=
  mkVault name [] None (mkDb [] [] 1) 1 1%positive.

(* ================================================================= *)
(** ** [websocket.ts]: the connected clients *)

Definition socket_id := N.

Inductive MessageType :=
| MsgYjsUpdate | MsgStructureUpdate | MsgBinaryUpdate | MsgPing | MsgPong
| MsgSyncRequest | MsgSyncResponse | MsgError.

Record WebSocketMessage := mkWebSocketMessage {
  msg_type : MessageType;
  msg_vaultName : string;
  msg_deviceId : string;
  msg_fileId : option string;
  msg_payload : option string;
  msg_timestamp : N;
  msg_error : option string
}.

Record ConnectedClient := mkConnectedClient {
  c_deviceId : string;
  c_vaultName : string;
  c_socket : socket_id;
  c_lastSeen : N
}.

(** The manager and the sockets it talks to.  [clients] is the [Map] from
    vault names to client lists, its keys in insertion order;
    [readyState] is the state of each socket (1 is OPEN, 2 CLOSING, 3
    CLOSED); [sent] lists what [socket.send] was given, oldest first;
    [heartbeatInterval] tells whether the timer is set. *)
Record WsManager := mkWsManager {
  clients : list (string * list ConnectedClient);
  readyState : socket_id -> N;
  sent : list (socket_id * WebSocketMessage);
  heartbeatInterval : bool
}.

Definition set_clients (cs : list (string * list ConnectedClient)) (m : WsManager) : WsManager :=
  mkWsManager cs (readyState m) (sent m) (heartbeatInterval m).

(** [new WebSocketManager()] *)
Definition wsManager_new (ready : socket_id -> N) : WsManager := mkWsManager [] ready [] true.

(** [Map.get], [Map.set] and [Map.delete] on the client lists. *)
Fixpoint clients_get (k : string) (m : list (string * list ConnectedClient))
  : option (list ConnectedClient) :=
  match m with
  | [] => None
  | (k', v) :: rest => if String.eqb k' k then Some v else clients_get k rest
  end.

Fixpoint clients_set (k : string) (v : list ConnectedClient)
    (m : list (string * list ConnectedClient)) : list (string * list ConnectedClient) :=
  match m with
  | [] => [(k, v)]
  | (k', v') :: rest =>
      if String.eqb k' k then (k, v) :: rest else (k', v') :: clients_set k v rest
  end.

Fixpoint clients_delete (k : string) (m : list (string * list ConnectedClient))
  : list (string * list ConnectedClient) :=
  match m with
  | [] => []
  | (k', v') :: rest => if String.eqb k' k then rest else (k', v') :: clients_delete k rest
  end.

(** [l.splice(l.findIndex(f), 1)] for an index that is not -1. *)
Fixpoint splice_first {A} (f : A -> bool) (l : list A) : list A :=
  match l with
  | [] => []
  | x :: rest => if f x then rest else x :: splice_first f rest
  end.

(** [socket.close()]: an open socket is CLOSING from then on. *)
Definition socket_close (s : socket_id) (m : WsManager) : WsManager :=
  mkWsManager (clients m)
    (fun x => if N.eqb x s then (if N.eqb (readyState m s) 3 then 3%N else 2%N)
              else readyState m x)
    (sent m) (heartbeatInterval m).

Definition socket_send (s : socket_id) (message : WebSocketMessage) (m : WsManager) : WsManager :=
  mkWsManager (clients m) (readyState m) (sent m ++ [(s, message)])%list (heartbeatInterval m).

Definition same_device (deviceId : string) (c : ConnectedClient) : bool :=
  String.eqb (c_deviceId c) deviceId.

Definition getVaultClients (vaultName : string) (m : WsManager) : list ConnectedClient :=
  match clients_get vaultName (clients m) with Some l => l | None => [] end.

Definition getClientCount (vaultName : string) (m : WsManager) : nat :=
  match clients_get vaultName (clients m) with Some l => length l | None => 0 end.

Definition getConnectedVaults (m : WsManager) : list string := map fst (clients m).

(** [handleConnection] at time [now].  The handlers it registers on the
    socket for [close] and [error] both call
    [handleDisconnect(vaultName, deviceId)]. *)
Definition handleConnection (socket : socket_id) (vaultName deviceId : string) (now : N)
    (m : WsManager) : WsManager :=
  let client := mkConnectedClient deviceId vaultName socket now in
  let vaultClients := getVaultClients vaultName m in
  match find (same_device deviceId) vaultClients with
  | Some existing =>
      let m1 := socket_close (c_socket existing) m in
      set_clients
        (clients_set vaultName (splice_first (same_device deviceId) vaultClients ++ [client])%list
                     (clients m1)) m1
  | None => set_clients (clients_set vaultName (vaultClients ++ [client])%list (clients m)) m
  end.

Definition handleDisconnect (vaultName deviceId : string) (m : WsManager) : WsManager :=
  match clients_get vaultName (clients m) with
  | None => m
  | Some vaultClients =>
      if existsb (same_device deviceId) vaultClients
      then
        let rest := splice_first (same_device deviceId) vaultClients in
        if Nat.eqb (length rest) 0
        then set_clients (clients_delete vaultName (clients m)) m
        else set_clients (clients_set vaultName rest (clients m)) m
      else m
  end.

Definition sendToClient (client : ConnectedClient) (message : WebSocketMessage)
    (m : WsManager) : WsManager :=
  if N.eqb (readyState m (c_socket client)) 1 then socket_send (c_socket client) message m else m.

(** [excludeDeviceId && client.deviceId === excludeDeviceId] *)
Definition excluded (excludeDeviceId : option string) (client : ConnectedClient) : bool :=
  match excludeDeviceId with
  | Some d => negb (String.eqb d "") && String.eqb (c_deviceId client) d
  | None => false
  end.

Definition broadcast (vaultName : string) (message : WebSocketMessage)
    (excludeDeviceId : option string) (m : WsManager) : WsManager :=
  match clients_get vaultName (clients m) with
  | None => m
  | Some vaultClients =>
      if Nat.eqb (length vaultClients) 0 then m
      else
        fold_left (fun m client =>
                     if excluded excludeDeviceId client then m
                     else sendToClient client message m)
                  vaultClients m
  end.

Definition sendToDevice (vaultName deviceId : string) (message : WebSocketMessage)
    (m : WsManager) : WsManager * bool :=
  match clients_get vaultName (clients m) with
  | None => (m, false)
  | Some vaultClients =>
      match find (same_device deviceId) vaultClients with
      | None => (m, false)
      | Some client => (sendToClient client message m, true)
      end
  end.

Definition CLIENT_TIMEOUT : N := 60000.

Definition ping (vaultName : string) (now : N) : WebSocketMessage :=
  mkWebSocketMessage MsgPing vaultName "server" None None now None.

(** The callback of [startHeartbeat], at time [now]: the body of the loop
    over the clients of a vault, the loop over the vaults, the callback. *)
Definition heartbeat_client (vaultName : string) (now : N)
    (acc : WsManager * list ConnectedClient) (client : ConnectedClient)
  : WsManager * list ConnectedClient :=
  if N.ltb CLIENT_TIMEOUT (now - c_lastSeen client)
  then (socket_close (c_socket client) (fst acc), snd acc)
  else (sendToClient client (ping vaultName now) (fst acc), (snd acc ++ [client])%list).

Definition heartbeat_vault (now : N) (m : WsManager) (entry : string * list ConnectedClient)
  : WsManager :=
  let swept := fold_left (heartbeat_client (fst entry) now) (snd entry) (m, []) in
  if Nat.eqb (length (snd swept)) 0
  then set_clients (clients_delete (fst entry) (clients (fst swept))) (fst swept)
  else set_clients (clients_set (fst entry) (snd swept) (clients (fst swept))) (fst swept).

Definition heartbeat (now : N) (m : WsManager) : WsManager :=
  fold_left (heartbeat_vault now) (clients m) m.

Definition destroy (m : WsManager) : WsManager :=
  let closed := fold_left (fun m c => socket_close (c_socket c) m)
                          (concat (map snd (clients m))) m in
  mkWsManager [] (readyState closed) (sent closed) false.

(** What reaches the manager: the calls of its methods, the [close] or
    [error] event of a socket registered for a vault and a device, and the
    timer of the heartbeat, which fires while it is set. *)
Inductive WsCall :=
| WsConnect (socket : socket_id) (vaultName deviceId : string) (now : N)
| WsSocketClosed (vaultName deviceId : string)
| WsBroadcast (vaultName : string) (message : WebSocketMessage) (excludeDeviceId : option string)
| WsSendToDevice (vaultName deviceId : string) (message : WebSocketMessage)
| WsTimer (now : N)
| WsDestroy.

Definition ws_call (m : WsManager) (c : WsCall) : WsManager :=
  match c with
  | WsConnect s v d now => handleConnection s v d now m
  | WsSocketClosed v d => handleDisconnect v d m
  | WsBroadcast v msg ex => broadcast v msg ex m
  | WsSendToDevice v d msg => fst (sendToDevice v d msg m)
  | WsTimer now => if heartbeatInterval m then heartbeat now m else m
  | WsDestroy => destroy m
  end.

Definition ws_run (calls : list WsCall) (m : WsManager) : WsManager := fold_left ws_call calls m.

(** An entry of the map as the manager keeps them: the list has a client,
    its clients are of that vault, and no two of them are of the same
    device. *)
Definition entry_ok (entry : string * list ConnectedClient) : Prop :=
  snd entry <> [] /\
  NoDup (map c_deviceId (snd entry)) /\
  Forall (fun c => c_vaultName c = fst entry) (snd entry).

Definition ws_ok (m : WsManager) : Prop :=
  NoDup (map fst (clients m)) /\ Forall entry_ok (clients m).

(** What [heartbeat] keeps of a list of clients. *)
Definition seen_lately (now : N) (c : ConnectedClient) : bool :=
  negb (N.ltb CLIENT_TIMEOUT (now - c_lastSeen c)).

(** What [heartbeat] leaves of the map: the clients seen lately, and the
    vaults that have one. *)
Definition swept (now : N) (entries : list (string * list ConnectedClient))
  : list (string * list ConnectedClient) :=
  filter (fun e => negb (Nat.eqb (length (snd e)) 0))
         (map (fun e => (fst e, filter (seen_lately now) (snd e))) entries).

(** A client of [entries] with this socket, seen lately or not. *)
Definition socket_of (lately : bool) (now : N) (entries : list (string * list ConnectedClient))
    (vaultName : string) (s : socket_id) : Prop :=
  exists cs c, In (vaultName, cs) entries /\ In c cs /\ seen_lately now c = lately /\
               c_socket c = s.

(* ================================================================= *)
(** ** The engine, for a given [git merge-file] *)

Section Engine.

(** [git merge-file -L LOCAL -L BASE -L REMOTE local base remote], by the
    contents of the three files. *)
Variable git_merge_file : forall (base local remote : bytes), MergeExit.

(** The temporary directory [.tmp-merge] is removed on every exit. *)
Definition mergeFile (base local remote : bytes) : M MergeResult :=
  modify (fun st => set_worktree (tree_remove_prefix ".tmp-merge/" (worktree st)) st) ;;;
  match git_merge_file base local remote with
  | MergeClean m => ret (mkMergeResult m false)
  | MergeConflicts m => ret (mkMergeResult m true)
  | MergeError => throw MergeFailed
  end.

(* ----------------------------------------------------------------- *)
(** *** [operations.ts] *)

(** [interface SyncOperation]. [op_type], [op_path] and [op_old_path] are
    empty when the field is absent; [op_content] is the decoded content. *)
Record SyncOperation := mkSyncOperation {
  op_type : string;
  op_path : path;
  op_file_id : option file_id_t;
  op_old_path : path;
  op_content : option bytes;
  op_base_commit : option commit_id
}.

Record OperationResult := mkOperationResult {
  index_ : nat;
  success : bool;
  r_file_id : option file_id_t;
  r_commit : option commit_id;
  r_hash : option string;
  r_error : option string;
  r_merged : option bool;
  r_has_conflicts : option bool;
  r_merged_content : option bytes
}.

Definition op_failed (i : nat) (msg : string) : OperationResult :=
  mkOperationResult i false None None None (Some msg) None None None.

Definition op_done (i : nat) (fileId : option file_id_t) (commit : option commit_id)
    (hash : option string) (isMerged conflicts : bool) (content : option bytes) : OperationResult :=
  mkOperationResult i true fileId commit hash None (Some isMerged) (Some conflicts) content.

(** [!op.content] on the base64 text: absent or empty. *)
Definition no_content (c : option bytes) : bool :=
  match c with Some b => String.eqb b "" | None => true end.

Definition decoded (c : option bytes) : bytes :=
  match c with Some b => b | None => "" end.

Definition processCreate (op : SyncOperation) (i : nat) : M OperationResult :=
  if no_content (op_content op) then ret (op_failed i "Content required for create operation")
  else
    serverContent <- getCurrentFile (op_path op) ;;
    match serverContent with
    | Some _ => ret (op_failed i ("File already exists: " ++ op_path op))
    | None =>
        let clientContent := decoded (op_content op) in
        let clientHash := computeHash clientContent in
        commit <- commitFile (op_path op) clientContent ("Add " ++ op_path op) ;;
        fileId <- ensureFileId (op_path op) (Some clientHash) commit ;;
        ret (op_done i (Some fileId) commit (Some clientHash) false false None)
    end.

Definition processModify (op : SyncOperation) (i : nat) : M OperationResult :=
  if no_content (op_content op) then ret (op_failed i "Content required for modify operation")
  else
    match op_file_id op with
    | None => ret (op_failed i "file_id required for modify operation")
    | Some id =>
        metadata <- gets (getFileById id) ;;
        match metadata with
        | None => ret (op_failed i ("File not found: " ++ uuid_string id))
        | Some md =>
            if negb (is_null (deleted_at md))
            then ret (op_failed i ("File not found: " ++ uuid_string id))
            else
              let clientContent := decoded (op_content op) in
              let clientHash := computeHash clientContent in
              let p := current_path md in
              headCommit <- getHeadCommit ;;
              serverContent <- getCurrentFile p ;;
              (* Case 1: Fast-forward (client is up to date) *)
              if match op_base_commit op, headCommit with
                 | Some b, Some h => N.eqb b h
                 | _, _ => false
                 end
              then
                commit <- commitFile p clientContent ("Update " ++ p) ;;
                fileId <- ensureFileId p (Some clientHash) commit ;;
                ret (op_done i (Some fileId) commit (Some clientHash) false false None)
              else
                match serverContent with
                | None =>
                    (* File deleted on server, recreate it *)
                    commit <- commitFile p clientContent ("Recreate " ++ p) ;;
                    fileId <- ensureFileId p (Some clientHash) commit ;;
                    ret (op_done i (Some fileId) commit (Some clientHash) false false None)
                | Some server =>
                    (* Case 2: Content identical - no commit needed *)
                    if String.eqb clientHash (computeHash server)
                    then
                      record <- getFileRecord p ;;
                      ret (op_done i (Some id)
                             (or_else (match record with Some r => fr_commit r | None => None end)
                                      headCommit)
                             (Some clientHash) false false None)
                    else
                      (* Case 3: Three-way merge needed *)
                      baseContent <-
                        match op_base_commit op with
                        | Some b =>
                            atBase <- getFileAtCommit p b ;;
                            ret (match atBase with Some c => c | None => server end)
                        | None => ret server
                        end ;;
                      result <- mergeFile baseContent clientContent server ;;
                      let mergedHash := computeHash (merged result) in
                      if hasConflicts result
                      then
                        fileId <- ensureFileId p (Some mergedHash) headCommit ;;
                        ret (op_done i (Some fileId) headCommit (Some mergedHash) true true
                               (Some (merged result)))
                      else
                        commit <- commitFile p (merged result) ("Merge " ++ p) ;;
                        fileId <- ensureFileId p (Some mergedHash) commit ;;
                        ret (op_done i (Some fileId) commit (Some mergedHash) true false
                               (Some (merged result)))
                end
        end
    end.

Definition content_given (c : option bytes) : option bytes :=
  if no_content c then None else c.

Definition processRename (op : SyncOperation) (i : nat) : M OperationResult :=
  match op_file_id op with
  | None => ret (op_failed i "file_id required for rename operation")
  | Some id =>
      if String.eqb (op_old_path op) ""
      then ret (op_failed i "old_path required for rename operation")
      else
        result <- renameFile id (op_old_path op) (op_path op) (content_given (op_content op)) ;;
        if negb (rn_success result)
        then ret (mkOperationResult i false None None None (rn_error result) None None None)
        else
          record <- getFileRecord (op_path op) ;;
          ret (op_done i (option_map fr_file_id record) (rn_commit result)
                 (option_map fr_hash record) false false None)
  end.

Definition processDelete (op : SyncOperation) (i : nat) : M OperationResult :=
  match op_file_id op with
  | None => ret (op_failed i "file_id required for delete operation")
  | Some id =>
      (* Verify file exists *)
      metadata <- gets (getFileById id) ;;
      match metadata with
      | None => ret (op_failed i ("File not found: " ++ uuid_string id))
      | Some md =>
          (* Soft delete in metadata *)
          softDeleteFile id ;;;
          (* Hard delete from git *)
          deleted <- deleteFile (current_path md) ;;
          if negb deleted
          then ret (op_failed i ("Failed to delete file: " ++ current_path md))
          else
            commit <- getHeadCommit ;;
            ret (mkOperationResult i true (Some id) commit None None (Some false) (Some false) None)
      end
  end.

Definition processOperation (op : SyncOperation) (i : nat) : M OperationResult :=
  initVaultGit ;;;
  try_catch
    (if String.eqb (op_type op) "create" then processCreate op i
     else if String.eqb (op_type op) "modify" then processModify op i
     else if String.eqb (op_type op) "rename" then processRename op i
     else if String.eqb (op_type op) "delete" then processDelete op i
     else ret (op_failed i ("Unknown operation type: " ++ op_type op)))
    (fun err => ret (op_failed i (error_message err))).

(* ----------------------------------------------------------------- *)
(** *** [server.ts]: the HTTP handlers *)

(** An exception that leaves a handler is answered with status 500. *)
Definition fastify {A} (handler : M (HttpReply A)) : M (HttpReply A) :=
  try_catch handler (fun e => ret (send_error 500 (error_message e))).

Definition with_valid_vault {A} (handler : M (HttpReply A)) : M (HttpReply A) :=
  fastify (v <- gets vault_name ;;
           if negb (validateVaultName v) then ret (send_error 400 "Invalid vault name")
           else handler).

Record ManifestBody := mkManifestBody {
  mb_files : list FileRecord;
  mb_head_commit : option commit_id
}.

(** [GET /vault/:vaultName/manifest] *)
Definition get_manifest : M (HttpReply ManifestBody) :=
  with_valid_vault
    (initVaultGit ;;;
     rows <- getManifest ;;
     headCommit <- getHeadCommit ;;
     ret (send_ok (mkManifestBody rows headCommit))).

Record DebugBody := mkDebugBody {
  dbg_head_commit : option commit_id;
  dbg_file_count : nat;
  dbg_last_modified : option timestamp
}.

Definition later (acc : option timestamp) (f : FileRecord) : option timestamp :=
  match acc, fr_updated_at f with
  | None, _ => fr_updated_at f
  | Some a, Some u => if Pos.ltb a u then Some u else Some a
  | Some a, None => Some a
  end.

(** [GET /vault/:vaultName/debug] *)
Definition get_debug : M (HttpReply DebugBody) :=
  with_valid_vault
    (initVaultGit ;;;
     rows <- getManifest ;;
     headCommit <- getHeadCommit ;;
     ret (send_ok (mkDebugBody headCommit (length rows) (fold_left later rows None)))).

Record StatusBody := mkStatusBody {
  st_head_commit : option commit_id;
  st_changed_files : list path;
  st_has_changes : bool
}.

(** [GET /vault/:vaultName/status?since=] *)
Definition get_status (since : option commit_id) : M (HttpReply StatusBody) :=
  with_valid_vault
    (initVaultGit ;;;
     changes <- getChangesSince since ;;
     ret (send_ok (mkStatusBody (ch_headCommit changes) (changedFiles changes)
                     (Nat.ltb 0 (length (changedFiles changes)))))).

Record FileBody := mkFileBody {
  fb_content : bytes;
  fb_record : FileRecord       (* the X-File-* headers *)
}.

(** [GET /vault/:vaultName/file/*] *)
Definition get_file (filePath : path) : M (HttpReply FileBody) :=
  with_valid_vault
    (record <- getFileRecord filePath ;;
     match record with
     | None => ret (send_error 404 "File not found")
     | Some r =>
         content <- getCurrentFile filePath ;;
         match content with
         | None => ret (send_error 404 "File not found on disk")
         | Some c => ret (send_ok (mkFileBody c r))
         end
     end).

Record SyncBody := mkSyncBody {
  sb_path : path;                       (* empty when absent *)
  sb_content : option bytes;            (* [None] is [undefined] *)
  sb_base_commit : option commit_id
}.

Record SyncResponse := mkSyncResponse {
  sr_success : bool;
  sr_commit : option commit_id;
  sr_hash : string;
  sr_file_id : file_id_t;
  sr_merged : bool;
  sr_has_conflicts : bool;
  sr_merged_content : option bytes
}.

(** The two ways the handler leaves a merge: the conflict response without
    a commit, or the commit of the clean result. *)
Definition answer_merge (filePath : path) (headCommit : option commit_id) (result : MergeResult)
  : M (HttpReply SyncResponse) :=
  let mergedHash := computeHash (merged result) in
  if hasConflicts result
  then
    fileId <- ensureFileId filePath (Some mergedHash) headCommit ;;
    ret (send_ok (mkSyncResponse true headCommit mergedHash fileId true true (Some (merged result))))
  else
    commit <- commitFile filePath (merged result) ("Merge " ++ filePath) ;;
    fileId <- ensureFileId filePath (Some mergedHash) commit ;;
    ret (send_ok (mkSyncResponse true commit mergedHash fileId true false (Some (merged result)))).

(** [POST /vault/:vaultName/sync] *)
Definition post_sync (body : SyncBody) : M (HttpReply SyncResponse) :=
  with_valid_vault
    (match sb_content body with
     | None => ret (send_error 400 "Missing path or content")
     | Some clientContent =>
         if String.eqb (sb_path body) "" then ret (send_error 400 "Missing path or content")
         else
           let filePath := sb_path body in
           initVaultGit ;;;
           let clientHash := computeHash clientContent in
           headCommit <- getHeadCommit ;;
           serverContent <- getCurrentFile filePath ;;
           match serverContent with
           | None =>
               (* Case 1: New file (doesn't exist on server) *)
               commit <- commitFile filePath clientContent ("Add " ++ filePath) ;;
               fileId <- ensureFileId filePath (Some clientHash) commit ;;
               ret (send_ok (mkSyncResponse true commit clientHash fileId false false None))
           | Some server =>
               (* Case 2: Fast-forward (client is up to date with server) *)
               if match sb_base_commit body, headCommit with
                  | Some b, Some h => N.eqb b h
                  | _, _ => false
                  end
               then
                 commit <- commitFile filePath clientContent ("Update " ++ filePath) ;;
                 fileId <- ensureFileId filePath (Some clientHash) commit ;;
                 ret (send_ok (mkSyncResponse true commit clientHash fileId false false None))
               else
                 match sb_base_commit body with
                 | None =>
                     (* Case 3: Client has no base_commit (first sync or reset) *)
                     if String.eqb clientHash (computeHash server)
                     then
                       record <- getFileRecord filePath ;;
                       let commit := or_else (match record with Some r => fr_commit r | None => None end)
                                             headCommit in
                       fileId <- ensureFileId filePath (Some clientHash) commit ;;
                       ret (send_ok (mkSyncResponse true commit clientHash fileId false false None))
                     else
                       (* no base - use server as base *)
                       result <- mergeFile server clientContent server ;;
                       answer_merge filePath headCommit result
                 | Some base_commit =>
                     (* Case 4: Three-way merge needed *)
                     baseContent <- getFileAtCommit filePath base_commit ;;
                     match baseContent with
                     | None =>
                         (* File didn't exist at base_commit, using empty base *)
                         result <- mergeFile "" clientContent server ;;
                         answer_merge filePath headCommit result
                     | Some base =>
                         result <- mergeFile base clientContent server ;;
                         answer_merge filePath headCommit result
                     end
                 end
           end
     end).

Record V2SyncBody := mkV2SyncBody {
  operations : list SyncOperation;
  atomic : option bool                  (* default: true *)
}.

Record V2SyncResponse := mkV2SyncResponse {
  v2_success : bool;
  v2_results : list OperationResult;
  v2_head_commit : option commit_id
}.

Definition send_batch_failure (results : list OperationResult) (startCommit : option commit_id)
    (msg : string) : HttpReply V2SyncResponse :=
  mkHttpReply 400 (Some (mkV2SyncResponse false results startCommit)) (Some msg).

(** The loop [for (let i = 0; i < operations.length; i++)], from index [i]
    with the results pushed so far. *)
Fixpoint batch_loop (isAtomic : bool) (startCommit : option commit_id) (i : nat)
    (ops : list SyncOperation) (results : list OperationResult)
  : M (HttpReply V2SyncResponse) :=
  match ops with
  | [] =>
      finalCommit <- getHeadCommit ;;
      ret (send_ok (mkV2SyncResponse (forallb success results) results finalCommit))
  | op :: rest =>
      if String.eqb (op_type op) "" || String.eqb (op_path op) ""
      then
        let results' := (results ++ [op_failed i "Operation requires type and path"])%list in
        if isAtomic
        then ret (send_batch_failure results' startCommit
                    ("Operation " ++ decimal_of_N (N.of_nat i)
                      ++ " failed: Operation requires type and path"))
        else batch_loop isAtomic startCommit (S i) rest results'
      else
        result <- processOperation op i ;;
        let results' := (results ++ [result])%list in
        if negb (success result) && isAtomic
        then ret (send_batch_failure results' startCommit
                    ("Operation " ++ decimal_of_N (N.of_nat i) ++ " failed: "
                      ++ decoded (r_error result)))
        else batch_loop isAtomic startCommit (S i) rest results'
  end.

(** [POST /vault/:vaultName/sync/v2] *)
Definition post_sync_v2 (body : V2SyncBody) : M (HttpReply V2SyncResponse) :=
  with_valid_vault
    (match operations body with
     | [] => ret (send_error 400 "operations array is required")
     | ops =>
         initVaultGit ;;;
         startCommit <- getHeadCommit ;;
         batch_loop (match atomic body with Some b => b | None => true end) startCommit 0 ops []
     end).

Record DeleteBody := mkDeleteBody {
  del_success : bool;
  del_commit : option commit_id
}.

(** [DELETE /vault/:vaultName/file/*] *)
Definition delete_file (filePath : path) : M (HttpReply DeleteBody) :=
  with_valid_vault
    (metadata <- gets (getFileByPath filePath) ;;
     match metadata with
     | Some md => softDeleteFile (file_id md) ;;; ret tt
     | None => ret tt
     end ;;;
     deleted <- deleteFile filePath ;;
     if negb deleted then ret (send_error 404 "File not found")
     else
       commit <- getHeadCommit ;;
       ret (send_ok (mkDeleteBody true commit))).

(** [POST /vault/:vaultName/detect-rename] *)
Definition post_detect_rename (missing_path : path) (missing_hash : string)
    (fileId : option file_id_t) : M (HttpReply DetectResult) :=
  with_valid_vault
    (if String.eqb missing_path "" || String.eqb missing_hash ""
     then ret (send_error 400 "Missing required fields: missing_path, missing_hash")
     else
       result <- detectRename missing_path missing_hash fileId ;;
       ret (send_ok result)).

Record RenameBody := mkRenameBody {
  ren_success : bool;
  ren_commit : option commit_id;
  ren_file_id : option file_id_t;
  ren_hash : option string
}.

(** [POST /vault/:vaultName/rename] *)
Definition post_rename (fileId : option file_id_t) (old_path new_path : path)
    (content : option bytes) : M (HttpReply RenameBody) :=
  with_valid_vault
    (match fileId with
     | None => ret (send_error 400 "Missing required fields: file_id, old_path, new_path")
     | Some id =>
         if String.eqb old_path "" || String.eqb new_path ""
         then ret (send_error 400 "Missing required fields: file_id, old_path, new_path")
         else
           result <- renameFile id old_path new_path (content_given content) ;;
           if negb (rn_success result)
           then ret (send_error 400 (decoded (rn_error result)))
           else
             record <- getFileRecord new_path ;;
             ret (send_ok (mkRenameBody true (rn_commit result)
                             (option_map fr_file_id record) (option_map fr_hash record)))
     end).

(** [GET /vault/:vaultName/file-by-id/:fileId] *)
Definition get_file_by_id (fileId : file_id_t) : M (HttpReply FileBody) :=
  with_valid_vault
    (fileMeta <- gets (getFileById fileId) ;;
     match fileMeta with
     | None => ret (send_error 404 "File not found")
     | Some fm =>
         if negb (is_null (deleted_at fm)) then ret (send_error 404 "File not found")
         else
           record <- getFileRecord (current_path fm) ;;
           match record with
           | None => ret (send_error 404 "File not found on disk")
           | Some r =>
               content <- getCurrentFile (current_path fm) ;;
               match content with
               | None => ret (send_error 404 "File content not found")
               | Some c => ret (send_ok (mkFileBody c r))
               end
           end
     end).

(* ----------------------------------------------------------------- *)
(** *** [yjs-sync.ts] *)

Record YjsResult := mkYjsResult {
  yjs_success : bool;
  yjs_error : option string
}.

(** [handleYjsUpdate]. The CRDT library is outside the model: [docText] is
    [doc.getText('content').toString()] after [applyYjsUpdate], or [None]
    when applying the update throws. *)
Definition handleYjsUpdate (fileId : file_id_t) (docText : option bytes) : M YjsResult :=
  try_catch
    (match docText with
     | None => throw YjsUpdateFailed
     | Some content =>
         (* Look up the file path from metadata *)
         fileMeta <- gets (getFileById fileId) ;;
         match fileMeta with
         | None => ret (mkYjsResult false (Some "File metadata not found"))
         | Some fm =>
             (* Commit the updated content to git *)
             commitFile (current_path fm) content
               ("Update " ++ current_path fm ++ " via real-time sync") ;;;
             ret (mkYjsResult true None)
         end
     end)
    (fun e => ret (mkYjsResult false (Some (error_message e)))).

(* ----------------------------------------------------------------- *)
(** *** The server as a transition system *)

Inductive Request :=
| GetManifest
| GetDebug
| GetStatus (since : option commit_id)
| GetFile (filePath : path)
| PostSync (body : SyncBody)
| PostSyncV2 (body : V2SyncBody)
| DeleteFile (filePath : path)
| PostDetectRename (missing_path : path) (missing_hash : string) (fileId : option file_id_t)
| PostRename (fileId : option file_id_t) (old_path new_path : path) (content : option bytes)
| GetFileById (fileId : file_id_t)
| WsYjsUpdate (fileId : file_id_t) (docText : option bytes).

Inductive Response :=
| ManifestReply (r : HttpReply ManifestBody)
| DebugReply (r : HttpReply DebugBody)
| StatusReply (r : HttpReply StatusBody)
| FileReply (r : HttpReply FileBody)
| SyncReply (r : HttpReply SyncResponse)
| SyncV2Reply (r : HttpReply V2SyncResponse)
| DeleteReply (r : HttpReply DeleteBody)
| DetectReply (r : HttpReply DetectResult)
| RenameReply (r : HttpReply RenameBody)
| YjsReply (r : YjsResult).

Definition handle (rq : Request) : M Response :=
  match rq with
  | GetManifest => r <- get_manifest ;; ret (ManifestReply r)
  | GetDebug => r <- get_debug ;; ret (DebugReply r)
  | GetStatus since => r <- get_status since ;; ret (StatusReply r)
  | GetFile p => r <- get_file p ;; ret (FileReply r)
  | PostSync body => r <- post_sync body ;; ret (SyncReply r)
  | PostSyncV2 body => r <- post_sync_v2 body ;; ret (SyncV2Reply r)
  | DeleteFile p => r <- delete_file p ;; ret (DeleteReply r)
  | PostDetectRename p h id => r <- post_detect_rename p h id ;; ret (DetectReply r)
  | PostRename id o n c => r <- post_rename id o n c ;; ret (RenameReply r)
  | GetFileById id => r <- get_file_by_id id ;; ret (FileReply r)
  | WsYjsUpdate id text => r <- handleYjsUpdate id text ;; ret (YjsReply r)
  end.

(** The status and the error text of an HTTP answer; a yjs update is
    answered over the socket and has neither. *)
Definition response_status (r : Response) : option nat :=
  match r with
  | ManifestReply x => Some (status x)
  | DebugReply x => Some (status x)
  | StatusReply x => Some (status x)
  | FileReply x => Some (status x)
  | SyncReply x => Some (status x)
  | SyncV2Reply x => Some (status x)
  | DeleteReply x => Some (status x)
  | DetectReply x => Some (status x)
  | RenameReply x => Some (status x)
  | YjsReply _ => None
  end.

Definition response_error (r : Response) : option string :=
  match r with
  | ManifestReply x => reply_error x
  | DebugReply x => reply_error x
  | StatusReply x => reply_error x
  | FileReply x => reply_error x
  | SyncReply x => reply_error x
  | SyncV2Reply x => reply_error x
  | DeleteReply x => reply_error x
  | DetectReply x => reply_error x
  | RenameReply x => reply_error x
  | YjsReply y => yjs_error y
  end.

(** The server handles the requests one after the other; each arrives at
    some time of the clock. *)
Fixpoint serve (trace : list (timestamp * Request)) (st : Vault) : Vault :=
  match trace with
  | [] => st
  | (t, rq) :: rest => serve rest (fst (handle rq (set_clock t st)))
  end.


(* ----------------------------------------------------------------- *)
(** *** Sample runs *)

Definition after {A} (m : M A) (st : Vault) : Vault := fst (m st).

Definition create_op (p : path) (content : bytes) : SyncOperation :=
  mkSyncOperation "create" p None "" (Some content) None.

Definition modify_op (id : file_id_t) (p : path) (content : bytes) (base : option commit_id)
  : SyncOperation :=
  mkSyncOperation "modify" p (Some id) "" (Some content) base.

Definition delete_op (id : file_id_t) (p : path) : SyncOperation :=
  mkSyncOperation "delete" p (Some id) "" None None.

(** The vault [V] after the create of [a.md] (file 1, commit 1) at time 1. *)
Definition vault_created : Vault :=
  after (processCreate (create_op "a.md" "hello") 0) (empty_vault "V").

(** ... after the delete of file 1 at time 2. *)
Definition vault_deleted : Vault :=
  after (processDelete (delete_op 1%N "a.md") 0) (set_clock 2%positive vault_created).

(** ... or after the rename of [a.md] to [b.md] at time 2, *)
Definition vault_renamed : Vault :=
  after (renameFile 1%N "a.md" "b.md" None) (set_clock 2%positive vault_created).

(** and the create of [c.md] with the same contents at time 3. *)
Definition vault_twins : Vault :=
  after (processCreate (create_op "c.md" "hello") 0) (set_clock 3%positive vault_renamed).

(** The vault [V] after [a.md] was created and then updated by another
    client at time 2 (commit 2). *)
Definition vault_updated : Vault :=
  after (commitFile "a.md" "hello world" "Update a.md") (set_clock 2%positive vault_created).

(** A second client, still at commit 1, sends other contents for [a.md]. *)
Definition conflict_body : SyncBody := mkSyncBody "a.md" (Some "other") (Some 1%N).

Definition conflict_text : bytes :=
  "<<<<<<< LOCAL" ++ nl ++ "other" ++ "=======" ++ nl ++ "hello world" ++ ">>>>>>> REMOTE" ++ nl.

(** A client at the initial commit sends the bytes the server has. *)
Definition stale_body : SyncBody := mkSyncBody "a.md" (Some "hello") (Some 0%N).

(** A create, a modify of a file_id that does not exist, a create. *)
Definition batch_with_bad_modify : list SyncOperation :=
  [create_op "a.md" "one"; modify_op 99%N "x.md" "two" None; create_op "b.md" "three"].

(** The row of file 1 after its delete at time 2. *)
Definition deleted_row : FileMetadata :=
  mkFileMetadata 1%N "V" "a.md" (Some (computeHash "hello")) (Some 1%N) 1%positive 2%positive
    (Some 2%positive).

(** A yjs update for file 1, a create of [a.md], a read of the manifest. *)
Definition revival_trace : list (timestamp * Request) :=
  [(3%positive, WsYjsUpdate 1%N (Some "again"));
   (4%positive, PostSyncV2 (mkV2SyncBody [create_op "a.md" "new"] None));
   (5%positive, GetManifest)].

(* ================================================================= *)
(** ** Vocabulary of the specification *)

(** The chain of commits behind HEAD, and HEAD itself. *)
Definition history (st : Vault) : list Commit :=
  match git st with Some r => commits r | None => [] end.

Definition head_of (st : Vault) : option commit_id :=
  match history st with c :: _ => Some (commit_hash c) | [] => None end.

(** The contents of [p] at commit [c], as [git show] finds them. *)
Definition file_at (p : path) (c : commit_id) (st : Vault) : option bytes :=
  match git st with
  | Some r =>
      match Git.find_commit c r with
      | Some k => tree_lookup p (commit_tree k)
      | None => None
      end
  | None => None
  end.

(** [base_commit && base_commit === headCommit] *)
Definition fast_forward (base : option commit_id) (st : Vault) : bool :=
  match base, head_of st with
  | Some b, Some h => N.eqb b h
  | _, _ => false
  end.

(** A relation between the state before and after a computation, closed
    under sequencing. *)
Record Frame := mkFrame {
  rel :> Vault -> Vault -> Prop;
  rel_refl : forall st, rel st st;
  rel_trans : forall a b c, rel a b -> rel b c -> rel a c
}.

Definition preserves (F : Frame) {A} (m : M A) : Prop :=
  forall st st' o, m st = (st', o) -> F st st'.

(** An invariant of the state together with a property of the result. *)
Definition yields (I : Vault -> Prop) {A} (phi : A -> Prop) (m : M A) : Prop :=
  forall st st' o, I st -> m st = (st', o) -> I st' /\ (forall a, o = Ok a -> phi a).

(** The row of [id] is soft-deleted.  [file_id] is the primary key, so the
    rows carrying [id] are at most one. *)
Definition soft_deleted (id : file_id_t) (st : Vault) : Prop :=
  (exists r, In r (files (db st)) /\ file_id r = id) /\
  (forall r, In r (files (db st)) -> file_id r = id -> deleted_at r <> None).

Definition deletions_kept (st st' : Vault) : Prop :=
  forall id, soft_deleted id st -> soft_deleted id st'.

(** The identity store is left alone. *)
Definition same_db (st st' : Vault) : Prop :=
  db st' = db st /\ vault_name st' = vault_name st /\ uuid_seed st' = uuid_seed st.

(** Every row is still there, under its file_id, vault and creation time. *)
Definition rows_kept (st st' : Vault) : Prop :=
  forall r, In r (files (db st)) ->
    exists r', In r' (files (db st')) /\ file_id r' = file_id r /\
               vault_id r' = vault_id r /\ created_at r' = created_at r.

(** The table [path_history] has its entries of before, then new ones. *)
Definition history_grows (st st' : Vault) : Prop :=
  exists l, path_history (db st') = (path_history (db st) ++ l)%list.

Definition name_kept (st st' : Vault) : Prop := vault_name st' = vault_name st.

(** The manifest [updateGitManifest] writes in a state. *)
Definition manifest_of (st : Vault) : GitManifest :=
  mkGitManifest 1 (vault_name st)
    (map (fun r => (file_id r, (current_path r, created_at r))) (getAllFiles st))
    (clock st).

(** The row [rebuildFromManifest] inserts for a row the manifest lists. *)
Definition rebuilt_row (v : string) (t : timestamp) (r : FileMetadata) : FileMetadata :=
  mkFileMetadata (file_id r) v (current_path r) None None (created_at r) t None.

(** Only the identity store and the manifest file move. *)
Definition identity_step (st st' : Vault) : Prop :=
  git st' = git st /\ vault_name st' = vault_name st /\ clock st' = clock st /\
  (forall p, p <> manifest_path -> tree_lookup p (worktree st') = tree_lookup p (worktree st)).

(** The base the single-file sync merges against: the server contents
    without a base commit, else the file at the base commit or, without
    one there, the empty file. *)
Definition sync_merge_base (p : path) (base : option commit_id) (server : bytes) (st : Vault)
  : bytes :=
  match base with
  | None => server
  | Some b => match file_at p b st with Some c => c | None => "" end
  end.

(** The base a Modify merges against: the file at the base commit where
    there is one, else the server contents. *)
Definition modify_merge_base (p : path) (base : option commit_id) (server : bytes) (st : Vault)
  : bytes :=
  match base with
  | None => server
  | Some b => match file_at p b st with Some c => c | None => server end
  end.

(** One turn of the loop of a batch: the check of the shape of the
    operation, then the operation. *)
Definition batch_step (op : SyncOperation) (i : nat) : M OperationResult :=
  if String.eqb (op_type op) "" || String.eqb (op_path op) ""
  then ret (op_failed i "Operation requires type and path")
  else processOperation op i.

(** [processed i ops st rs st']: from [st], the operations [ops], numbered
    from [i], give the results [rs] one after the other and leave [st']. *)
Inductive processed : nat -> list SyncOperation -> Vault -> list OperationResult -> Vault -> Prop :=
| processed_nil (i : nat) (st : Vault) : processed i [] st [] st
| processed_cons (i : nat) (op : SyncOperation) (ops : list SyncOperation)
    (st st1 st2 : Vault) (r : OperationResult) (rs : list OperationResult) :
    batch_step op i st = (st1, Ok r) ->
    processed (S i) ops st1 rs st2 ->
    processed i (op :: ops) st (r :: rs) st2.

Definition batch_failure_message (i : nat) (r : OperationResult) : string :=
  "Operation " ++ decimal_of_N (N.of_nat i) ++ " failed: " ++ decoded (r_error r).

(** The active rows with the missing hash at another path: what the hash
    strategy of the rename detector looks at. *)
Definition hash_candidates (missingPath : path) (contentHash : string) (st : Vault)
  : list FileMetadata :=
  filter (fun f => negb (String.eqb (current_path f) missingPath))
         (getFilesByHash contentHash st).

(** The file_id strategy has no answer: the file_id is absent, unknown,
    soft-deleted or still at the missing path. *)
Definition id_strategy_silent (missingPath : path) (fileId : option file_id_t) (st : Vault)
  : Prop :=
  forall id md, fileId = Some id -> getFileById id st = Some md ->
                current_path md = missingPath \/ deleted_at md <> None.

(** The tracked user files that are on disk: the paths of the manifest. *)
Definition tracked_on_disk (st : Vault) : list path :=
  match git st with
  | Some r => filter (fun p => tree_mem p (worktree st)) (filter user_path (tree_paths (index r)))
  | None => []
  end.

(** A computation that returns, keeps [J] and gives a result with [phi]. *)
Definition runs (J : Vault -> Prop) {A} (phi : A -> Prop) (m : M A) : Prop :=
  forall st, J st -> exists st' a, m st = (st', Ok a) /\ J st' /\ phi a.

(** [uuidv4()] has not produced any identifier of the table yet. *)
Definition uuid_fresh (st : Vault) : Prop :=
  forall r, In r (files (db st)) -> (file_id r < uuid_seed st)%N.

(** The two conditions on the rows of the table as tests. *)
Definition uuid_fresh_b (st : Vault) : bool :=
  forallb (fun r => N.ltb (file_id r) (uuid_seed st)) (files (db st)).

Definition soft_deleted_b (id : file_id_t) (st : Vault) : bool :=
  existsb (has_id id) (files (db st)) &&
  forallb (fun r => negb (has_id id r) || negb (is_null (deleted_at r))) (files (db st)).

(** [st] is a state met while listing the files of [st0]: the user files
    on disk are those of [st0]. *)
Definition listing (st0 st : Vault) : Prop :=
  uuid_fresh st /\
  forall p, p <> manifest_path -> tree_lookup p (worktree st) = tree_lookup p (worktree st0).

(** Nothing moves. *)
Definition unchanged (st st' : Vault) : Prop := st' = st.

(** Only the repository moves. *)
Definition repo_step (st st' : Vault) : Prop :=
  db st' = db st /\ uuid_seed st' = uuid_seed st /\ worktree st' = worktree st.


(* ================================================================= *)
(** ** Trees *)

Lemma tree_lookup_insert_eq (p : path) (b : bytes) (t : tree) :
  tree_lookup p (tree_insert p b t) = Some b.
Proof.
  induction t as [|[q c] t IH]; simpl.
  - now rewrite String.eqb_refl.
  - destruct (String.compare p q) eqn:E; simpl.
    + now rewrite String.eqb_refl.
    + now rewrite String.eqb_refl.
    + destruct (String.eqb_spec p q) as [->|_]; [|exact IH].
      pose proof (String.compare_antisym q q) as H. rewrite E in H. discriminate H.
Qed.

Lemma tree_lookup_insert_ne (p q : path) (b : bytes) (t : tree) :
  q <> p -> tree_lookup q (tree_insert p b t) = tree_lookup q t.
Proof.
  intros Hne. induction t as [|[r c] t IH]; simpl.
  - destruct (String.eqb_spec q p); congruence.
  - destruct (String.compare p r) eqn:E; simpl.
    + apply String.compare_eq_iff in E. subst r.
      destruct (String.eqb_spec q p); congruence.
    + destruct (String.eqb_spec q p); congruence.
    + now rewrite IH.
Qed.

Lemma tree_lookup_remove_ne (p q : path) (t : tree) :
  q <> p -> tree_lookup q (tree_remove p t) = tree_lookup q t.
Proof.
  intros Hne. induction t as [|[r c] t IH]; simpl; [reflexivity|].
  destruct (String.eqb_spec p r) as [->|Hr]; simpl.
  - destruct (String.eqb_spec q r); congruence.
  - now rewrite IH.
Qed.

Lemma tree_lookup_remove_eq (p : path) (t : tree) :
  tree_lookup p (tree_remove p t) = None.
Proof.
  induction t as [|[r c] t IH]; simpl; [reflexivity|].
  destruct (String.eqb_spec p r) as [->|Hr]; simpl; [exact IH|].
  destruct (String.eqb_spec p r); congruence.
Qed.

Lemma opt_bytes_eqb_refl (a : option bytes) : opt_bytes_eqb a a = true.
Proof. destruct a; simpl; [apply String.eqb_refl | reflexivity]. Qed.

Lemma opt_bytes_eqb_eq (a b : option bytes) : opt_bytes_eqb a b = true <-> a = b.
Proof.
  destruct a, b; simpl; split; try congruence.
  - intros H. apply String.eqb_eq in H. now subst.
  - intros [= ->]. apply String.eqb_refl.
Qed.

(** Staging a file whose staged contents are already the same leaves the
    index with the same files. *)
Lemma tree_eqb_insert_same (p : path) (b : bytes) (t : tree) :
  tree_lookup p t = Some b -> tree_eqb (tree_insert p b t) t = true.
Proof.
  intros H. unfold tree_eqb. apply forallb_forall. intros q _.
  apply opt_bytes_eqb_eq.
  destruct (string_eq_dec q p) as [->|Hne].
  - now rewrite tree_lookup_insert_eq.
  - now apply tree_lookup_insert_ne.
Qed.

Lemma tree_eqb_false_of_lookup (p : path) (t1 t2 : tree) :
  tree_lookup p t1 <> tree_lookup p t2 -> tree_eqb t1 t2 = false.
Proof.
  intros H. destruct (tree_eqb t1 t2) eqn:E; [|reflexivity]. exfalso. apply H.
  unfold tree_eqb in E. rewrite forallb_forall in E.
  destruct (tree_lookup p t1) eqn:E1.
  - assert (In p (tree_paths t1 ++ tree_paths t2)) as Hin.
    { apply in_or_app. left. clear - E1. induction t1 as [|[q c] t IH]; simpl in *; [discriminate|].
      destruct (String.eqb_spec p q); [now left | right; now apply IH]. }
    apply E in Hin. apply opt_bytes_eqb_eq in Hin. congruence.
  - destruct (tree_lookup p t2) eqn:E2; [|reflexivity].
    assert (In p (tree_paths t1 ++ tree_paths t2)) as Hin.
    { apply in_or_app. right. clear - E2. induction t2 as [|[q c] t IH]; simpl in *; [discriminate|].
      destruct (String.eqb_spec p q); [now left | right; now apply IH]. }
    apply E in Hin. apply opt_bytes_eqb_eq in Hin. congruence.
Qed.

(* ================================================================= *)
(** ** The monad *)

Lemma bind_ok {A B} (m : M A) (k : A -> M B) st st1 a :
  m st = (st1, Ok a) -> bind m k st = k a st1.
Proof. unfold bind. now intros ->. Qed.

Lemma bind_throw {A B} (m : M A) (k : A -> M B) st st1 e :
  m st = (st1, Throw e) -> bind m k st = (st1, Throw e).
Proof. unfold bind. now intros ->. Qed.

Lemma bind_inv {A B} (m : M A) (k : A -> M B) st st' b :
  bind m k st = (st', Ok b) ->
  exists st1 a, m st = (st1, Ok a) /\ k a st1 = (st', Ok b).
Proof.
  unfold bind. destruct (m st) as [st1 [a|e]]; intros H; [eauto | discriminate].
Qed.

Lemma try_catch_ok {A} (m : M A) (h : Error -> M A) st st1 a :
  m st = (st1, Ok a) -> try_catch m h st = (st1, Ok a).
Proof. unfold try_catch. now intros ->. Qed.

Lemma try_catch_throw {A} (m : M A) (h : Error -> M A) st st1 e :
  m st = (st1, Throw e) -> try_catch m h st = h e st1.
Proof. unfold try_catch. now intros ->. Qed.

Lemma getHeadCommit_eq st : getHeadCommit st = (st, Ok (head_of st)).
Proof.
  unfold getHeadCommit, try_catch, bind, Git.rev_parse_HEAD, Git.with_repo, head_of, history.
  destruct (git st) as [r|]; [|reflexivity].
  destruct (commits r); reflexivity.
Qed.

Lemma getFileAtCommit_eq p c st : getFileAtCommit p c st = (st, Ok (file_at p c st)).
Proof.
  unfold getFileAtCommit, try_catch, bind, Git.show, Git.with_repo, file_at.
  destruct (git st) as [r|]; [|reflexivity].
  destruct (Git.find_commit c r) as [k|]; [|reflexivity].
  destruct (tree_lookup p (commit_tree k)); reflexivity.
Qed.

(* ----------------------------------------------------------------- *)
(** *** Rules for [preserves] *)

Section FrameRules.

Variable F : Frame.

Lemma preserves_ret {A} (a : A) : preserves F (ret a).
Proof. intros st st' o [= <- _]. apply rel_refl. Qed.

Lemma preserves_throw {A} (e : Error) : preserves F (@throw A e).
Proof. intros st st' o [= <- _]. apply rel_refl. Qed.

Lemma preserves_gets {A} (f : Vault -> A) : preserves F (gets f).
Proof. intros st st' o [= <- _]. apply rel_refl. Qed.

Lemma preserves_modify (f : Vault -> Vault) :
  (forall st, F st (f st)) -> preserves F (modify f).
Proof. intros H st st' o [= <- _]. apply H. Qed.

Lemma preserves_bind {A B} (m : M A) (k : A -> M B) :
  preserves F m -> (forall a, preserves F (k a)) -> preserves F (bind m k).
Proof.
  intros Hm Hk st st' o. unfold bind.
  destruct (m st) as [st1 [a|e]] eqn:E; intros H.
  - eapply rel_trans; [eapply Hm; eauto | eapply Hk; eauto].
  - injection H as <- _. eapply Hm; eauto.
Qed.

Lemma preserves_try_catch {A} (m : M A) (h : Error -> M A) :
  preserves F m -> (forall e, preserves F (h e)) -> preserves F (try_catch m h).
Proof.
  intros Hm Hh st st' o. unfold try_catch.
  destruct (m st) as [st1 [a|e]] eqn:E; intros H.
  - injection H as <- _. eapply Hm; eauto.
  - eapply rel_trans; [eapply Hm; eauto | eapply Hh; eauto].
Qed.

Lemma preserves_for_each {A B} (body : A -> M (option B)) (xs : list A) :
  (forall x, preserves F (body x)) -> preserves F (for_each body xs).
Proof.
  intros Hb. induction xs as [|x xs IH]; simpl.
  - apply preserves_ret.
  - apply preserves_bind; [apply Hb|]. intros r.
    apply preserves_bind; [apply IH|]. intros rs. apply preserves_ret.
Qed.

Lemma preserves_with_repo {A} (f : Repo -> M A) :
  (forall r, preserves F (f r)) -> preserves F (Git.with_repo f).
Proof.
  intros H st st' o. unfold Git.with_repo.
  destruct (git st) as [r|]; [apply H|]. intros [= <- _]. apply rel_refl.
Qed.

End FrameRules.

(* ----------------------------------------------------------------- *)
(** *** Rules for [yields] *)

Section YieldRules.

Variable I : Vault -> Prop.

Lemma yields_ret {A} (phi : A -> Prop) (a : A) : phi a -> yields I phi (ret a).
Proof. intros Ha st st' o HI [= <- <-]. split; [assumption|]. now intros ? [= <-]. Qed.

Lemma yields_throw {A} (phi : A -> Prop) (e : Error) : yields I phi (throw e).
Proof. intros st st' o HI [= <- <-]. split; [assumption|]. discriminate. Qed.

Lemma yields_gets {A} (phi : A -> Prop) (f : Vault -> A) :
  (forall st, I st -> phi (f st)) -> yields I phi (gets f).
Proof. intros H st st' o HI [= <- <-]. split; [assumption|]. intros ? [= <-]. now apply H. Qed.

Lemma yields_bind {A B} (psi : A -> Prop) (phi : B -> Prop) (m : M A) (k : A -> M B) :
  yields I psi m -> (forall a, psi a -> yields I phi (k a)) -> yields I phi (bind m k).
Proof.
  intros Hm Hk st st' o HI. unfold bind.
  destruct (m st) as [st1 [a|e]] eqn:E; intros H.
  - destruct (Hm _ _ _ HI E) as [HI1 Ha]. eapply Hk; eauto.
  - injection H as <- <-. destruct (Hm _ _ _ HI E) as [HI1 _]. split; [assumption | discriminate].
Qed.

Lemma yields_try_catch {A} (phi : A -> Prop) (m : M A) (h : Error -> M A) :
  yields I phi m -> (forall e, yields I phi (h e)) -> yields I phi (try_catch m h).
Proof.
  intros Hm Hh st st' o HI. unfold try_catch.
  destruct (m st) as [st1 [a|e]] eqn:E; intros H.
  - injection H as <- <-. eapply Hm; eauto.
  - destruct (Hm _ _ _ HI E) as [HI1 _]. eapply Hh; eauto.
Qed.

Lemma yields_weaken {A} (psi phi : A -> Prop) (m : M A) :
  (forall a, psi a -> phi a) -> yields I psi m -> yields I phi m.
Proof.
  intros Hw Hm st st' o HI E. destruct (Hm _ _ _ HI E) as [HI1 Ha]. split; auto.
Qed.

Lemma yields_for_each {A B} (phi : B -> Prop) (body : A -> M (option B)) (xs : list A) :
  (forall x, yields I (fun r => forall b, r = Some b -> phi b) (body x)) ->
  yields I (Forall phi) (for_each body xs).
Proof.
  intros Hb. induction xs as [|x xs IH]; simpl.
  - apply yields_ret. constructor.
  - eapply yields_bind; [apply Hb|]. intros r Hr.
    eapply yields_bind; [apply IH|]. intros rs Hrs. apply yields_ret.
    destruct r; [constructor; auto | assumption].
Qed.

End YieldRules.


(* ================================================================= *)
(** ** Three frames *)

Lemma identity_step_refl st : identity_step st st.
Proof. unfold identity_step. auto. Qed.

Lemma identity_step_trans a b c : identity_step a b -> identity_step b c -> identity_step a c.
Proof.
  unfold identity_step. intros (G1 & V1 & C1 & W1) (G2 & V2 & C2 & W2).
  repeat split; try congruence. intros p Hp. rewrite W2, W1; auto.
Qed.

Definition identity_frame : Frame := mkFrame identity_step identity_step_refl identity_step_trans.

Lemma deletions_kept_refl st : deletions_kept st st.
Proof. unfold deletions_kept. auto. Qed.

Lemma deletions_kept_trans a b c : deletions_kept a b -> deletions_kept b c -> deletions_kept a c.
Proof. unfold deletions_kept. auto. Qed.

Definition deletion_frame : Frame := mkFrame deletions_kept deletions_kept_refl deletions_kept_trans.

Lemma same_db_refl st : same_db st st.
Proof. unfold same_db. auto. Qed.

Lemma same_db_trans a b c : same_db a b -> same_db b c -> same_db a c.
Proof. unfold same_db. intros (? & ? & ?) (? & ? & ?). repeat split; congruence. Qed.

Definition store_frame : Frame := mkFrame same_db same_db_refl same_db_trans.

Lemma deletions_kept_same_files st st' :
  files (db st') = files (db st) -> deletions_kept st st'.
Proof. intros H id. unfold soft_deleted. now rewrite H. Qed.

Lemma store_to_deletion {A} (m : M A) : preserves store_frame m -> preserves deletion_frame m.
Proof.
  intros H st st' o E. apply deletions_kept_same_files.
  specialize (H _ _ _ E). simpl in H. destruct H as [H _]. now rewrite H.
Qed.

(** Decomposition of a computation along its syntax; [tac] proves what a
    [modify] asks for. *)
Ltac pres_with tac :=
  repeat first
    [ apply preserves_ret
    | apply preserves_throw
    | apply preserves_gets
    | solve [auto with pres]
    | apply preserves_modify; intro; solve [tac]
    | apply preserves_bind; [| intro]
    | apply preserves_try_catch; [| intro]
    | apply preserves_for_each; intro
    | apply preserves_with_repo; intro
    | match goal with
      | |- preserves _ (match ?x with _ => _ end) => destruct x
      end
    | progress cbv zeta ].

Ltac pres := pres_with fail.

Create HintDb pres.

(* ----------------------------------------------------------------- *)
(** *** The git commands and the file system leave the identity store *)

Lemma store_write_file p c : preserves store_frame (write_file p c).
Proof. unfold write_file. pres_with ltac:(repeat split). Qed.

Lemma store_put_repo r : preserves store_frame (Git.put_repo r).
Proof. unfold Git.put_repo. pres_with ltac:(repeat split). Qed.

Lemma store_git_add p : preserves store_frame (Git.add p).
Proof.
  intros st st' o. unfold Git.add, Git.with_repo.
  destruct (git st) as [r|]; [|intros [= <- _]; repeat split].
  destruct (tree_lookup p (worktree st)); [intros [= <- _]; repeat split|].
  destruct (tree_mem p (index r)); intros [= <- _]; repeat split.
Qed.

Lemma store_git_commit msg : preserves store_frame (Git.commit msg).
Proof.
  intros st st' o. unfold Git.commit, Git.with_repo.
  destruct (git st) as [r|]; [|intros [= <- _]; repeat split].
  destruct (tree_eqb (index r) (Git.head_tree r)); intros [= <- _]; repeat split.
Qed.

Lemma store_git_commit_amend : preserves store_frame Git.commit_amend.
Proof.
  intros st st' o. unfold Git.commit_amend, Git.with_repo.
  destruct (git st) as [r|]; [|intros [= <- _]; repeat split].
  destruct (commits r); intros [= <- _]; repeat split.
Qed.

Lemma store_git_mv old new : preserves store_frame (Git.mv old new).
Proof.
  intros st st' o. unfold Git.mv, Git.with_repo.
  destruct (git st) as [r|]; [|intros [= <- _]; repeat split].
  destruct (tree_lookup old (worktree st)); [|intros [= <- _]; repeat split].
  destruct (tree_lookup old (index r)); [|intros [= <- _]; repeat split].
  destruct (tree_mem new (worktree st)); intros [= <- _]; repeat split.
Qed.

Lemma store_updateGitManifest : preserves store_frame updateGitManifest.
Proof. intros st st' o. unfold updateGitManifest, write_file, modify. intros [= <- _]. repeat split. Qed.

#[local] Hint Resolve store_write_file store_put_repo store_git_add store_git_commit
  store_git_commit_amend store_git_mv store_updateGitManifest : pres.

Lemma any_getHeadCommit (F : Frame) : preserves F getHeadCommit.
Proof. intros st st' o. rewrite getHeadCommit_eq. intros [= <- _]. apply rel_refl. Qed.

Lemma any_getFileAtCommit (F : Frame) p c : preserves F (getFileAtCommit p c).
Proof. intros st st' o. rewrite getFileAtCommit_eq. intros [= <- _]. apply rel_refl. Qed.

Lemma any_git_log_1 (F : Frame) p : preserves F (Git.log_1 p).
Proof. unfold Git.log_1. pres. Qed.

Lemma any_git_ls_files (F : Frame) : preserves F Git.ls_files.
Proof. unfold Git.ls_files. pres. Qed.

Lemma any_git_diff (F : Frame) a b : preserves F (Git.diff_name_only a b).
Proof. unfold Git.diff_name_only. pres. Qed.

Lemma any_now (F : Frame) : preserves F now.
Proof. unfold now. pres. Qed.

Lemma any_getCurrentFile (F : Frame) p : preserves F (getCurrentFile p).
Proof. unfold getCurrentFile. pres. Qed.

Lemma any_existsSync (F : Frame) p : preserves F (existsSync p).
Proof. unfold existsSync. pres. Qed.

Lemma any_readFileSync (F : Frame) p : preserves F (readFileSync p).
Proof. unfold readFileSync. pres. Qed.

#[local] Hint Resolve any_getHeadCommit any_getFileAtCommit any_git_log_1 any_git_ls_files
  any_git_diff any_now any_getCurrentFile any_existsSync any_readFileSync : pres.

Lemma store_initVaultGit : preserves store_frame initVaultGit.
Proof. unfold initVaultGit. pres_with ltac:(repeat split). Qed.

#[local] Hint Resolve store_initVaultGit : pres.

Lemma store_commitFile p c msg : preserves store_frame (commitFile p c msg).
Proof. unfold commitFile. pres_with ltac:(repeat split). Qed.

Lemma store_deleteFile p : preserves store_frame (deleteFile p).
Proof. unfold deleteFile. pres_with ltac:(repeat split). Qed.

Lemma store_mergeFile b l r : preserves store_frame (mergeFile b l r).
Proof. unfold mergeFile. pres_with ltac:(repeat split). Qed.


(* ----------------------------------------------------------------- *)
(** *** The identity store: what its writes keep *)

Lemma deletions_kept_map (f : FileMetadata -> FileMetadata) st st' :
  files (db st') = map f (files (db st)) ->
  (forall r, file_id (f r) = file_id r) ->
  (forall r, deleted_at r <> None -> deleted_at (f r) <> None) ->
  deletions_kept st st'.
Proof.
  intros Hf Hid Hdel id [[r [Hin Hr]] Hall]. unfold soft_deleted. rewrite Hf. split.
  - exists (f r). split; [now apply in_map | now rewrite Hid].
  - intros r' Hin' Hr'. apply in_map_iff in Hin' as [r0 [<- Hin0]].
    apply Hdel, Hall; [assumption | now rewrite <- Hid].
Qed.

Lemma has_id_true id r : has_id id r = true <-> file_id r = id.
Proof. unfold has_id. apply N.eqb_eq. Qed.

Lemma updateFileRecord_run id u st :
  exists st',
    updateFileRecord id u st = (st', Ok (existsb (has_id id) (files (db st)))) /\
    files (db st') =
      map (fun r => if has_id id r then apply_updates (clock st) u r else r) (files (db st)) /\
    uuid_seed st' = uuid_seed st /\ identity_step st st'.
Proof.
  unfold updateFileRecord, now, gets, modify, bind, ret. simpl.
  destruct (existsb (has_id id) (files (db st)) && negb (is_null (u_current_path u))).
  - unfold updateGitManifest, write_file, modify. simpl. eexists. split; [reflexivity|].
    repeat split. simpl. intros p Hp. now apply tree_lookup_insert_ne.
  - eexists. split; [reflexivity|]. repeat split.
Qed.

Lemma softDeleteFile_run id st :
  exists st',
    softDeleteFile id st = (st', Ok (existsb (has_id id) (files (db st)))) /\
    files (db st') =
      map (fun r => if has_id id r then mark_deleted (clock st) r else r) (files (db st)) /\
    path_history (db st') = path_history (db st) /\
    uuid_seed st' = uuid_seed st /\ identity_step st st'.
Proof.
  unfold softDeleteFile, now, gets, modify, bind, ret. simpl.
  destruct (existsb (has_id id) (files (db st))).
  - unfold updateGitManifest, write_file, modify. simpl. eexists. split; [reflexivity|].
    repeat split. simpl. intros p Hp. now apply tree_lookup_insert_ne.
  - eexists. split; [reflexivity|]. repeat split.
Qed.

Lemma deletion_updateFileRecord id u : preserves deletion_frame (updateFileRecord id u).
Proof.
  intros st st' o E. destruct (updateFileRecord_run id u st) as (st1 & E1 & Hf & _).
  rewrite E1 in E. injection E as <- _. simpl.
  eapply deletions_kept_map; [exact Hf | |]; intros r; cbv beta; destruct (has_id id r); simpl; auto.
Qed.

Lemma deletion_softDeleteFile id : preserves deletion_frame (softDeleteFile id).
Proof.
  intros st st' o E. destruct (softDeleteFile_run id st) as (st1 & E1 & Hf & _).
  rewrite E1 in E. injection E as <- _. simpl.
  eapply deletions_kept_map; [exact Hf | |]; intros r; cbv beta; destruct (has_id id r); simpl; auto.
  discriminate.
Qed.

Lemma existsb_has_id_false row rows :
  existsb (fun r => N.eqb (file_id r) (file_id row)) rows = false ->
  forall r, In r rows -> file_id r <> file_id row.
Proof.
  intros H r Hin Heq. assert (existsb (fun r => N.eqb (file_id r) (file_id row)) rows = true).
  { apply existsb_exists. exists r. split; [assumption | now apply N.eqb_eq]. }
  congruence.
Qed.

Lemma deletion_insert_file row : preserves deletion_frame (insert_file row).
Proof.
  intros st st' o. unfold insert_file.
  destruct (existsb _ (files (db st))) eqn:Ex; intros [= <- _]; [apply deletions_kept_refl|].
  intros id [[r [Hin Hr]] Hall]. unfold soft_deleted. simpl. split.
  - exists r. split; [apply in_or_app; now left | assumption].
  - intros r' Hin' Hr'. apply in_app_or in Hin' as [Hin'|[<-|[]]]; [now apply Hall|].
    exfalso. eapply existsb_has_id_false; eauto. congruence.
Qed.

Lemma deletion_uuidv4 : preserves deletion_frame uuidv4.
Proof.
  intros st st' o. unfold uuidv4. intros [= <- _]. apply deletions_kept_same_files. reflexivity.
Qed.

Lemma deletion_recordPathChange id o n : preserves deletion_frame (recordPathChange id o n).
Proof.
  unfold recordPathChange. pres_with ltac:(apply deletions_kept_same_files; reflexivity).
Qed.

#[local] Hint Resolve store_commitFile store_deleteFile store_mergeFile deletion_uuidv4 : pres.
#[local] Hint Resolve deletion_updateFileRecord deletion_softDeleteFile deletion_insert_file
  deletion_recordPathChange : pres.
#[local] Hint Extern 5 (preserves deletion_frame _) =>
  apply store_to_deletion; solve [auto with pres] : pres.

Ltac pres_del := pres_with ltac:(apply deletions_kept_same_files; reflexivity).

Lemma deletion_createFileRecord p h c : preserves deletion_frame (createFileRecord p h c).
Proof. unfold createFileRecord, generateFileId. pres_del. Qed.

#[local] Hint Resolve deletion_createFileRecord : pres.

Lemma deletion_ensureFileId p h c : preserves deletion_frame (ensureFileId p h c).
Proof. unfold ensureFileId. pres_del. Qed.

#[local] Hint Resolve deletion_ensureFileId : pres.

Lemma deletion_getFileRecord p : preserves deletion_frame (getFileRecord p).
Proof. unfold getFileRecord. pres_del. Qed.

Lemma deletion_bootstrap : preserves deletion_frame bootstrapVaultMetadata.
Proof. unfold bootstrapVaultMetadata. pres_del. Qed.

#[local] Hint Resolve deletion_getFileRecord deletion_bootstrap : pres.

Lemma deletion_manifest_row h p : preserves deletion_frame (manifest_row h p).
Proof. unfold manifest_row. pres_del. Qed.

#[local] Hint Resolve deletion_manifest_row : pres.

Lemma deletion_getManifest : preserves deletion_frame getManifest.
Proof. unfold getManifest. pres_del. Qed.

#[local] Hint Resolve deletion_getManifest : pres.

Lemma deletion_getChangesSince since : preserves deletion_frame (getChangesSince since).
Proof. unfold getChangesSince. pres_del. Qed.

Lemma deletion_detectRename p h id : preserves deletion_frame (detectRename p h id).
Proof. unfold detectRename. pres_del. Qed.

Lemma deletion_renameFile id o n c : preserves deletion_frame (renameFile id o n c).
Proof. unfold renameFile. pres_del. Qed.

#[local] Hint Resolve deletion_getChangesSince deletion_detectRename deletion_renameFile : pres.

Lemma deletion_processCreate op i : preserves deletion_frame (processCreate op i).
Proof. unfold processCreate. pres_del. Qed.

Lemma deletion_processModify op i : preserves deletion_frame (processModify op i).
Proof. unfold processModify. pres_del. Qed.

Lemma deletion_processRename op i : preserves deletion_frame (processRename op i).
Proof. unfold processRename. pres_del. Qed.

Lemma deletion_processDelete op i : preserves deletion_frame (processDelete op i).
Proof. unfold processDelete. pres_del. Qed.

#[local] Hint Resolve deletion_processCreate deletion_processModify deletion_processRename
  deletion_processDelete : pres.

Lemma deletion_processOperation op i : preserves deletion_frame (processOperation op i).
Proof. unfold processOperation. pres_del. Qed.

#[local] Hint Resolve deletion_processOperation : pres.

Lemma deletion_batch_loop a s ops : forall i rs, preserves deletion_frame (batch_loop a s i ops rs).
Proof. induction ops as [|op ops IH]; intros i rs; simpl; pres_del. Qed.

#[local] Hint Resolve deletion_batch_loop : pres.

Lemma deletion_answer_merge p h r : preserves deletion_frame (answer_merge p h r).
Proof. unfold answer_merge. pres_del. Qed.

#[local] Hint Resolve deletion_answer_merge : pres.

Lemma deletion_handle rq : preserves deletion_frame (handle rq).
Proof.
  destruct rq; unfold handle;
    unfold get_manifest, get_debug, get_status, get_file, post_sync, post_sync_v2, delete_file,
           post_detect_rename, post_rename, get_file_by_id, handleYjsUpdate,
           with_valid_vault, fastify;
    pres_del.
Qed.


(* ----------------------------------------------------------------- *)
(** *** Identifiers handed out never belong to a soft-deleted row *)

Lemma yields_of_preserves {A} (id : file_id_t) (m : M A) :
  preserves deletion_frame m -> yields (soft_deleted id) (fun _ => True) m.
Proof. intros H st st' o HI E. split; [eapply H; eauto | trivial]. Qed.

Lemma getFileByPath_active p st r :
  getFileByPath p st = Some r ->
  In r (files (db st)) /\ deleted_at r = None /\ current_path r = p /\ vault_id r = vault_name st.
Proof.
  unfold getFileByPath. intros H. apply find_some in H as [Hin Hb].
  unfold active_in in Hb.
  apply andb_true_iff in Hb as [Ha Hp]. apply andb_true_iff in Ha as [Hv Hd].
  repeat split; [assumption | | now apply String.eqb_eq | now apply String.eqb_eq].
  destruct (deleted_at r); [discriminate | reflexivity].
Qed.

Lemma ensureFileId_live (id : file_id_t) p h c :
  yields (soft_deleted id) (fun fid => fid <> id) (ensureFileId p h c).
Proof.
  intros st st' o HI E. split; [eapply deletion_ensureFileId; eauto|].
  intros fid ->. revert E. unfold ensureFileId, bind, gets. simpl.
  destruct (getFileByPath p st) as [r|] eqn:Ep.
  - apply getFileByPath_active in Ep as (Hin & Hd & _).
    intros E Hid.
    assert (fid = file_id r) as ->.
    { destruct (truthy h || negb (is_null c)).
      - destruct (updateFileRecord_run (file_id r) (mkFileUpdates None (Some h) (Some c)) st)
          as (st1 & E1 & _). rewrite E1 in E. simpl in E. unfold ret in E. congruence.
      - unfold ret in E. simpl in E. congruence. }
    destruct HI as [_ Hall]. now apply (Hall r).
  - unfold createFileRecord, generateFileId, uuidv4, now, gets, bind, insert_file. simpl.
    destruct (existsb _ (files (db st))) eqn:Ex; [discriminate|].
    unfold updateGitManifest, write_file, modify, ret. simpl. intros [= _ <-] Hid.
    destruct HI as [[r [Hin Hr]] _].
    assert (existsb (fun r => N.eqb (file_id r) (uuid_seed st)) (files (db st)) = true).
    { apply existsb_exists. exists r. split; [assumption | apply N.eqb_eq; congruence]. }
    congruence.
Qed.

Ltac yld id :=
  repeat first
    [ apply yields_throw
    | eapply yields_bind; [ apply (ensureFileId_live id) | intros ? ? ]
    | eapply yields_bind; [ apply (yields_of_preserves id); solve [auto with pres | pres_del] | intros ? _ ]
    | apply yields_try_catch; [| intro]
    | match goal with
      | |- yields _ _ (match ?x with _ => _ end) => destruct x
      end
    | progress cbv zeta
    | apply yields_ret; simpl; solve [ trivial | discriminate | congruence
                                     | intros ? [= <-]; assumption
                                     | intros ? [= <-]; simpl; assumption ] ].

Lemma manifest_row_live (id : file_id_t) h p :
  yields (soft_deleted id) (fun r => forall row, r = Some row -> fr_file_id row <> id)
         (manifest_row h p).
Proof. unfold manifest_row. yld id. Qed.

Lemma getManifest_live (id : file_id_t) :
  yields (soft_deleted id) (Forall (fun row => fr_file_id row <> id)) getManifest.
Proof.
  unfold getManifest.
  eapply yields_bind; [apply (yields_of_preserves id); auto with pres | intros _ _].
  eapply yields_bind; [apply (yields_of_preserves id); auto with pres | intros h _].
  destruct h; [|apply yields_ret; constructor].
  eapply yields_bind; [apply (yields_of_preserves id); pres_del | intros l _].
  destruct l; [|apply yields_ret; constructor].
  eapply yields_bind; [apply (yields_of_preserves id); pres_del | intros b _].
  eapply yields_bind; [apply (yields_of_preserves id); pres_del | intros _ _].
  apply yields_for_each. intros x. apply manifest_row_live.
Qed.

Lemma processCreate_live (id : file_id_t) op i :
  yields (soft_deleted id) (fun res => success res = true -> r_file_id res <> Some id)
         (processCreate op i).
Proof. unfold processCreate, op_failed, op_done. yld id. Qed.

Lemma answer_merge_live (id : file_id_t) p h r :
  yields (soft_deleted id)
         (fun reply => forall resp, payload reply = Some resp -> sr_file_id resp <> id)
         (answer_merge p h r).
Proof. unfold answer_merge, send_ok. yld id. Qed.

Lemma post_sync_live (id : file_id_t) body :
  yields (soft_deleted id)
         (fun reply => forall resp, payload reply = Some resp -> sr_file_id resp <> id)
         (post_sync body).
Proof.
  unfold post_sync, with_valid_vault, fastify, send_ok, send_error.
  apply yields_try_catch; [|intro; apply yields_ret; simpl; discriminate].
  eapply yields_bind; [apply (yields_of_preserves id); pres_del | intros v _].
  destruct (negb (validateVaultName v)); [apply yields_ret; simpl; discriminate|].
  destruct (sb_content body) as [content|]; [|apply yields_ret; simpl; discriminate].
  destruct (String.eqb (sb_path body) ""); [apply yields_ret; simpl; discriminate|].
  eapply yields_bind; [apply (yields_of_preserves id); auto with pres | intros _ _].
  eapply yields_bind; [apply (yields_of_preserves id); auto with pres | intros h _].
  eapply yields_bind; [apply (yields_of_preserves id); auto with pres | intros sc _].
  destruct sc as [server|]; [|yld id].
  match goal with |- yields _ _ (if ?b then _ else _) => destruct b end; [yld id|].
  destruct (sb_base_commit body) as [b|].
  - eapply yields_bind; [apply (yields_of_preserves id); auto with pres | intros bc _].
    destruct bc;
      (eapply yields_bind; [apply (yields_of_preserves id); auto with pres
                           | intros res _; apply answer_merge_live]).
  - destruct (String.eqb _ _); [yld id|].
    eapply yields_bind; [apply (yields_of_preserves id); auto with pres
                        | intros res _; apply answer_merge_live].
Qed.

Lemma serve_keeps_deletions trace : forall st, deletions_kept st (serve trace st).
Proof.
  induction trace as [|[t rq] trace IH]; intros st; simpl; [apply deletions_kept_refl|].
  eapply deletions_kept_trans; [|apply IH].
  eapply deletions_kept_trans with (b := set_clock t st).
  - apply deletions_kept_same_files. reflexivity.
  - destruct (handle rq (set_clock t st)) as [st1 o] eqn:E. simpl.
    eapply deletion_handle; eauto.
Qed.


Lemma get_manifest_live (id : file_id_t) :
  yields (soft_deleted id)
         (fun reply => forall body, payload reply = Some body ->
                         Forall (fun row => fr_file_id row <> id) (mb_files body))
         get_manifest.
Proof.
  unfold get_manifest, with_valid_vault, fastify, send_ok, send_error.
  apply yields_try_catch; [|intro; apply yields_ret; simpl; discriminate].
  eapply yields_bind; [apply (yields_of_preserves id); pres_del | intros v _].
  destruct (negb (validateVaultName v)); [apply yields_ret; simpl; discriminate|].
  eapply yields_bind; [apply (yields_of_preserves id); auto with pres | intros _ _].
  eapply yields_bind; [apply getManifest_live | intros rows Hrows].
  eapply yields_bind; [apply (yields_of_preserves id); auto with pres | intros h _].
  apply yields_ret. simpl. now intros body [= <-].
Qed.

Lemma getFileByPath_same_db p st st' : same_db st st' -> getFileByPath p st' = getFileByPath p st.
Proof. intros (Hd & Hv & _). unfold getFileByPath. now rewrite Hd, Hv. Qed.

Lemma ensureFileId_creates p h c st st' fid :
  getFileByPath p st = None ->
  ensureFileId p h c st = (st', Ok fid) ->
  forall r, In r (files (db st)) -> file_id r <> fid.
Proof.
  intros Hp. unfold ensureFileId, bind, gets. simpl. rewrite Hp.
  unfold createFileRecord, generateFileId, uuidv4, now, gets, bind, insert_file. simpl.
  destruct (existsb _ (files (db st))) eqn:Ex; [discriminate|].
  unfold updateGitManifest, write_file, modify, ret. simpl. intros [= _ <-] r Hin Hid.
  assert (existsb (fun r => N.eqb (file_id r) (uuid_seed st)) (files (db st)) = true).
  { apply existsb_exists. exists r. split; [assumption | now apply N.eqb_eq]. }
  congruence.
Qed.

(** A create at a path without an active row draws an identifier that no
    row of the table carries. *)
Lemma processCreate_new_id op i st st' res fid :
  processCreate op i st = (st', Ok res) ->
  success res = true ->
  getFileByPath (op_path op) st = None ->
  r_file_id res = Some fid ->
  forall r, In r (files (db st)) -> file_id r <> fid.
Proof.
  unfold processCreate. destruct (no_content (op_content op)); [intros [= _ <-]; discriminate|].
  intros E. apply bind_inv in E as (st1 & sc & E1 & E). injection E1 as <- <-.
  destruct (tree_lookup (op_path op) (worktree st)); [injection E as _ <-; discriminate|].
  apply bind_inv in E as (st2 & commit & E2 & E).
  apply bind_inv in E as (st3 & fid' & E3 & E). injection E as _ <-. simpl.
  intros _ Hp [= ->].
  pose proof (store_commitFile _ _ _ _ _ _ E2) as Hs.
  rewrite <- (getFileByPath_same_db _ _ _ Hs) in Hp.
  destruct Hs as (Hd & _). rewrite <- Hd.
  eapply ensureFileId_creates; eauto.
Qed.

(* ================================================================= *)
(** ** Soft-deleted identities *)



(* ================================================================= *)
(** ** Lookups of the identity store *)

(** C9, as the code has it. [getFileByPath] leaves soft-deleted rows out: a
    path whose rows are all soft-deleted has no record.  [getFileById] does
    not look at [deleted_at]: for a file_id whose row is soft-deleted it
    returns that row (its callers test [deleted_at] themselves). *)
Theorem C9_lookup_by_path_skips_deleted_rows_lookup_by_id_returns_them :
  forall (st : Vault) (p : path) (id : file_id_t) (r : FileMetadata),
    (forall x, In x (files (db st)) -> current_path x = p -> deleted_at x <> None) ->
    In r (files (db st)) ->
    file_id r = id ->
    deleted_at r <> None ->
    (forall x, In x (files (db st)) -> file_id x = id -> x = r) ->
    getFileByPath p st = None /\ getFileById id st = Some r.
Proof.
  intros st p id r Hpath Hin Hid Hdel Huniq. split.
  - destruct (getFileByPath p st) as [x|] eqn:E; [|reflexivity].
    apply getFileByPath_active in E as (Hx & Hd & Hp & _).
    exfalso. now apply (Hpath x Hx Hp).
  - unfold getFileById. destruct (find _ (files (db st))) as [x|] eqn:E.
    + apply find_some in E as [Hx Hb]. apply N.eqb_eq in Hb. f_equal. now apply Huniq.
    + exfalso. apply (find_none _ _ E) in Hin. apply N.eqb_neq in Hin. contradiction.
Qed.

(* ================================================================= *)
(** ** Delete *)

Lemma deleteFile_false p st st' :
  deleteFile p st = (st', Ok false) -> st' = st /\ tree_mem p (worktree st) = false.
Proof.
  unfold deleteFile, existsSync, gets, bind. simpl.
  destruct (tree_mem p (worktree st)); simpl.
  - match goal with |- context [try_catch ?m ?h ?s] => destruct (try_catch m h s) as [st2 [[]|e]] end;
      unfold ret; intros [= ].
  - unfold ret. now intros [= <-].
Qed.

Lemma getFileById_some id st md :
  getFileById id st = Some md -> In md (files (db st)) /\ file_id md = id.
Proof.
  unfold getFileById. intros H. apply find_some in H as [Hin Hb]. now apply N.eqb_eq in Hb.
Qed.



(* ================================================================= *)
(** ** Rename detection *)

Lemma id_strategy_none missingPath fileId st :
  id_strategy_silent missingPath fileId st ->
  match fileId with
  | Some id =>
      match getFileById id st with
      | Some metadata =>
          if negb (String.eqb (current_path metadata) missingPath) && is_null (deleted_at metadata)
          then Some metadata else None
      | None => None
      end
  | None => None
  end = None.
Proof.
  intros H. destruct fileId as [id|]; [|reflexivity].
  destruct (getFileById id st) as [md|] eqn:E; [|reflexivity].
  destruct (H id md eq_refl E) as [Hp|Hd].
  - rewrite Hp, String.eqb_refl. reflexivity.
  - destruct (deleted_at md); [|contradiction]. simpl. now rewrite andb_false_r.
Qed.

(** C6, as the code has it. The strategies are tried in order.  A file_id
    that resolves to an active row at another path wins with method
    file_id.  Otherwise, exactly one active row with the missing hash at
    another path wins with method hash_match.  When more than one such row
    exists, the hash strategy has no answer and the detector goes on to the
    path-history scan: it answers found with method path_history when a
    file of the manifest was once at the missing path, and found=false
    only when none was. *)
Theorem C6_detectRename_tries_file_id_then_hash_then_path_history :
  forall (missingPath : path) (contentHash : string) (fileId : option file_id_t) (st : Vault),
    (forall id md,
        fileId = Some id -> getFileById id st = Some md ->
        current_path md <> missingPath -> deleted_at md = None ->
        detectRename missingPath contentHash fileId st =
        (st, Ok (mkDetectResult true (Some (current_path md)) (Some (file_id md)) (Some ByFileId))))
    /\
    (id_strategy_silent missingPath fileId st ->
     forall c, hash_candidates missingPath contentHash st = [c] ->
        detectRename missingPath contentHash fileId st =
        (st, Ok (mkDetectResult true (Some (current_path c)) (Some (file_id c)) (Some HashMatch))))
    /\
    (id_strategy_silent missingPath fileId st ->
     1 < length (hash_candidates missingPath contentHash st) ->
     forall st' res, detectRename missingPath contentHash fileId st = (st', Ok res) ->
        (exists rows file,
            getManifest st = (st', Ok rows) /\ In file rows /\
            In missingPath (getAllPreviousPaths (fr_file_id file) st') /\
            res = mkDetectResult true (Some (fr_path file)) (Some (fr_file_id file))
                    (Some PathHistory))
        \/
        (exists rows,
            getManifest st = (st', Ok rows) /\
            (forall file, In file rows ->
                          ~ In missingPath (getAllPreviousPaths (fr_file_id file) st')) /\
            res = not_found)).
Proof.
  intros missingPath contentHash fileId st. split; [|split].
  - intros id md -> E Hp Hd. unfold detectRename, bind, gets. simpl. rewrite E, Hd.
    destruct (String.eqb_spec (current_path md) missingPath); [contradiction|]. reflexivity.
  - intros Hs c Hc. unfold detectRename, bind, gets. simpl.
    rewrite (id_strategy_none _ _ _ Hs).
    unfold detectRenameByHash. unfold hash_candidates in Hc. rewrite Hc. reflexivity.
  - intros Hs Hlen st' res. unfold detectRename, bind at 1, gets at 1. simpl.
    rewrite (id_strategy_none _ _ _ Hs).
    unfold bind at 1, gets at 1. simpl.
    unfold detectRenameByHash. unfold hash_candidates in Hlen.
    destruct (filter _ (getFilesByHash contentHash st)) as [|a [|b l]]; simpl in Hlen; try lia.
    intros E. apply bind_inv in E as (st1 & rows & E1 & E).
    unfold bind, gets in E. simpl in E.
    destruct (find _ rows) as [file|] eqn:Ef; injection E as <- <-.
    + left. exists rows, file. apply find_some in Ef as [Hin Hb].
      apply existsb_exists in Hb as [x [Hx Hb]]. apply String.eqb_eq in Hb. subst x.
      repeat split; assumption.
    + right. exists rows. repeat split; [assumption|].
      intros file Hin Hx. apply (find_none _ _ Ef) in Hin.
      assert (existsb (String.eqb missingPath) (getAllPreviousPaths (fr_file_id file) st1) = true).
      { apply existsb_exists. exists missingPath. split; [assumption | apply String.eqb_refl]. }
      congruence.
Qed.


(* ================================================================= *)
(** ** Listing the files of a vault *)

Section RunRules.

Variable J : Vault -> Prop.

Lemma runs_ret {A} (phi : A -> Prop) (a : A) : phi a -> runs J phi (ret a).
Proof. intros Ha st HJ. exists st, a. auto. Qed.

Lemma runs_gets {A} (phi : A -> Prop) (f : Vault -> A) :
  (forall st, J st -> phi (f st)) -> runs J phi (gets f).
Proof. intros H st HJ. exists st, (f st). auto. Qed.

Lemma runs_bind {A B} (psi : A -> Prop) (phi : B -> Prop) (m : M A) (k : A -> M B) :
  runs J psi m -> (forall a, psi a -> runs J phi (k a)) -> runs J phi (bind m k).
Proof.
  intros Hm Hk st HJ. destruct (Hm st HJ) as (st1 & a & E & HJ1 & Ha).
  destruct (Hk a Ha st1 HJ1) as (st2 & b & E2 & HJ2 & Hb).
  exists st2, b. split; [|auto]. unfold bind. now rewrite E.
Qed.

Lemma runs_weaken {A} (psi phi : A -> Prop) (m : M A) :
  (forall a, psi a -> phi a) -> runs J psi m -> runs J phi m.
Proof.
  intros Hw Hm st HJ. destruct (Hm st HJ) as (st1 & a & E & HJ1 & Ha). eauto 6.
Qed.

(** A read that cannot fail. *)
Lemma runs_pure {A} (phi : A -> Prop) (m : M A) :
  (forall st, J st -> exists a, m st = (st, Ok a) /\ phi a) -> runs J phi m.
Proof. intros H st HJ. destruct (H st HJ) as (a & E & Ha). eauto 6. Qed.

Lemma runs_for_each_quiet {A B} (body : A -> M (option B)) (xs : list A) :
  (forall x, runs J (fun _ => True) (body x)) -> runs J (fun _ => True) (for_each body xs).
Proof.
  intros Hb. induction xs as [|x xs IH]; simpl.
  - now apply runs_ret.
  - eapply runs_bind; [apply Hb|]. intros r _.
    eapply runs_bind; [apply IH|]. intros rs _. now apply runs_ret.
Qed.

End RunRules.

Lemma log_try_total {A} (f : option Commit -> A) (h : Error -> M A) p st :
  (forall e, exists a, h e st = (st, Ok a)) ->
  exists a, try_catch (c <- Git.log_1 p ;; ret (f c)) h st = (st, Ok a).
Proof.
  intros Hh. unfold try_catch, bind, Git.log_1, Git.with_repo.
  destruct (git st) as [r|]; [|apply Hh].
  destruct (commits r); [apply Hh|]. simpl. eauto.
Qed.

Lemma try_catch_unit_total (m : M unit) st :
  exists st', try_catch m (fun _ => ret tt) st = (st', Ok tt).
Proof. unfold try_catch, ret. destruct (m st) as [st1 [[]|e]]; eauto. Qed.

Lemma uuid_fresh_same st st' :
  files (db st') = files (db st) -> uuid_seed st' = uuid_seed st -> uuid_fresh st -> uuid_fresh st'.
Proof. unfold uuid_fresh. intros -> ->. auto. Qed.

Lemma listing_identity_step st0 st st' :
  listing st0 st -> identity_step st st' -> uuid_fresh st' -> listing st0 st'.
Proof.
  intros [_ Hw] (_ & _ & _ & Hw') Hf. split; [assumption|].
  intros p Hp. now rewrite Hw', Hw.
Qed.

Lemma listing_repo_step st0 st st' : listing st0 st -> repo_step st st' -> listing st0 st'.
Proof.
  intros [Hf Hw] (Hd & Hs & Hwt). split.
  - apply (uuid_fresh_same st st'); [now rewrite Hd | assumption | assumption].
  - intros p Hp. now rewrite Hwt, Hw.
Qed.

Lemma ensureFileId_runs st0 p h c : runs (listing st0) (fun _ => True) (ensureFileId p h c).
Proof.
  intros st HJ. pose proof HJ as [Hf Hw]. unfold ensureFileId, bind, gets. simpl.
  destruct (getFileByPath p st) as [r|] eqn:Ep.
  - destruct (updateFileRecord_run (file_id r) (mkFileUpdates None (Some h) (Some c)) st)
      as (st1 & E1 & Hfs & Hseed & Hstep).
    destruct (truthy h || negb (is_null c)).
    + rewrite E1. simpl. exists st1, (file_id r). split; [reflexivity|]. split; [|trivial].
      eapply listing_identity_step; eauto.
      intros r' Hin. rewrite Hfs in Hin. apply in_map_iff in Hin as (r0 & <- & Hin0).
      rewrite Hseed. destruct (has_id (file_id r) r0); simpl; now apply Hf.
    + simpl. exists st, (file_id r). auto.
  - unfold createFileRecord, generateFileId, uuidv4, now, gets, bind, insert_file. simpl.
    assert (existsb (fun r => N.eqb (file_id r) (uuid_seed st)) (files (db st)) = false) as Ex.
    { destruct (existsb _ _) eqn:Ex; [|reflexivity].
      apply existsb_exists in Ex as (r & Hin & Hb). apply N.eqb_eq in Hb.
      specialize (Hf r Hin). lia. }
    rewrite Ex. unfold updateGitManifest, write_file, modify, ret. simpl.
    eexists _, _. split; [reflexivity|]. split; [|trivial]. split.
    + intros r Hin. simpl in *. apply in_app_or in Hin as [Hin|[<-|[]]].
      * specialize (Hf r Hin). lia.
      * simpl. lia.
    + intros q Hq. simpl. rewrite tree_lookup_insert_ne by assumption. now apply Hw.
Qed.

Lemma manifest_row_runs st0 h p :
  p <> manifest_path ->
  runs (listing st0)
       (fun r => match r with
                 | Some row => fr_path row = p /\ tree_mem p (worktree st0) = true
                 | None => tree_mem p (worktree st0) = false
                 end)
       (manifest_row h p).
Proof.
  intros Hp st HJ. pose proof HJ as [Hf Hw]. unfold manifest_row.
  unfold bind at 1, existsSync, gets. simpl.
  assert (tree_mem p (worktree st) = tree_mem p (worktree st0)) as Hmem.
  { unfold tree_mem. now rewrite Hw. }
  rewrite Hmem. destruct (tree_mem p (worktree st0)) eqn:Em; simpl.
  2:{ exists st, None. auto. }
  unfold bind at 1, readFileSync, gets. simpl.
  destruct (log_try_total (option_map commit_time) (fun _ => t <- now ;; ret (Some t)) p st)
    as (u & Eu); [intros e; eexists; reflexivity|].
  unfold bind at 1. rewrite Eu.
  destruct (log_try_total (option_map commit_hash) (fun _ => ret h) p st)
    as (c & Ec); [intros e; eexists; reflexivity|].
  unfold bind at 1. rewrite Ec.
  destruct (ensureFileId_runs st0 p (Some (computeHash
                (match tree_lookup p (worktree st) with Some b => b | None => "" end))) c st HJ)
    as (st1 & fid & E1 & HJ1 & _).
  unfold bind. rewrite E1. unfold ret. eexists _, _. split; [reflexivity|]. simpl. auto.
Qed.

Lemma manifest_rows_run st0 h (xs : list path) :
  (forall x, In x xs -> x <> manifest_path) ->
  runs (listing st0)
       (fun rows => map fr_path rows = filter (fun p => tree_mem p (worktree st0)) xs)
       (for_each (manifest_row h) xs).
Proof.
  induction xs as [|x xs IH]; intros Hxs; simpl.
  - now apply runs_ret.
  - eapply runs_bind; [apply manifest_row_runs; apply Hxs; now left|]. intros r Hr.
    eapply runs_bind; [apply IH; intros y Hy; apply Hxs; now right|]. intros rs Hrs.
    apply runs_ret. destruct r as [row|].
    + destruct Hr as [Hpath ->]. simpl. now rewrite Hpath, Hrs.
    + now rewrite Hr.
Qed.

Lemma repo_git_add p st st' o : Git.add p st = (st', o) -> repo_step st st'.
Proof.
  unfold Git.add, Git.with_repo.
  destruct (git st) as [r|]; [|intros [= <- _]; repeat split].
  destruct (tree_lookup p (worktree st)); [intros [= <- _]; repeat split|].
  destruct (tree_mem p (index r)); intros [= <- _]; repeat split.
Qed.

Lemma repo_git_commit msg st st' o : Git.commit msg st = (st', o) -> repo_step st st'.
Proof.
  unfold Git.commit, Git.with_repo.
  destruct (git st) as [r|]; [|intros [= <- _]; repeat split].
  destruct (tree_eqb (index r) (Git.head_tree r)); intros [= <- _]; repeat split.
Qed.

Lemma repo_step_trans a b c : repo_step a b -> repo_step b c -> repo_step a c.
Proof. unfold repo_step. intros (? & ? & ?) (? & ? & ?). repeat split; congruence. Qed.

Lemma bootstrap_runs st0 : runs (listing st0) (fun _ => True) bootstrapVaultMetadata.
Proof.
  unfold bootstrapVaultMetadata.
  eapply runs_bind with (psi := fun _ => True).
  { apply runs_pure. intros st _. unfold try_catch, bind, Git.ls_files, Git.with_repo.
    destruct (git st); simpl; eexists; (split; [reflexivity | trivial]). }
  intros tracked _.
  eapply runs_bind with (psi := fun _ => True).
  { apply runs_for_each_quiet. intros x.
    eapply runs_bind with (psi := fun _ => True); [now apply runs_gets|]. intros present _.
    destruct (negb present); [now apply runs_ret|].
    eapply runs_bind with (psi := fun _ => True); [now apply runs_gets|]. intros content _.
    eapply runs_bind with (psi := fun _ => True).
    { apply runs_pure. intros st _.
      destruct (log_try_total (option_map commit_hash) (fun _ => ret None) x st) as (c & Ec);
        [intros e; eexists; reflexivity|]. exists c. split; [exact Ec | trivial]. }
    intros c _.
    eapply runs_bind; [apply ensureFileId_runs|]. intros fid _. now apply runs_ret. }
  intros _ _.
  eapply runs_bind with (psi := fun _ => True).
  { intros st HJ. unfold updateGitManifest, write_file, modify. eexists _, tt.
    split; [reflexivity|]. split; [|trivial]. destruct HJ as [Hf Hw]. split.
    - exact Hf.
    - intros q Hq. simpl. rewrite tree_lookup_insert_ne by assumption. now apply Hw. }
  intros _ _ st HJ.
  destruct (try_catch_unit_total
              (Git.add manifest_path ;;; Git.commit "Initialize Scion metadata") st) as (st1 & E).
  exists st1, tt. split; [assumption|]. split; [|trivial].
  eapply listing_repo_step; [exact HJ|].
  revert E. unfold try_catch, bind.
  destruct (Git.add manifest_path st) as [sa [[]|e]] eqn:Ea.
  - destruct (Git.commit "Initialize Scion metadata" sa) as [sb [[]|e]] eqn:Eb;
      intros [= <-]; eapply repo_step_trans; eauto using repo_git_add, repo_git_commit.
  - intros [= <-]. eauto using repo_git_add.
Qed.

Lemma initVaultGit_initialised st r :
  validateVaultName (vault_name st) = true -> git st = Some r ->
  initVaultGit st = (st, Ok tt).
Proof.
  intros Hv Hg. unfold initVaultGit, bind, gets. simpl. rewrite Hv. simpl. now rewrite Hg.
Qed.

Lemma user_path_not_manifest p : user_path p = true -> p <> manifest_path.
Proof.
  intros H ->. unfold user_path in H. vm_compute in H. discriminate.
Qed.

(** The manifest of an initialised vault lists the tracked user files that
    are on disk, and nothing else. *)
Lemma getManifest_runs st r c0 older :
  validateVaultName (vault_name st) = true ->
  git st = Some r -> commits r = c0 :: older ->
  uuid_fresh st ->
  exists st' rows,
    getManifest st = (st', Ok rows) /\ map fr_path rows = tracked_on_disk st /\ uuid_fresh st'.
Proof.
  intros Hv Hg Hc Hf. unfold getManifest.
  rewrite (bind_ok _ _ _ _ _ (initVaultGit_initialised _ _ Hv Hg)).
  rewrite (bind_ok _ _ _ _ _ (getHeadCommit_eq st)).
  unfold head_of, history. rewrite Hg, Hc.
  assert (try_catch (out <- Git.ls_files ;; ret (Some (filter user_path out))) (fun _ => ret None) st
          = (st, Ok (Some (filter user_path (tree_paths (index r)))))) as El.
  { unfold try_catch, bind, Git.ls_files, Git.with_repo. now rewrite Hg. }
  rewrite (bind_ok _ _ _ _ _ El).
  unfold bind at 1, gets at 1. simpl.
  assert (listing st st) as HJ by (split; [assumption | auto]).
  assert (exists sb, (if Nat.ltb 0 (length (filter user_path (tree_paths (index r))))
                         && negb (isVaultBootstrapped st)
                      then bootstrapVaultMetadata else ret tt) st = (sb, Ok tt) /\ listing st sb)
    as (sb & Eb & HJb).
  { destruct (_ && _).
    - destruct (bootstrap_runs st st HJ) as (sb & [] & E & HJb & _). eauto.
    - exists st. auto. }
  rewrite (bind_ok _ _ _ _ _ Eb).
  destruct (manifest_rows_run st (Some (commit_hash c0)) (filter user_path (tree_paths (index r))))
    with (st := sb) as (st' & rows & E & [Hf' _] & Hrows); [|assumption|].
  { intros x Hx. apply filter_In in Hx as [_ Hx]. now apply user_path_not_manifest. }
  exists st', rows. split; [assumption|]. split; [|assumption].
  unfold tracked_on_disk. now rewrite Hg.
Qed.


(* ================================================================= *)
(** ** Changes since a commit *)

Lemma find_commit_head r c0 older :
  commits r = c0 :: older -> Git.find_commit (commit_hash c0) r = Some c0.
Proof. intros H. unfold Git.find_commit. rewrite H. simpl. now rewrite N.eqb_refl. Qed.



(* ================================================================= *)
(** ** Merges that conflict *)

Lemma identity_updateFileRecord id u : preserves identity_frame (updateFileRecord id u).
Proof.
  intros st st' o E. destruct (updateFileRecord_run id u st) as (st1 & E1 & _ & _ & H).
  rewrite E1 in E. now injection E as <- _.
Qed.

Lemma identity_updateGitManifest : preserves identity_frame updateGitManifest.
Proof.
  intros st st' o. unfold updateGitManifest, write_file, modify. intros [= <- _].
  repeat split. simpl. intros p Hp. now apply tree_lookup_insert_ne.
Qed.

Lemma identity_insert_file row : preserves identity_frame (insert_file row).
Proof.
  intros st st' o. unfold insert_file.
  destruct (existsb _ _); intros [= <- _]; repeat split.
Qed.

Lemma identity_uuidv4 : preserves identity_frame uuidv4.
Proof. intros st st' o. unfold uuidv4. intros [= <- _]. repeat split. Qed.

#[local] Hint Resolve identity_updateFileRecord identity_updateGitManifest identity_insert_file
  identity_uuidv4 : pres.

Lemma identity_ensureFileId p h c : preserves identity_frame (ensureFileId p h c).
Proof. unfold ensureFileId, createFileRecord, generateFileId. pres. Qed.

#[local] Hint Resolve identity_ensureFileId : pres.

Lemma identity_getFileRecord p : preserves identity_frame (getFileRecord p).
Proof. unfold getFileRecord. pres. Qed.

(** Creating or refreshing an identity record: it returns, and the
    repository is as before. *)
Lemma ensureFileId_total p h c st :
  uuid_fresh st ->
  exists st' fid,
    ensureFileId p h c st = (st', Ok fid) /\ identity_step st st' /\ uuid_fresh st'.
Proof.
  intros Hf.
  destruct (ensureFileId_runs st p h c st) as (st' & fid & E & [Hf' _] & _).
  { split; [assumption | auto]. }
  exists st', fid. split; [assumption|]. split; [|assumption].
  eapply identity_ensureFileId; eauto.
Qed.

Lemma mergeFile_conflicts b l r m st :
  git_merge_file b l r = MergeConflicts m ->
  mergeFile b l r st =
  (set_worktree (tree_remove_prefix ".tmp-merge/" (worktree st)) st, Ok (mkMergeResult m true)).
Proof. intros H. unfold mergeFile, bind, modify. simpl. now rewrite H. Qed.

Lemma answer_merge_conflict p h m st :
  uuid_fresh st ->
  exists st' fid,
    answer_merge p h (mkMergeResult m true) st =
    (st', Ok (send_ok (mkSyncResponse true h (computeHash m) fid true true (Some m))))
    /\ git st' = git st.
Proof.
  intros Hf. unfold answer_merge. simpl.
  destruct (ensureFileId_total p (Some (computeHash m)) h st Hf) as (st' & fid & E & Hs & _).
  exists st', fid. rewrite (bind_ok _ _ _ _ _ E). split; [reflexivity | apply Hs].
Qed.

Lemma fast_forward_eq (base : option commit_id) st :
  match base, head_of st with
  | Some b, Some h => N.eqb b h
  | _, _ => false
  end = fast_forward base st.
Proof. reflexivity. Qed.

Lemma post_sync_conflict body content server r m st :
  validateVaultName (vault_name st) = true ->
  git st = Some r ->
  uuid_fresh st ->
  sb_content body = Some content ->
  sb_path body <> "" ->
  tree_lookup (sb_path body) (worktree st) = Some server ->
  fast_forward (sb_base_commit body) st = false ->
  (sb_base_commit body = None -> computeHash content <> computeHash server) ->
  git_merge_file (sync_merge_base (sb_path body) (sb_base_commit body) server st) content server
    = MergeConflicts m ->
  exists st' fid,
    post_sync body st =
    (st', Ok (send_ok (mkSyncResponse true (head_of st) (computeHash m) fid true true (Some m))))
    /\ git st' = git st.
Proof.
  intros Hv Hg Hf Hc Hp Hs Hff Hne Hm.
  unfold post_sync, with_valid_vault, fastify.
  assert (forall q, uuid_fresh (set_worktree q st)) as Hf' by (intros q; exact Hf).
  match goal with
  | |- exists st' fid, try_catch ?body ?h st = _ /\ _ =>
      assert (exists st' fid,
                 body st = (st', Ok (send_ok (mkSyncResponse true (head_of st) (computeHash m) fid
                                                 true true (Some m))))
                 /\ git st' = git st) as (st' & fid & E & Hgit)
  end.
  2:{ exists st', fid. split; [now apply try_catch_ok | assumption]. }
  unfold bind at 1, gets at 1. simpl. rewrite Hv. simpl. rewrite Hc.
  destruct (String.eqb_spec (sb_path body) ""); [contradiction|].
  rewrite (bind_ok _ _ _ _ _ (initVaultGit_initialised _ _ Hv Hg)).
  rewrite (bind_ok _ _ _ _ _ (getHeadCommit_eq st)).
  unfold bind at 1, getCurrentFile, gets at 1. simpl. rewrite Hs.
  rewrite fast_forward_eq, Hff.
  unfold sync_merge_base in Hm.
  destruct (sb_base_commit body) as [b|].
  - rewrite (bind_ok _ _ _ _ _ (getFileAtCommit_eq _ _ st)).
    destruct (file_at (sb_path body) b st) as [base|];
      rewrite (bind_ok _ _ _ _ _ (mergeFile_conflicts _ _ _ _ _ Hm));
      destruct (answer_merge_conflict (sb_path body) (head_of st) m
                  (set_worktree (tree_remove_prefix ".tmp-merge/" (worktree st)) st) (Hf' _))
        as (st' & fid & E & Hgit); eauto.
  - destruct (String.eqb_spec (computeHash content) (computeHash server)) as [He|_].
    { now elim (Hne eq_refl). }
    rewrite (bind_ok _ _ _ _ _ (mergeFile_conflicts _ _ _ _ _ Hm)).
    destruct (answer_merge_conflict (sb_path body) (head_of st) m
                (set_worktree (tree_remove_prefix ".tmp-merge/" (worktree st)) st) (Hf' _))
      as (st' & fid & E & Hgit); eauto.
Qed.

Lemma no_content_false c b : c = Some b -> b <> "" -> no_content c = false.
Proof. intros -> H. simpl. now apply String.eqb_neq. Qed.

Lemma processModify_conflict op i id md content server m st :
  uuid_fresh st ->
  op_content op = Some content ->
  content <> "" ->
  op_file_id op = Some id ->
  getFileById id st = Some md ->
  deleted_at md = None ->
  tree_lookup (current_path md) (worktree st) = Some server ->
  fast_forward (op_base_commit op) st = false ->
  computeHash content <> computeHash server ->
  git_merge_file (modify_merge_base (current_path md) (op_base_commit op) server st) content server
    = MergeConflicts m ->
  exists st' fid,
    processModify op i st =
    (st', Ok (op_done i (Some fid) (head_of st) (Some (computeHash m)) true true (Some m)))
    /\ git st' = git st.
Proof.
  intros Hf Hc Hne Hid Hmd Hd Hs Hff Hh Hm.
  assert (forall q, uuid_fresh (set_worktree q st)) as Hf' by (intros q; exact Hf).
  unfold processModify. rewrite (no_content_false _ _ Hc Hne), Hid.
  unfold bind at 1, gets at 1. simpl. rewrite Hmd, Hd. simpl.
  rewrite (bind_ok _ _ _ _ _ (getHeadCommit_eq st)).
  unfold bind at 1, getCurrentFile, gets at 1. simpl. rewrite Hs, Hc. simpl.
  rewrite fast_forward_eq, Hff.
  destruct (String.eqb_spec (computeHash content) (computeHash server)) as [He|_];
    [contradiction|].
  assert ((match op_base_commit op with
           | Some b => atBase <- getFileAtCommit (current_path md) b ;;
                       ret (match atBase with Some c => c | None => server end)
           | None => ret server
           end) st = (st, Ok (modify_merge_base (current_path md) (op_base_commit op) server st)))
    as Eb.
  { unfold modify_merge_base. destruct (op_base_commit op) as [b|]; [|reflexivity].
    now rewrite (bind_ok _ _ _ _ _ (getFileAtCommit_eq _ _ st)). }
  rewrite (bind_ok _ _ _ _ _ Eb).
  rewrite (bind_ok _ _ _ _ _ (mergeFile_conflicts _ _ _ _ _ Hm)). simpl.
  destruct (ensureFileId_total (current_path md) (Some (computeHash m)) (head_of st)
              (set_worktree (tree_remove_prefix ".tmp-merge/" (worktree st)) st) (Hf' _))
    as (st' & fid & E & Hstep & _).
  exists st', fid. rewrite (bind_ok _ _ _ _ _ E). split; [reflexivity | apply Hstep].
Qed.



(* ================================================================= *)
(** ** Uploads of identical bytes *)

Lemma tree_eqb_intro (t1 t2 : tree) :
  (forall q, tree_lookup q t1 = tree_lookup q t2) -> tree_eqb t1 t2 = true.
Proof.
  intros H. unfold tree_eqb. apply forallb_forall. intros q _. apply opt_bytes_eqb_eq. apply H.
Qed.

Lemma getFileRecord_total p content st :
  uuid_fresh st ->
  tree_lookup p (worktree st) = Some content ->
  exists st' record,
    getFileRecord p st = (st', Ok (Some record)) /\ identity_step st st' /\ uuid_fresh st'.
Proof.
  intros Hf Hc. unfold getFileRecord.
  unfold bind at 1, existsSync, gets at 1, tree_mem. simpl. rewrite Hc. simpl.
  unfold bind at 1, readFileSync, gets at 1. simpl. rewrite Hc.
  destruct (log_try_total (option_map commit_hash) (fun _ => getHeadCommit) p st) as (c & Ec).
  { intros e. eexists. apply getHeadCommit_eq. }
  rewrite (bind_ok _ _ _ _ _ Ec).
  destruct (log_try_total (option_map commit_time) (fun _ => t <- now ;; ret (Some t)) p st)
    as (u & Eu); [intros e; eexists; reflexivity|].
  rewrite (bind_ok _ _ _ _ _ Eu).
  destruct (ensureFileId_total p (Some (computeHash content)) c st Hf) as (st' & fid & E & Hs & Hf').
  rewrite (bind_ok _ _ _ _ _ E). eexists _, _. split; [reflexivity|]. split; assumption.
Qed.

(** [commitFile] of the bytes HEAD already has for the path, with nothing
    staged: [git commit] has nothing to commit and HEAD stays. *)
Lemma commitFile_unchanged p content msg r st :
  validateVaultName (vault_name st) = true ->
  git st = Some r ->
  (forall q, tree_lookup q (index r) = tree_lookup q (Git.head_tree r)) ->
  tree_lookup p (Git.head_tree r) = Some content ->
  exists st',
    commitFile p content msg st = (st', Ok (head_of st)) /\
    history st' = history st /\ db st' = db st /\ uuid_seed st' = uuid_seed st.
Proof.
  intros Hv Hg Hclean Hp. unfold commitFile.
  rewrite (bind_ok _ _ _ _ _ (initVaultGit_initialised _ _ Hv Hg)).
  unfold bind at 1, write_file, modify at 1. simpl.
  set (s1 := set_worktree (tree_insert p content (worktree st)) st).
  set (r2 := mkRepo (tree_insert p content (index r)) (commits r) (amended r) (next_object r)).
  assert (Git.add p s1 = (set_git (Some r2) s1, Ok tt)) as Ea.
  { unfold Git.add, Git.with_repo. simpl. rewrite Hg. now rewrite tree_lookup_insert_eq. }
  rewrite (bind_ok _ _ _ _ _ Ea).
  assert (Git.commit msg (set_git (Some r2) s1) = (set_git (Some r2) s1, Throw GitNothingToCommit))
    as Ec.
  { unfold Git.commit, Git.with_repo. simpl.
    replace (tree_eqb (tree_insert p content (index r)) (Git.head_tree r2)) with true; [reflexivity|].
    symmetry. apply tree_eqb_intro. intros q. change (Git.head_tree r2) with (Git.head_tree r).
    destruct (string_eq_dec q p) as [->|Hq].
    - now rewrite tree_lookup_insert_eq.
    - rewrite tree_lookup_insert_ne by assumption. apply Hclean. }
  assert (try_catch (Git.commit msg ;;; ret None)
            (fun e => match e with
                      | GitNothingToCommit => h <- getHeadCommit ;; ret (Some h)
                      | _ => throw e
                      end) (set_git (Some r2) s1)
          = (set_git (Some r2) s1, Ok (Some (head_of st)))) as Et.
  { assert (head_of (set_git (Some r2) s1) = head_of st) as Hh
      by (unfold head_of, history; simpl; now rewrite Hg).
    unfold try_catch. rewrite (bind_throw _ _ _ _ _ Ec).
    rewrite (bind_ok _ _ _ _ _ (getHeadCommit_eq _)). unfold ret. now rewrite Hh. }
  rewrite (bind_ok _ _ _ _ _ Et).
  eexists. split; [reflexivity|]. repeat split. unfold history. simpl. now rewrite Hg.
Qed.

Lemma answer_merge_merged p h res st st' reply resp :
  answer_merge p h res st = (st', Ok reply) -> payload reply = Some resp -> sr_merged resp = true.
Proof.
  unfold answer_merge. destruct (hasConflicts res); intros E.
  - apply bind_inv in E as (s1 & fid & _ & E). injection E as _ <-. simpl. now intros [= <-].
  - apply bind_inv in E as (s1 & c & _ & E). apply bind_inv in E as (s2 & fid & _ & E).
    injection E as _ <-. simpl. now intros [= <-].
Qed.

Lemma fast_forward_head st h : head_of st = Some h -> fast_forward (Some h) st = true.
Proof. intros H. unfold fast_forward. rewrite H. apply N.eqb_refl. Qed.

(** The single-file sync of a file that is on the server, after the
    checks of the request. *)
Lemma post_sync_on_server_file (body : SyncBody) (content : bytes) (r : Repo) (st : Vault) :
  validateVaultName (vault_name st) = true ->
  git st = Some r ->
  sb_content body = Some content ->
  sb_path body <> "" ->
  tree_lookup (sb_path body) (worktree st) = Some content ->
  post_sync body st =
  try_catch
    (headCommit <- ret (head_of st) ;;
     if fast_forward (sb_base_commit body) st
     then
       commit <- commitFile (sb_path body) content ("Update " ++ sb_path body) ;;
       fileId <- ensureFileId (sb_path body) (Some (computeHash content)) commit ;;
       ret (send_ok (mkSyncResponse true commit (computeHash content) fileId false false None))
     else
       match sb_base_commit body with
       | None =>
           if String.eqb (computeHash content) (computeHash content)
           then
             record <- getFileRecord (sb_path body) ;;
             let commit := or_else (match record with Some r => fr_commit r | None => None end)
                                   headCommit in
             fileId <- ensureFileId (sb_path body) (Some (computeHash content)) commit ;;
             ret (send_ok (mkSyncResponse true commit (computeHash content) fileId
                             false false None))
           else
             result <- mergeFile content content content ;;
             answer_merge (sb_path body) headCommit result
       | Some base_commit =>
           baseContent <- getFileAtCommit (sb_path body) base_commit ;;
           match baseContent with
           | None =>
               result <- mergeFile "" content content ;;
               answer_merge (sb_path body) headCommit result
           | Some base =>
               result <- mergeFile base content content ;;
               answer_merge (sb_path body) headCommit result
           end
       end)
    (fun e => ret (send_error 500 (error_message e))) st.
Proof.
  intros Hv Hg Hc Hp Hs. unfold post_sync, with_valid_vault, fastify, try_catch.
  unfold bind at 1, gets at 1. simpl. rewrite Hv. simpl. rewrite Hc.
  destruct (String.eqb_spec (sb_path body) ""); [contradiction|].
  rewrite (bind_ok _ _ _ _ _ (initVaultGit_initialised _ _ Hv Hg)).
  rewrite (bind_ok _ _ _ _ _ (getHeadCommit_eq st)).
  unfold bind at 1, getCurrentFile, gets at 1. simpl. rewrite Hs.
  rewrite fast_forward_eq. reflexivity.
Qed.

(** With a base commit that is not the head, the identical upload is
    merged: every answer with a body says so. *)
Lemma post_sync_identical_other_base (body : SyncBody) (content : bytes) (r : Repo) (st : Vault) :
  validateVaultName (vault_name st) = true ->
  git st = Some r ->
  sb_content body = Some content ->
  sb_path body <> "" ->
  tree_lookup (sb_path body) (worktree st) = Some content ->
  sb_base_commit body <> None ->
  sb_base_commit body <> head_of st ->
  forall st' reply resp,
    post_sync body st = (st', Ok reply) -> payload reply = Some resp -> sr_merged resp = true.
Proof.
  intros Hv Hg Hc Hp Hs Hsome Hstale st' reply resp.
  rewrite (post_sync_on_server_file body content r st Hv Hg Hc Hp Hs).
  destruct (sb_base_commit body) as [b|] eqn:Hb; [|contradiction].
  assert (fast_forward (Some b) st = false) as Hff.
  { unfold fast_forward. destruct (head_of st) as [h|]; [|reflexivity].
    apply N.eqb_neq. congruence. }
  rewrite Hff. unfold try_catch, bind at 1, ret at 1.
  rewrite (bind_ok _ _ _ _ _ (getFileAtCommit_eq _ _ st)).
  assert (forall base,
             (let (s, o) := (result <- mergeFile base content content ;;
                             answer_merge (sb_path body) (head_of st) result) st in
              match o with
              | Ok a => (s, Ok a)
              | Throw e => ret (send_error 500 (error_message e)) s
              end) = (st', Ok reply) ->
             payload reply = Some resp -> sr_merged resp = true) as Hmerge.
  { intros base. unfold bind.
    destruct (mergeFile base content content st) as [s1 [res|e]].
    - destruct (answer_merge (sb_path body) (head_of st) res s1) as [s2 [a|e]] eqn:Ea.
      + intros [= <- <-]. eapply answer_merge_merged; eauto.
      + intros [= _ <-]. discriminate.
    - intros [= _ <-]. discriminate. }
  destruct (file_at (sb_path body) b st); apply Hmerge.
Qed.


(* ================================================================= *)
(** ** Atomic batches *)

Lemma initVaultGit_total st :
  validateVaultName (vault_name st) = true ->
  exists st0, initVaultGit st = (st0, Ok tt) /\ vault_name st0 = vault_name st.
Proof.
  intros Hv. unfold initVaultGit, bind at 1, gets at 1. simpl. rewrite Hv. simpl.
  unfold bind at 1, gets at 1. simpl.
  destruct (git st) as [r|] eqn:Hg; [exists st; auto|].
  unfold bind at 1, modify at 1. simpl.
  unfold bind at 1, write_file, modify at 1. simpl.
  unfold bind, Git.add, Git.commit, Git.with_repo, Git.put_repo, modify. simpl.
  rewrite tree_lookup_insert_eq. simpl.
  eexists. split; [reflexivity | reflexivity].
Qed.

Lemma yields_top {A} (m : M A) : yields (fun _ => True) (fun _ => True) m.
Proof. intros st st' o _ _. auto. Qed.

(** Every result carries the index it was asked for. *)
Ltac indexed :=
  repeat first
    [ apply yields_throw
    | apply yields_ret; reflexivity
    | eapply yields_bind; [ apply yields_top | intros ? _ ]
    | apply yields_try_catch; [| intro]
    | match goal with
      | |- yields _ _ (match ?x with _ => _ end) => destruct x
      end
    | progress cbv zeta ].

Lemma processOperation_index op i :
  yields (fun _ => True) (fun r => index_ r = i) (processOperation op i).
Proof.
  unfold processOperation.
  eapply yields_bind; [apply yields_top | intros _ _].
  apply yields_try_catch; [|intro; apply yields_ret; reflexivity].
  destruct (String.eqb (op_type op) "create"); [unfold processCreate; indexed|].
  destruct (String.eqb (op_type op) "modify"); [unfold processModify; indexed|].
  destruct (String.eqb (op_type op) "rename"); [unfold processRename; indexed|].
  destruct (String.eqb (op_type op) "delete"); [unfold processDelete; indexed|].
  apply yields_ret; reflexivity.
Qed.

Lemma batch_step_index op i st st' r : batch_step op i st = (st', Ok r) -> index_ r = i.
Proof.
  unfold batch_step. destruct (_ || _).
  - now intros [= _ <-].
  - intros E. destruct (processOperation_index op i st st' (Ok r) I E) as [_ H]. now apply H.
Qed.

Lemma processed_indexes i ops st rs st' :
  processed i ops st rs st' -> map index_ rs = seq i (length ops).
Proof.
  induction 1 as [|i op ops st st1 st2 r rs E _ IH]; simpl; [reflexivity|].
  now rewrite (batch_step_index _ _ _ _ _ E), IH.
Qed.

(** The loop of an atomic batch walks through the successful operations
    and returns at the first failure. *)
Lemma batch_loop_stops start op post st' r :
  success r = false ->
  forall pre i st rs sti acc,
    processed i pre st rs sti ->
    Forall (fun x => success x = true) rs ->
    batch_step op (i + length pre) sti = (st', Ok r) ->
    batch_loop true start i (pre ++ op :: post) acc st =
    (st', Ok (send_batch_failure (acc ++ rs ++ [r]) start
                (batch_failure_message (i + length pre) r))).
Proof.
  intros Hr pre. induction pre as [|op0 pre IH]; intros i st rs sti acc Hp Hall Hstep.
  - inversion Hp; subst. simpl in *. rewrite Nat.add_0_r in *.
    unfold batch_step in Hstep. destruct (_ || _).
    + injection Hstep as <- <-. reflexivity.
    + rewrite (bind_ok _ _ _ _ _ Hstep). rewrite Hr. reflexivity.
  - inversion Hp as [|? ? ? ? st1 ? r0 rs0 E0 Hp0]; subst.
    inversion Hall as [|? ? Hr0 Hall0]; subst. simpl.
    unfold batch_step in E0. destruct (_ || _).
    + injection E0 as _ <-. discriminate.
    + rewrite (bind_ok _ _ _ _ _ E0). rewrite Hr0. simpl.
      rewrite (IH (S i) st1 rs0 sti (acc ++ [r0])%list Hp0 Hall0).
      * rewrite <- app_assoc. simpl. now rewrite <- plus_n_Sm.
      * simpl in Hstep. now rewrite <- plus_n_Sm in Hstep.
Qed.

(** C2. In an atomic batch (the default), let operation [i] be the first
    to fail: the operations before it gave the results [rs], all
    successful, and operation [i] gave the failing result [r].  Then the
    handler stops there and answers with status 400, with exactly the
    results of the operations 0 to [i], each under its own index, and with
    the head commit recorded before the batch as head_commit, whatever
    the operations before [i] committed; the state is the one operation
    [i] left. *)
Theorem C2_atomic_batch_stops_at_the_first_failure :
  forall (pre : list SyncOperation) (op : SyncOperation) (post : list SyncOperation)
         (flag : option bool) (st st0 sti st' : Vault)
         (rs : list OperationResult) (r : OperationResult),
    validateVaultName (vault_name st) = true ->
    flag <> Some false ->
    initVaultGit st = (st0, Ok tt) ->
    processed 0 pre st0 rs sti ->
    Forall (fun x => success x = true) rs ->
    batch_step op (length pre) sti = (st', Ok r) ->
    success r = false ->
    post_sync_v2 (mkV2SyncBody (pre ++ op :: post) flag) st =
      (st', Ok (mkHttpReply 400
                  (Some (mkV2SyncResponse false (rs ++ [r]) (head_of st0)))
                  (Some (batch_failure_message (length pre) r))))
    /\ length (rs ++ [r]) = S (length pre)
    /\ map index_ (rs ++ [r]) = seq 0 (S (length pre)).
Proof.
  intros pre op post flag st st0 sti st' rs r Hv Hflag Hinit Hp Hall Hstep Hr.
  assert (match flag with Some b => b | None => true end = true) as Hatomic.
  { destruct flag as [[]|]; congruence. }
  assert (map index_ (rs ++ [r]) = seq 0 (S (length pre))) as Hidx.
  { rewrite map_app, (processed_indexes _ _ _ _ _ Hp), seq_S. cbn [map Nat.add].
    now rewrite (batch_step_index _ _ _ _ _ Hstep). }
  split; [|split; [|exact Hidx]].
  - unfold post_sync_v2, with_valid_vault, fastify. apply try_catch_ok.
    unfold bind at 1, gets at 1. rewrite Hv. cbn [negb operations atomic].
    destruct (pre ++ op :: post)%list eqn:Hops; [now destruct pre|]. rewrite <- Hops.
    rewrite (bind_ok _ _ _ _ _ Hinit).
    rewrite (bind_ok _ _ _ _ _ (getHeadCommit_eq st0)). rewrite Hatomic.
    now rewrite (batch_loop_stops (head_of st0) op post st' r Hr pre 0 st0 rs sti [] Hp Hall Hstep).
  - rewrite <- (length_map index_), Hidx. apply length_seq.
Qed.

(* ================================================================= *)
(** ** Rename *)

Lemma git_mv_history old new st st' o : Git.mv old new st = (st', o) -> history st' = history st.
Proof.
  unfold Git.mv, Git.with_repo, history.
  destruct (git st) as [r|] eqn:Hg; [|intros [= <- _]; now rewrite Hg].
  destruct (tree_lookup old (worktree st)); [|intros [= <- _]; now rewrite Hg].
  destruct (tree_lookup old (index r)); [|intros [= <- _]; now rewrite Hg].
  destruct (tree_mem new (worktree st)); intros [= <- _]; simpl; now rewrite ?Hg.
Qed.

Lemma git_add_history p st st' o : Git.add p st = (st', o) -> history st' = history st.
Proof.
  unfold Git.add, Git.with_repo, history.
  destruct (git st) as [r|] eqn:Hg; [|intros [= <- _]; now rewrite Hg].
  destruct (tree_lookup p (worktree st)); [intros [= <- _]; reflexivity|].
  destruct (tree_mem p (index r)); intros [= <- _]; simpl; now rewrite ?Hg.
Qed.

Lemma git_commit_ok msg st st' :
  Git.commit msg st = (st', Ok tt) ->
  exists r,
    git st = Some r /\
    st' = set_git (Some (mkRepo (index r)
                           (mkCommit (next_object r) (index r) msg (clock st) :: commits r)
                           (amended r) (next_object r + 1))) st.
Proof.
  unfold Git.commit, Git.with_repo.
  destruct (git st) as [r|]; [|discriminate].
  destruct (tree_eqb (index r) (Git.head_tree r)); [discriminate|].
  intros [= <-]. eauto.
Qed.

Lemma identity_recordPathChange id o n : preserves identity_frame (recordPathChange id o n).
Proof. unfold recordPathChange. pres_with ltac:(repeat split). Qed.

(** C8, on the code. A successful rename leaves one new commit on the
    chain, with the message of the rename and with the rewritten manifest
    in its tree: the manifest is amended into the rename commit.  The
    commit the operation returns is the one read before the amend, which
    the amend replaced: HEAD after the operation is the next commit object,
    not the one returned. *)
Theorem C8_rename_returns_the_commit_the_amend_replaced :
  forall (fileId : file_id_t) (oldPath newPath : path) (newContent : option bytes)
         (st st' : Vault) (res : RenameResult),
    renameFile fileId oldPath newPath newContent st = (st', Ok res) ->
    rn_success res = true ->
    exists st0 c n,
      initVaultGit st = (st0, Ok tt) /\
      history st' = c :: history st0 /\
      commit_message c = "Rename " ++ oldPath ++ " to " ++ newPath /\
      tree_lookup manifest_path (commit_tree c) <> None /\
      tree_lookup manifest_path (commit_tree c) = tree_lookup manifest_path (worktree st') /\
      rn_commit res = Some n /\
      head_of st' = Some (n + 1)%N /\
      head_of st' <> rn_commit res.
Proof.
  intros fileId oldPath newPath newContent st st' res E Hs. unfold renameFile in E.
  apply bind_inv in E as (st0 & [] & Einit & E). exists st0.
  apply bind_inv in E as (s0 & present & E0 & E). injection E0 as <- <-.
  destruct (negb (tree_mem oldPath (worktree st0))); [injection E as _ <-; discriminate|].
  apply bind_inv in E as (s0 & md & E0 & E). injection E0 as <- <-.
  destruct (getFileById fileId st0) as [md|]; [|injection E as _ <-; discriminate].
  destruct (negb (String.eqb (current_path md) oldPath)); [injection E as _ <-; discriminate|].
  unfold try_catch in E.
  match type of E with (let (_, _) := ?body st0 in _) = _ =>
    destruct (body st0) as [sx [res'|e]] eqn:B end.
  2:{ injection E as _ <-. discriminate. }
  injection E as <- <-.
  apply bind_inv in B as (s1 & [] & Emv & B).
  apply bind_inv in B as (s2 & [] & Ewrite & B).
  apply bind_inv in B as (s3 & [] & Ecommit & B).
  apply bind_inv in B as (s3' & commit & Ehead & B).
  rewrite getHeadCommit_eq in Ehead. injection Ehead as <- <-.
  apply bind_inv in B as (s4 & hash & Ehash & B).
  apply bind_inv in B as (s5 & [] & Erec & B).
  apply bind_inv in B as (s6 & changed & Eupd & B).
  apply bind_inv in B as (s7 & [] & Eman & B).
  apply bind_inv in B as (s8 & [] & Eamend & B).
  injection B as <- <-.
  (* the chain up to the rename commit *)
  assert (history s2 = history st0) as H2.
  { transitivity (history s1); [|eapply git_mv_history; eauto].
    destruct newContent as [c|]; [|now injection Ewrite as <-].
    apply bind_inv in Ewrite as (sw & [] & Ew & Ea). injection Ew as <-.
    now rewrite (git_add_history _ _ _ _ Ea). }
  apply git_commit_ok in Ecommit as (r2 & Hg2 & ->).
  set (msg := "Rename " ++ oldPath ++ " to " ++ newPath) in *.
  set (c3 := mkCommit (next_object r2) (index r2) msg (clock s2)) in *.
  set (r3 := mkRepo (index r2) (c3 :: commits r2) (amended r2) (next_object r2 + 1)) in *.
  assert (s4 = set_git (Some r3) s2) as ->.
  { destruct newContent; [now injection Ehash as <-|].
    apply bind_inv in Ehash as (sh & content & Eh & Eh'). injection Eh as <- _.
    now injection Eh' as <-. }
  (* the identity store moves, the repository does not *)
  pose proof (identity_recordPathChange _ _ _ _ _ _ Erec) as (G5 & _).
  pose proof (identity_updateFileRecord _ _ _ _ _ Eupd) as (G6 & _).
  assert (git s6 = Some r3) as Hg6 by (rewrite G6, G5; reflexivity).
  unfold updateGitManifest, write_file, modify in Eman. injection Eman as <-.
  (* the amend *)
  match type of Eamend with (let (_, _) := _ ?s in _) = _ => set (s7 := s) in * end.
  assert (exists json, tree_lookup manifest_path (worktree s7) = Some json) as (json & Hjson).
  { eexists. unfold s7. simpl. apply tree_lookup_insert_eq. }
  revert Eamend. unfold try_catch, bind, Git.add, Git.commit_amend, Git.with_repo, Git.put_repo, modify.
  replace (git s7) with (Some r3) by (unfold s7; simpl; now rewrite Hg6).
  rewrite Hjson. simpl. intros [= <-].
  exists (mkCommit (next_object r2 + 1)%N (tree_insert manifest_path json (index r2)) msg (clock s7)),
         (next_object r2).
  split; [assumption|]. unfold head_of, history. simpl.
  split; [f_equal; unfold history in H2; now rewrite Hg2 in H2|].
  split; [reflexivity|].
  rewrite tree_lookup_insert_eq.
  split; [discriminate|]. split; [symmetry; exact Hjson|].
  split; [reflexivity|]. split; [reflexivity|].
  intros [= H]. lia.
Qed.

(* ================================================================= *)
(** ** Vault names *)

Lemma substring_head_in (c : ascii) (rest s : string) :
  forall m k, substring m (S k) s = String c rest -> In c (list_ascii_of_string s).
Proof.
  induction s as [|a s IH]; intros m k H.
  - destruct m; discriminate.
  - destruct m as [|m]; simpl in H.
    + injection H as <- _. now left.
    + right. eapply IH; eauto.
Qed.

Lemma includes_head_in (c : ascii) (rest s : string) :
  includes (String c rest) s = true -> In c (list_ascii_of_string s).
Proof.
  unfold includes. destruct (String.index 0 (String c rest) s) as [m|] eqn:E; [|discriminate].
  intros _. apply String.index_correct1 in E. simpl String.length in E.
  eapply substring_head_in; eauto.
Qed.

Lemma length_list_ascii (s : string) : length (list_ascii_of_string s) = String.length s.
Proof. induction s; simpl; congruence. Qed.

(** X1. [validateVaultName] accepts exactly the names of 1 to 100
    characters taken from letters, digits, underscore, dash and space.  An
    accepted name therefore holds no dot, no slash and no backslash: the
    test for [..], [/] and [\] after the pattern never rejects anything. *)
Theorem X1_validateVaultName_accepts_the_pattern_and_no_separator :
  forall v : string,
    (validateVaultName v = true <->
     (1 <= String.length v <= 100 /\
      forall c, In c (list_ascii_of_string v) -> vault_name_char c = true))
    /\
    (validateVaultName v = true ->
     includes "." v = false /\ includes "/" v = false /\ includes backslash v = false).
Proof.
  intros v.
  assert (forall c, vault_name_char c = true ->
            c <> "."%char /\ c <> "/"%char /\ c <> ascii_of_nat 92) as Hclass.
  { intros c Hc. repeat split; intros ->; vm_compute in Hc; discriminate. }
  assert ((forall c, In c (list_ascii_of_string v) -> vault_name_char c = true) ->
          includes "." v = false /\ includes "/" v = false /\ includes backslash v = false
          /\ includes ".." v = false) as Hsep.
  { intros Hall.
    assert (forall c rest, (c = "."%char \/ c = "/"%char \/ c = ascii_of_nat 92) ->
                           includes (String c rest) v = false) as Hno.
    { intros c rest Hc. destruct (includes (String c rest) v) eqn:E; [|reflexivity].
      apply includes_head_in in E. apply Hall, Hclass in E. destruct E as (H1 & H2 & H3).
      destruct Hc as [ -> | [ -> | -> ] ]; contradiction. }
    repeat split; apply Hno; auto. }
  assert (validateVaultName v = true <->
          (1 <= String.length v <= 100 /\
           forall c, In c (list_ascii_of_string v) -> vault_name_char c = true)) as Hiff.
  { unfold validateVaultName. split.
    - destruct (String.eqb_spec v "") as [->|Hne]; [discriminate|]. simpl.
      destruct (Nat.ltb_spec 100 (String.length v)) as [|Hlen]; [discriminate|].
      destruct (forallb vault_name_char (list_ascii_of_string v)) eqn:Hall; [|discriminate].
      intros _. rewrite forallb_forall in Hall. split; [|exact Hall].
      split; [|exact Hlen]. destruct v; [contradiction | simpl; lia].
    - intros [[Hlo Hhi] Hall].
      destruct (String.eqb_spec v "") as [->|Hne]; [simpl in Hlo; lia|]. simpl.
      destruct (Nat.ltb_spec 100 (String.length v)) as [|_]; [lia|].
      replace (forallb vault_name_char (list_ascii_of_string v)) with true
        by (symmetry; now apply forallb_forall).
      destruct (Hsep Hall) as (_ & H2 & H3 & H4). simpl. now rewrite H4, H2, H3. }
  split; [exact Hiff|].
  intros H. apply Hiff in H as [_ Hall]. destruct (Hsep Hall) as (H1 & H2 & H3 & _). auto.
Qed.

(** X2. No request reaches a vault whose name [validateVaultName]
    refuses: every HTTP handler answers with status 400 and the error
    [Invalid vault name], a yjs update is reported as failed, and the
    state is the one before the request. *)
Theorem X2_requests_to_an_invalid_vault_name_change_nothing :
  forall (rq : Request) (st : Vault),
    validateVaultName (vault_name st) = false ->
    exists resp,
      handle rq st = (st, Ok resp) /\
      match resp with
      | YjsReply y => yjs_success y = false
      | _ => response_status resp = Some 400 /\ response_error resp = Some "Invalid vault name"
      end.
Proof.
  intros rq st Hv.
  destruct rq; unfold handle;
    unfold get_manifest, get_debug, get_status, get_file, post_sync, post_sync_v2, delete_file,
           post_detect_rename, post_rename, get_file_by_id, with_valid_vault, fastify;
    try (unfold bind at 1, try_catch, bind at 1, gets at 1; rewrite Hv; simpl;
         eexists; split; [reflexivity | split; reflexivity]).
  unfold handleYjsUpdate. destruct docText as [text|].
  - unfold bind at 1, try_catch, bind at 1, gets at 1.
    destruct (getFileById fileId st) as [fm|]; [|eexists; split; reflexivity].
    unfold commitFile, initVaultGit, bind at 1, bind at 1, bind at 1, gets at 1.
    rewrite Hv. simpl. eexists. split; reflexivity.
  - simpl. eexists. split; reflexivity.
Qed.

(* ================================================================= *)
(** ** The content store *)

Lemma initVaultGit_run st :
  validateVaultName (vault_name st) = true ->
  exists st0 r0,
    initVaultGit st = (st0, Ok tt) /\ git st0 = Some r0 /\
    vault_name st0 = vault_name st /\ db st0 = db st /\ uuid_seed st0 = uuid_seed st /\
    clock st0 = clock st /\
    (forall q, q <> ".gitignore" -> tree_lookup q (worktree st0) = tree_lookup q (worktree st)) /\
    (forall r, git st = Some r -> st0 = st) /\
    (git st = None ->
     worktree st0 = tree_insert ".gitignore" gitignore (worktree st) /\
     r0 = mkRepo [(".gitignore", gitignore)]
                 [mkCommit 0%N [(".gitignore", gitignore)] "Initialize vault" (clock st)] [] 1%N).
Proof.
  intros Hv. unfold initVaultGit, bind at 1, gets at 1. simpl. rewrite Hv. simpl.
  unfold bind at 1, gets at 1. simpl.
  destruct (git st) as [r|] eqn:Hg.
  - exists st, r. repeat split; auto; discriminate.
  - unfold bind at 1, modify at 1. simpl.
    unfold bind at 1, write_file, modify at 1. simpl.
    unfold bind, Git.add, Git.commit, Git.with_repo, Git.put_repo, modify. simpl.
    rewrite tree_lookup_insert_eq. simpl.
    eexists _, _. split; [reflexivity|]. simpl. split; [reflexivity|].
    repeat split; try discriminate.
    intros q Hq. now apply tree_lookup_insert_ne.
Qed.

(** X3. [initVaultGit] on a valid vault name always succeeds.  A vault
    that has a repository is left as it is; a new one gets the ignore file
    and a repository whose only commit, [Initialize vault], holds that
    file.  Calling it again changes nothing. *)
Theorem X3_initVaultGit_creates_the_repository_once :
  forall st : Vault,
    validateVaultName (vault_name st) = true ->
    exists st0,
      initVaultGit st = (st0, Ok tt) /\
      initVaultGit st0 = (st0, Ok tt) /\
      (git st <> None -> st0 = st) /\
      (git st = None ->
       exists c,
         history st0 = [c] /\ commit_message c = "Initialize vault" /\
         commit_tree c = [(".gitignore", gitignore)] /\
         tree_lookup ".gitignore" (worktree st0) = Some gitignore /\
         db st0 = db st).
Proof.
  intros st Hv.
  destruct (initVaultGit_run st Hv) as (st0 & r0 & E & Hg0 & Hn & Hdb & _ & _ & _ & Hsame & Hnew).
  exists st0. split; [exact E|]. split.
  - apply (initVaultGit_initialised st0 r0); [now rewrite Hn | exact Hg0].
  - split.
    + destruct (git st) as [r|] eqn:Hg; [intros _; now apply (Hsame r) | congruence].
    + intros Hg. destruct (Hnew Hg) as [Hw ->]. eexists. unfold history. rewrite Hg0. simpl.
      split; [reflexivity|]. split; [reflexivity|]. split; [reflexivity|].
      split; [rewrite Hw; apply tree_lookup_insert_eq | exact Hdb].
Qed.

Lemma tree_lookup_none_of_paths (q : path) (t : tree) :
  ~ In q (tree_paths t) -> tree_lookup q t = None.
Proof.
  induction t as [|[p b] t IH]; simpl; [reflexivity|]. intros H.
  destruct (String.eqb_spec q p) as [->|_]; [exfalso; apply H; now left|].
  apply IH. intros Hin. apply H. now right.
Qed.

Lemma tree_eqb_lookup (t1 t2 : tree) :
  tree_eqb t1 t2 = true -> forall q, tree_lookup q t1 = tree_lookup q t2.
Proof.
  unfold tree_eqb. rewrite forallb_forall. intros H q.
  destruct (in_dec string_eq_dec q (tree_paths t1 ++ tree_paths t2)%list) as [Hin|Hout].
  - now apply opt_bytes_eqb_eq, H.
  - rewrite !tree_lookup_none_of_paths; [reflexivity | |];
      intros Hin; apply Hout, in_or_app; auto.
Qed.

Lemma string_compare_refl (p : string) : String.compare p p = Eq.
Proof.
  pose proof (String.compare_antisym p p) as H. destruct (String.compare p p); [reflexivity | | ];
    discriminate H.
Qed.

Lemma tree_insert_idem (p : path) (b : bytes) (t : tree) :
  tree_insert p b (tree_insert p b t) = tree_insert p b t.
Proof.
  induction t as [|[q c] t IH]; simpl.
  - now rewrite string_compare_refl.
  - destruct (String.compare p q) eqn:E; simpl.
    + now rewrite string_compare_refl.
    + now rewrite string_compare_refl.
    + now rewrite E, IH.
Qed.

(** [commitFile] in a vault that has its repository: what is written and
    the two ways [git commit] ends. *)
Lemma commitFile_run p content msg r st :
  validateVaultName (vault_name st) = true ->
  git st = Some r ->
  exists st' r',
    commitFile p content msg st = (st', Ok (head_of st')) /\
    st' = set_git (Some r') (set_worktree (tree_insert p content (worktree st)) st) /\
    index r' = tree_insert p content (index r) /\
    amended r' = amended r /\
    ((commits r' = commits r /\ next_object r' = next_object r /\
      tree_eqb (tree_insert p content (index r)) (Git.head_tree r) = true)
     \/
     (commits r' = mkCommit (next_object r) (tree_insert p content (index r)) msg (clock st)
                     :: commits r /\
      next_object r' = (next_object r + 1)%N /\
      tree_eqb (tree_insert p content (index r)) (Git.head_tree r) = false)).
Proof.
  intros Hv Hg. unfold commitFile.
  rewrite (bind_ok _ _ _ _ _ (initVaultGit_initialised _ _ Hv Hg)).
  unfold bind at 1, write_file, modify at 1. simpl.
  set (s1 := set_worktree (tree_insert p content (worktree st)) st).
  set (r2 := mkRepo (tree_insert p content (index r)) (commits r) (amended r) (next_object r)).
  assert (Git.add p s1 = (set_git (Some r2) s1, Ok tt)) as Ea.
  { unfold Git.add, Git.with_repo. simpl. rewrite Hg. now rewrite tree_lookup_insert_eq. }
  rewrite (bind_ok _ _ _ _ _ Ea).
  destruct (tree_eqb (tree_insert p content (index r)) (Git.head_tree r)) eqn:Eq.
  - exists (set_git (Some r2) s1), r2. split.
    + unfold bind at 1, try_catch, bind at 1, Git.commit, Git.with_repo. simpl.
      change (Git.head_tree r2) with (Git.head_tree r). rewrite Eq.
      unfold throw. rewrite (bind_ok _ _ _ _ _ (getHeadCommit_eq _)). reflexivity.
    + split; [reflexivity|]. split; [reflexivity|]. split; [reflexivity|]. left. auto.
  - set (r3 := mkRepo (index r2)
                      (mkCommit (next_object r2) (index r2) msg (clock s1) :: commits r2)
                      (amended r2) (next_object r2 + 1)).
    exists (set_git (Some r3) s1), r3. split.
    + unfold bind at 1, try_catch, bind at 1, Git.commit, Git.with_repo. simpl.
      change (Git.head_tree r2) with (Git.head_tree r). rewrite Eq.
      unfold Git.put_repo, modify. simpl. unfold ret. simpl.
      now rewrite getHeadCommit_eq.
    + split; [reflexivity|]. split; [reflexivity|]. split; [reflexivity|]. right. auto.
Qed.

Lemma commitFile_after_init p content msg st st0 r0 :
  validateVaultName (vault_name st) = true ->
  initVaultGit st = (st0, Ok tt) -> git st0 = Some r0 -> vault_name st0 = vault_name st ->
  commitFile p content msg st = commitFile p content msg st0.
Proof.
  intros Hv E Hg0 Hn. unfold commitFile. rewrite (bind_ok _ _ _ _ _ E).
  assert (validateVaultName (vault_name st0) = true) as Hv0 by now rewrite Hn.
  now rewrite (bind_ok _ _ _ _ _ (initVaultGit_initialised st0 r0 Hv0 Hg0)).
Qed.

(** [commitFile] on a valid vault name: the bytes are on disk and at the
    commit it returns, the HEAD it leaves. *)
Lemma commitFile_stores (p : path) (content : bytes) (msg : string) (st : Vault) :
  validateVaultName (vault_name st) = true ->
  exists st' h,
    commitFile p content msg st = (st', Ok (Some h)) /\
    head_of st' = Some h /\
    tree_lookup p (worktree st') = Some content /\
    file_at p h st' = Some content /\
    db st' = db st /\
    (forall q, q <> p -> q <> ".gitignore" ->
               tree_lookup q (worktree st') = tree_lookup q (worktree st)) /\
    uuid_seed st' = uuid_seed st /\ vault_name st' = vault_name st /\ clock st' = clock st /\
    git st' <> None.
Proof.
  intros Hv.
  destruct (initVaultGit_run st Hv) as (st0 & r0 & E & Hg0 & Hn & Hdb & Hu & Hk & Hw & _ & _).
  rewrite (commitFile_after_init p content msg st st0 r0 Hv E Hg0 Hn).
  assert (validateVaultName (vault_name st0) = true) as Hv0 by now rewrite Hn.
  destruct (commitFile_run p content msg r0 st0 Hv0 Hg0) as (st' & r' & Ec & -> & Hi & Ha & Hc).
  assert (exists c0 older, commits r' = c0 :: older /\
                           tree_lookup p (commit_tree c0) = Some content) as (c0 & older & Hcs & Ht).
  { destruct Hc as [(Hcs & _ & Heq)|(Hcs & _)].
    - pose proof (tree_eqb_lookup _ _ Heq p) as Hl. rewrite tree_lookup_insert_eq in Hl.
      unfold Git.head_tree in Hl. rewrite Hcs. destruct (commits r0) as [|c0 older]; [discriminate|].
      eauto.
    - rewrite Hcs. eexists _, _. split; [reflexivity|]. simpl. apply tree_lookup_insert_eq. }
  assert (head_of (set_git (Some r') (set_worktree (tree_insert p content (worktree st0)) st0))
          = Some (commit_hash c0)) as Hh.
  { unfold head_of, history. simpl. now rewrite Hcs. }
  exists (set_git (Some r') (set_worktree (tree_insert p content (worktree st0)) st0)), (commit_hash c0).
  rewrite Hh in Ec. split; [exact Ec|]. split; [exact Hh|]. simpl.
  split; [apply tree_lookup_insert_eq|]. split.
  - unfold file_at. simpl. now rewrite (find_commit_head r' c0 older Hcs).
  - split; [exact Hdb|]. split.
    + intros q Hq Hq'. rewrite tree_lookup_insert_ne by assumption. now apply Hw.
    + repeat split; try assumption. discriminate.
Qed.




(* ================================================================= *)
(** ** Identifiers of paths *)

Lemma find_map_same {A} (pred : A -> bool) (f : A -> A) (l : list A) :
  (forall x, pred (f x) = pred x) -> find pred (map f l) = option_map f (find pred l).
Proof.
  intros H. induction l as [|x l IH]; simpl; [reflexivity|].
  rewrite H. destruct (pred x); [reflexivity | exact IH].
Qed.

Lemma find_app_none {A} (pred : A -> bool) (l : list A) (x : A) :
  find pred l = None -> pred x = true -> find pred (l ++ [x]) = Some x.
Proof.
  intros Hn Hx. induction l as [|y l IH]; simpl in *; [now rewrite Hx|].
  destruct (pred y); [discriminate | now apply IH].
Qed.

(** [ensureFileId] gets the identifier of the active row of the path, or
    creates the row. *)
Lemma ensureFileId_spec p h c st :
  uuid_fresh st ->
  exists st' row,
    ensureFileId p h c st = (st', Ok (file_id row)) /\
    getFileByPath p st' = Some row /\
    identity_step st st' /\ uuid_fresh st' /\
    path_history (db st') = path_history (db st) /\
    match getFileByPath p st with
    | Some r =>
        file_id row = file_id r /\ created_at row = created_at r /\
        length (files (db st')) = length (files (db st)) /\
        (truthy h || negb (is_null c) = true ->
         content_hash row = h /\ git_commit row = c /\ updated_at row = clock st) /\
        (truthy h || negb (is_null c) = false -> st' = st)
    | None =>
        files (db st') = (files (db st) ++ [row])%list /\
        row = mkFileMetadata (uuid_seed st) (vault_name st) p h c (clock st) (clock st) None
    end.
Proof.
  intros Hf. unfold ensureFileId, bind at 1, gets at 1.
  destruct (getFileByPath p st) as [r|] eqn:Ep.
  - destruct (updateFileRecord_run (file_id r) (mkFileUpdates None (Some h) (Some c)) st)
      as (st1 & E1 & Hfs & Hseed & Hstep).
    destruct (truthy h || negb (is_null c)) eqn:Hupd.
    + exists st1, (apply_updates (clock st) (mkFileUpdates None (Some h) (Some c)) r).
      unfold bind at 1, bind at 1. rewrite E1. split; [reflexivity|].
      assert (vault_name st1 = vault_name st) as Hn by apply Hstep.
      split.
      { unfold getFileByPath. rewrite Hfs, Hn.
        rewrite find_map_same.
        - unfold getFileByPath in Ep. rewrite Ep. simpl.
          now replace (has_id (file_id r) r) with true by (symmetry; now apply has_id_true).
        - intros x. destruct (has_id (file_id r) x); reflexivity. }
      split; [exact Hstep|]. split.
      { intros r' Hin. rewrite Hfs in Hin. apply in_map_iff in Hin as (r0 & <- & Hin0).
        rewrite Hseed. destruct (has_id (file_id r) r0); simpl; now apply Hf. }
      split.
      { revert E1. unfold updateFileRecord, now, gets, modify, bind, ret. simpl.
        rewrite andb_false_r. now intros [= <-]. }
      repeat split; try discriminate. rewrite Hfs. apply length_map.
    + exists st, r. split; [reflexivity|]. split; [exact Ep|].
      split; [apply identity_step_refl|]. split; [exact Hf|]. split; [reflexivity|].
      repeat split; discriminate.
  - unfold createFileRecord, generateFileId, uuidv4, now, gets, bind, insert_file. simpl.
    assert (existsb (fun r => N.eqb (file_id r) (uuid_seed st)) (files (db st)) = false) as Ex.
    { destruct (existsb _ _) eqn:Ex; [|reflexivity].
      apply existsb_exists in Ex as (r & Hin & Hb). apply N.eqb_eq in Hb.
      specialize (Hf r Hin). lia. }
    rewrite Ex. unfold updateGitManifest, write_file, modify, ret. simpl.
    eexists _, (mkFileMetadata (uuid_seed st) (vault_name st) p h c (clock st) (clock st) None).
    split; [reflexivity|]. split.
    { unfold getFileByPath. simpl. apply find_app_none; [exact Ep|].
      unfold active_in. simpl. now rewrite !String.eqb_refl. }
    split.
    { repeat split. simpl. intros q Hq. now apply tree_lookup_insert_ne. }
    split.
    { intros r Hin. simpl in *. apply in_app_or in Hin as [Hin|[<-|[]]].
      - specialize (Hf r Hin). lia.
      - simpl. lia. }
    split; [reflexivity|]. split; reflexivity.
Qed.

(** X7. [ensureFileId] is get-or-create.  With an active row at the path
    it returns that row's identifier and adds no row; without one it adds
    exactly one row, active at the path, under an identifier no row had.
    Asked again for the same path, with any hash and commit, it returns
    the same identifier and adds nothing. *)
Theorem X7_ensureFileId_is_get_or_create :
  forall (p : path) (h : option string) (c : option commit_id) (st : Vault),
    uuid_fresh st ->
    exists st1 id,
      ensureFileId p h c st = (st1, Ok id) /\
      (exists row, getFileByPath p st1 = Some row /\ file_id row = id) /\
      (forall r, getFileByPath p st = Some r ->
         id = file_id r /\ length (files (db st1)) = length (files (db st))) /\
      (getFileByPath p st = None ->
         length (files (db st1)) = S (length (files (db st))) /\
         forall r, In r (files (db st)) -> file_id r <> id) /\
      (forall h' c', exists st2,
         ensureFileId p h' c' st1 = (st2, Ok id) /\
         length (files (db st2)) = length (files (db st1))).
Proof.
  intros p h c st Hf.
  destruct (ensureFileId_spec p h c st Hf) as (st1 & row & E & Hp1 & _ & Hf1 & _ & Hcase).
  exists st1, (file_id row). split; [exact E|]. split; [eauto|]. split; [|split].
  - intros r Hr. rewrite Hr in Hcase. destruct Hcase as (Hid & _ & Hlen & _). auto.
  - intros Hn. rewrite Hn in Hcase. destruct Hcase as [Hfs ->]. split.
    + rewrite Hfs, length_app. simpl. lia.
    + intros r Hin. simpl. specialize (Hf r Hin). lia.
  - intros h' c'.
    destruct (ensureFileId_spec p h' c' st1 Hf1) as (st2 & row2 & E2 & _ & _ & _ & _ & Hcase2).
    rewrite Hp1 in Hcase2. destruct Hcase2 as (Hid & _ & Hlen & _).
    exists st2. rewrite <- Hid. auto.
Qed.

(* ================================================================= *)
(** ** The operations of the V2 protocol *)

Lemma manifest_path_user_file : user_path manifest_path = false.
Proof. reflexivity. Qed.

(** The step every write path of the engine ends with: the bytes are
    committed, then the row of the path is found or created, with the hash
    and the commit. *)
Lemma commit_then_identify {A} (K : file_id_t -> option commit_id -> A)
    (p : path) (content : bytes) (msg : string) (hash : option string) (st : Vault) :
  validateVaultName (vault_name st) = true ->
  uuid_fresh st ->
  p <> manifest_path ->
  exists st' fid h row,
    (commit <- commitFile p content msg ;;
     fileId <- ensureFileId p hash commit ;;
     ret (K fileId commit)) st = (st', Ok (K fid (Some h))) /\
    head_of st' = Some h /\
    tree_lookup p (worktree st') = Some content /\
    file_at p h st' = Some content /\
    getFileByPath p st' = Some row /\ file_id row = fid /\
    content_hash row = hash /\ git_commit row = Some h /\
    (forall r, getFileByPath p st = Some r -> fid = file_id r) /\
    uuid_fresh st' /\ vault_name st' = vault_name st.
Proof.
  intros Hv Hf Hp.
  destruct (commitFile_stores p content msg st Hv)
    as (s1 & h & Ec & Hh & Hdisk & Hat & Hdb & _ & Hseed & Hn & _ & _).
  assert (uuid_fresh s1) as Hf1 by (apply (uuid_fresh_same st s1); [now rewrite Hdb | assumption | assumption]).
  destruct (ensureFileId_spec p hash (Some h) s1 Hf1)
    as (st' & row & Ee & Hrow & Hstep & Hf' & _ & Hcase).
  exists st', (file_id row), h, row.
  rewrite (bind_ok _ _ _ _ _ Ec), (bind_ok _ _ _ _ _ Ee).
  destruct Hstep as (Hg & Hn' & _ & Hw).
  split; [reflexivity|].
  split; [unfold head_of, history in *; now rewrite Hg|].
  split; [rewrite Hw by assumption; exact Hdisk|].
  split; [unfold file_at in *; now rewrite Hg|].
  split; [exact Hrow|]. split; [reflexivity|].
  assert (getFileByPath p s1 = getFileByPath p st) as Hsame.
  { unfold getFileByPath. now rewrite Hdb, Hn. }
  rewrite Hsame in Hcase.
  split; [|split; [|split; [|split; [assumption | congruence]]]].
  - destruct (getFileByPath p st); [|now destruct Hcase as [_ ->]].
    destruct Hcase as (_ & _ & _ & Hu & _).
    assert (truthy hash || negb (is_null (Some h)) = true) as Ht by (simpl; apply orb_true_r).
    now destruct (Hu Ht) as (? & _).
  - destruct (getFileByPath p st); [|now destruct Hcase as [_ ->]].
    destruct Hcase as (_ & _ & _ & Hu & _).
    assert (truthy hash || negb (is_null (Some h)) = true) as Ht by (simpl; apply orb_true_r).
    now destruct (Hu Ht) as (_ & ? & _).
  - intros r Hr. rewrite Hr in Hcase. destruct Hcase as (H & _). exact H.
Qed.


Ltac modify_prelude Hc Hne Hid Hmd Hd :=
  unfold processModify; rewrite (no_content_false _ _ Hc Hne), Hid;
  unfold bind at 1, gets at 1; cbn beta iota; rewrite Hmd, Hd; cbn [is_null negb];
  rewrite (bind_ok _ _ _ _ _ (getHeadCommit_eq _));
  unfold bind at 1, getCurrentFile, gets at 1; rewrite Hc; cbn [decoded];
  rewrite fast_forward_eq.


Lemma deleteFile_present (p : path) (b : bytes) (st : Vault) :
  tree_lookup p (worktree st) = Some b ->
  exists st',
    deleteFile p st = (st', Ok true) /\
    worktree st' = tree_remove p (worktree st) /\
    db st' = db st /\ uuid_seed st' = uuid_seed st.
Proof.
  intros H. unfold deleteFile, bind at 1, existsSync, gets at 1.
  replace (tree_mem p (worktree st)) with true by (unfold tree_mem; now rewrite H).
  cbn [negb]. unfold bind at 1, modify at 1.
  set (s1 := set_worktree (tree_remove p (worktree st)) st).
  assert (forall s2 o, try_catch (Git.add p ;;; Git.commit ("Delete " ++ p)) (fun _ => ret tt) s1
                        = (s2, o) -> o = Ok tt /\ repo_step s1 s2) as Hrun.
  { intros s2 o. unfold try_catch, bind.
    destruct (Git.add p s1) as [sa [[]|ea]] eqn:Ea.
    - pose proof (repo_git_add _ _ _ _ Ea) as Ra.
      destruct (Git.commit ("Delete " ++ p) sa) as [sc [[]|ec]] eqn:Ec;
        pose proof (repo_git_commit _ _ _ _ Ec) as Rc; intros [= <- <-];
        (split; [reflexivity | eapply repo_step_trans; eauto]).
    - pose proof (repo_git_add _ _ _ _ Ea) as Ra. intros [= <- <-]. auto. }
  destruct (try_catch (Git.add p ;;; Git.commit ("Delete " ++ p)) (fun _ => ret tt) s1)
    as [s2 o] eqn:E.
  destruct (Hrun s2 o eq_refl) as [-> (Hdb & Hseed & Hw)].
  exists s2. rewrite (bind_ok _ _ _ _ _ E). split; [reflexivity|].
  split; [exact Hw|]. split; [exact Hdb | exact Hseed].
Qed.

(** X10. A Delete of a file_id that has a row, with the file on disk at
    the path of the row, succeeds: every row of that file_id has
    [deleted_at] set to the time of the call, so that no lookup by path
    returns it any more, the file is gone from disk, and the result names
    the HEAD left by the removal. *)
Theorem X10_processDelete_soft_deletes_the_row_and_removes_the_file :
  forall (op : SyncOperation) (i : nat) (id : file_id_t) (md : FileMetadata) (b : bytes)
         (st : Vault),
    op_file_id op = Some id ->
    getFileById id st = Some md ->
    tree_lookup (current_path md) (worktree st) = Some b ->
    exists st',
      processDelete op i st =
        (st', Ok (mkOperationResult i true (Some id) (head_of st') None None
                    (Some false) (Some false) None)) /\
      tree_lookup (current_path md) (worktree st') = None /\
      getFileById id st' = Some (mark_deleted (clock st) md) /\
      (forall r, In r (files (db st')) -> file_id r = id -> deleted_at r = Some (clock st)) /\
      (forall q r, getFileByPath q st' = Some r -> file_id r <> id).
Proof.
  intros op i id md b st Hid Hmd Hdisk.
  unfold processDelete. rewrite Hid. unfold bind at 1, gets at 1. rewrite Hmd.
  destruct (softDeleteFile_run id st) as (s1 & E1 & Hfs & _ & _ & Hstep).
  rewrite (bind_ok _ _ _ _ _ E1).
  assert (exists b1, tree_lookup (current_path md) (worktree s1) = Some b1) as (b1 & Hdisk1).
  { destruct Hstep as (_ & _ & _ & Hw).
    destruct (string_eq_dec (current_path md) manifest_path) as [Hm|Hm].
    - revert E1. unfold softDeleteFile, now, gets, modify, bind, ret. simpl.
      replace (existsb (has_id id) (files (db st))) with true.
      + unfold updateGitManifest, write_file, modify. simpl. intros [= <-]. simpl.
        rewrite Hm. eexists. apply tree_lookup_insert_eq.
      + symmetry. apply existsb_exists. exists md. apply getFileById_some in Hmd as [Hin Hi].
        split; [assumption | now apply has_id_true].
    - exists b. now rewrite Hw. }
  destruct (deleteFile_present _ _ s1 Hdisk1) as (s2 & E2 & Hw2 & Hdb2 & _).
  rewrite (bind_ok _ _ _ _ _ E2). cbn [negb].
  rewrite (bind_ok _ _ _ _ _ (getHeadCommit_eq s2)).
  exists s2. split; [reflexivity|].
  split; [rewrite Hw2; apply tree_lookup_remove_eq|].
  assert (files (db s2) =
          map (fun r => if has_id id r then mark_deleted (clock st) r else r) (files (db st)))
    as Hfs2 by (rewrite Hdb2; exact Hfs).
  assert (forall r, In r (files (db s2)) -> file_id r = id -> deleted_at r = Some (clock st))
    as Hall.
  { intros r Hin Hr. rewrite Hfs2 in Hin. apply in_map_iff in Hin as (r0 & <- & _).
    destruct (has_id id r0) eqn:Hb; [reflexivity|]. apply has_id_true in Hr. congruence. }
  split.
  - unfold getFileById. rewrite Hfs2, find_map_same.
    + unfold getFileById in Hmd. rewrite Hmd. simpl.
      apply getFileById_some in Hmd as [_ Hi].
      now replace (has_id id md) with true by (symmetry; now apply has_id_true).
    + intros x. destruct (has_id id x); reflexivity.
  - split; [exact Hall|]. intros q r Hq Hr.
    apply getFileByPath_active in Hq as (Hin & Hd & _). rewrite (Hall r Hin Hr) in Hd. discriminate.
Qed.

(* ================================================================= *)
(** ** Path history *)

Lemma insert_desc_in (e x : PathHistoryEntry) (l : list PathHistoryEntry) :
  In x (insert_desc e l) <-> x = e \/ In x l.
Proof.
  induction l as [|y l IH]; simpl.
  - intuition congruence.
  - destruct (Pos.ltb (changed_at e) (changed_at y)); simpl; rewrite ?IH; intuition congruence.
Qed.

Lemma getPathHistory_in (id : file_id_t) (st : Vault) (x : PathHistoryEntry) :
  In x (getPathHistory id st) <-> In x (path_history (db st)) /\ ph_file_id x = id.
Proof.
  unfold getPathHistory.
  assert (forall l, In x (fold_right insert_desc [] l) <-> In x l) as Hsort.
  { induction l as [|y l IH]; simpl; [tauto|]. rewrite insert_desc_in, IH. intuition congruence. }
  rewrite Hsort, filter_In. now rewrite N.eqb_eq.
Qed.

Lemma existsb_eqb_in (x : string) (l : list string) :
  existsb (String.eqb x) l = true <-> In x l.
Proof.
  rewrite existsb_exists. split.
  - intros (y & Hin & Hy). apply String.eqb_eq in Hy. now subst.
  - intros Hin. exists x. split; [assumption | apply String.eqb_refl].
Qed.

Lemma dedupe_in (x : string) (l : list string) :
  forall seen, In x (dedupe seen l) <-> In x l /\ ~ In x seen.
Proof.
  clear git_merge_file.
  induction l as [|y l IH]; intros seen; simpl; [tauto|].
  destruct (existsb (String.eqb y) seen) eqn:E.
  - apply existsb_eqb_in in E. rewrite IH. split.
    + intros [H1 H2]. auto.
    + intros [[->|H1] H2]; [contradiction | auto].
  - assert (~ In y seen) as Hy.
    { intros Hin. apply existsb_eqb_in in Hin. congruence. }
    simpl. rewrite IH. simpl. split.
    + intros [->|[H1 H2]]; [auto|]. split; [auto | intros H; apply H2; now right].
    + intros [[->|H1] H2]; [now left|].
      destruct (string_eq_dec y x) as [->|Hne]; [now left|].
      right. split; [assumption|]. intros [H|H]; [contradiction | contradiction].
Qed.

Lemma dedupe_nodup (l : list string) :
  forall seen, NoDup (dedupe seen l).
Proof.
  induction l as [|y l IH]; intros seen; simpl; [constructor|].
  destruct (existsb (String.eqb y) seen); [apply IH|].
  constructor; [|apply IH]. rewrite dedupe_in. intros [_ H]. apply H. now left.
Qed.

(** X11. [getAllPreviousPaths] lists each old path of the file once: a
    path is listed exactly when the table [path_history] has an entry of
    the file_id with that old path. *)
Theorem X11_getAllPreviousPaths_lists_each_old_path_once :
  forall (id : file_id_t) (st : Vault),
    NoDup (getAllPreviousPaths id st) /\
    forall p, In p (getAllPreviousPaths id st) <->
              exists e, In e (path_history (db st)) /\ ph_file_id e = id /\ old_path e = p.
Proof.
  clear git_merge_file.
  intros id st. unfold getAllPreviousPaths. split; [apply dedupe_nodup|].
  intros p. rewrite dedupe_in, in_map_iff. split.
  - intros [(e & He & Hin) _]. apply getPathHistory_in in Hin as [Hin Hid]. eauto.
  - intros (e & Hin & Hid & He). split; [|tauto]. exists e. split; [assumption|].
    apply getPathHistory_in. auto.
Qed.

Lemma previous_path_in (id : file_id_t) (p : path) (st : Vault) :
  (exists e, In e (path_history (db st)) /\ ph_file_id e = id /\ old_path e = p) ->
  In p (getAllPreviousPaths id st).
Proof.
  clear git_merge_file.
  intros (e & Hin & Hid & He). unfold getAllPreviousPaths.
  rewrite dedupe_in, in_map_iff. split; [|tauto]. exists e. split; [assumption|].
  apply getPathHistory_in. auto.
Qed.

(* ================================================================= *)
(** ** Renames, seen from the identity store *)

Lemma git_mv_ok old new st st' :
  Git.mv old new st = (st', Ok tt) ->
  exists r b staged,
    git st = Some r /\ tree_lookup old (worktree st) = Some b /\
    tree_lookup old (index r) = Some staged /\ tree_mem new (worktree st) = false /\
    worktree st' = tree_insert new b (tree_remove old (worktree st)) /\
    db st' = db st /\ uuid_seed st' = uuid_seed st.
Proof.
  unfold Git.mv, Git.with_repo.
  destruct (git st) as [r|] eqn:Hg; [|discriminate].
  destruct (tree_lookup old (worktree st)) as [b|] eqn:Hb; [|discriminate].
  destruct (tree_lookup old (index r)) as [staged|] eqn:Hs; [|discriminate].
  destruct (tree_mem new (worktree st)) eqn:Hn; [discriminate|].
  unfold bind, modify, Git.put_repo. simpl. intros [= <-]. exists r, b, staged.
  repeat split; auto.
Qed.

Lemma git_mv_refused old new st st' e : Git.mv old new st = (st', Throw e) -> st' = st.
Proof.
  unfold Git.mv, Git.with_repo.
  destruct (git st) as [r|]; [|now intros [= <- _]].
  destruct (tree_lookup old (worktree st)) as [b|]; [|now intros [= <- _]].
  destruct (tree_lookup old (index r)) as [staged|]; [|now intros [= <- _]].
  destruct (tree_mem new (worktree st)); [now intros [= <- _]|].
  unfold bind, modify, Git.put_repo. simpl. discriminate.
Qed.

Lemma repo_git_commit_amend st st' o : Git.commit_amend st = (st', o) -> repo_step st st'.
Proof.
  unfold Git.commit_amend, Git.with_repo.
  destruct (git st) as [r|]; [|intros [= <- _]; repeat split].
  destruct (commits r); intros [= <- _]; repeat split.
Qed.

Lemma repo_step_refl st : repo_step st st.
Proof. repeat split. Qed.


Lemma try_catch_unit_repo_step (m : M unit) st st' o :
  (forall s s' o', m s = (s', o') -> repo_step s s') ->
  try_catch m (fun _ => ret tt) st = (st', o) -> repo_step st st'.
Proof.
  intros Hm. unfold try_catch. destruct (m st) as [s1 [[]|e]] eqn:E; intros [= <- _]; eapply Hm; eauto.
Qed.

(** X13. After a successful rename (neither path being the recovery
    manifest) the file is at the new path only, with the new bytes when
    the rename carried some and else with the bytes it had; the row of the
    file_id is at the new path with the SHA-256 of those bytes and the
    commit the rename returned; the old path is in the path history of
    the file_id; and, for an active row, the rename detector resolves the
    old path to the new one by file_id. *)
Theorem X13_renameFile_moves_the_file_and_its_row :
  forall (id : file_id_t) (old new : path) (content : option bytes)
         (st st' : Vault) (res : RenameResult),
    renameFile id old new content st = (st', Ok res) ->
    rn_success res = true ->
    old <> manifest_path -> new <> manifest_path ->
    exists st0 b0 b md,
      initVaultGit st = (st0, Ok tt) /\
      old <> new /\
      tree_lookup old (worktree st0) = Some b0 /\
      tree_lookup old (worktree st') = None /\
      tree_lookup new (worktree st') = Some b /\
      b = match content with Some c => c | None => b0 end /\
      getFileById id st' = Some md /\
      file_id md = id /\ current_path md = new /\
      content_hash md = Some (computeHash b) /\ git_commit md = rn_commit res /\
      In old (getAllPreviousPaths id st') /\
      (deleted_at md = None ->
       forall h, detectRename old h (Some id) st' =
                 (st', Ok (mkDetectResult true (Some new) (Some id) (Some ByFileId)))).
Proof.
  intros id old new content st st' res E Hs Hold Hnew. unfold renameFile in E.
  apply bind_inv in E as (st0 & [] & Einit & E). exists st0.
  apply bind_inv in E as (s0 & present & E0 & E). injection E0 as <- <-.
  destruct (negb (tree_mem old (worktree st0))); [injection E as _ <-; discriminate|].
  apply bind_inv in E as (s0 & md & E0 & E). injection E0 as <- <-.
  destruct (getFileById id st0) as [md0|] eqn:Hmd0; [|injection E as _ <-; discriminate].
  destruct (negb (String.eqb (current_path md0) old)); [injection E as _ <-; discriminate|].
  unfold try_catch in E.
  match type of E with (let (_, _) := ?body st0 in _) = _ =>
    destruct (body st0) as [sx [res'|e]] eqn:B end.
  2:{ injection E as _ <-. discriminate. }
  injection E as <- <-.
  apply bind_inv in B as (s1 & [] & Emv & B).
  apply bind_inv in B as (s2 & [] & Ewrite & B).
  apply bind_inv in B as (s3 & [] & Ecommit & B).
  apply bind_inv in B as (s3' & commit & Ehead & B).
  rewrite getHeadCommit_eq in Ehead. injection Ehead as <- <-.
  apply bind_inv in B as (s4 & hash & Ehash & B).
  apply bind_inv in B as (s5 & [] & Erec & B).
  apply bind_inv in B as (s6 & changed & Eupd & B).
  apply bind_inv in B as (s7 & [] & Eman & B).
  apply bind_inv in B as (s8 & [] & Eamend & B).
  injection B as <- <-.
  (* the move *)
  apply git_mv_ok in Emv as (r & b0 & staged & Hg & Hb0 & _ & Hfree & Hw1 & Hdb1 & _).
  assert (old <> new) as Hne.
  { intros ->. unfold tree_mem in Hfree. now rewrite Hb0 in Hfree. }
  set (b := match content with Some c => c | None => b0 end).
  (* the files on disk before the identity store is written *)
  assert (worktree s2 = match content with
                        | Some c => tree_insert new c (worktree s1)
                        | None => worktree s1
                        end /\ db s2 = db s1) as (Hw2 & Hdb2).
  { destruct content as [c|]; [|now injection Ewrite as <-].
    apply bind_inv in Ewrite as (sw & [] & Ew & Ea). injection Ew as <-.
    destruct (repo_git_add _ _ _ _ Ea) as (Hd & _ & Hw). split; [exact Hw | exact Hd]. }
  assert (tree_lookup new (worktree s2) = Some b /\ tree_lookup old (worktree s2) = None)
    as (Hnew2 & Hold2).
  { rewrite Hw2, Hw1. unfold b. destruct content as [c|].
    - split; [apply tree_lookup_insert_eq|].
      rewrite !tree_lookup_insert_ne by assumption. apply tree_lookup_remove_eq.
    - split; [apply tree_lookup_insert_eq|].
      rewrite tree_lookup_insert_ne by assumption. apply tree_lookup_remove_eq. }
  destruct (repo_git_commit _ _ _ _ Ecommit) as (Hdb3 & _ & Hw3).
  assert (s4 = s3 /\ hash = computeHash b) as (-> & ->).
  { destruct content as [c|]; [now injection Ehash as <- <-|].
    apply bind_inv in Ehash as (sh & text & Eh & Eh'). injection Eh as <- <-.
    injection Eh' as <- <-. split; [reflexivity|]. now rewrite Hw3, Hnew2. }
  (* the identity store *)
  unfold recordPathChange, bind, now, gets, modify in Erec. injection Erec as <-.
  destruct (updateFileRecord_run id (mkFileUpdates (Some new) (Some (Some (computeHash b)))
                                       (Some (head_of s3))) 
              (set_db (mkDb (files (db s3))
                        (path_history (db s3) ++
                           [mkPathHistoryEntry (next_rowid (db s3)) id old new (clock s3)])
                        (next_rowid (db s3) + 1)) s3))
    as (s6' & Eupd' & Hfs6 & _ & Hstep6).
  rewrite Eupd' in Eupd. injection Eupd as -> _.
  assert (path_history (db s6) =
          (path_history (db s3) ++
             [mkPathHistoryEntry (next_rowid (db s3)) id old new (clock s3)])%list) as Hph6.
  { revert Eupd'. unfold updateFileRecord, now, gets, modify, bind, ret. simpl.
    destruct (existsb (has_id id) (files (db s3)) && true);
      unfold updateGitManifest, write_file, modify; simpl; now intros [= <-]. }
  unfold updateGitManifest, write_file, modify in Eman. injection Eman as <-.
  assert (repo_step
            (set_worktree (tree_insert manifest_path
               (writeJson (mkGitManifest 1 (vault_name s6)
                  (map (fun r => (file_id r, (current_path r, created_at r)))
                       (filter (active_in (vault_name s6)) (files (db s6))))
                  (clock s6))) (worktree s6)) s6) s8) as (Hdb8 & _ & Hw8).
  { eapply try_catch_unit_repo_step; [|exact Eamend].
    intros s s' o'. unfold bind. destruct (Git.add manifest_path s) as [sa [[]|ea]] eqn:Ea.
    - intros Ec. eapply repo_step_trans; [eapply repo_git_add; eauto | eapply repo_git_commit_amend; eauto].
    - intros [= <- _]. eapply repo_git_add; eauto. }
  simpl in Hdb8, Hw8.
  assert (forall q, q <> manifest_path ->
                    tree_lookup q (worktree s8) = tree_lookup q (worktree s2)) as Hdisk.
  { intros q Hq. rewrite Hw8, tree_lookup_insert_ne by assumption.
    destruct Hstep6 as (_ & _ & _ & Hw6). rewrite Hw6 by assumption. simpl. now rewrite Hw3. }
  assert (files (db s3) = files (db st0)) as Hfs3 by (rewrite Hdb3, Hdb2, Hdb1; reflexivity).
  set (u := mkFileUpdates (Some new) (Some (Some (computeHash b))) (Some (head_of s3))) in *.
  assert (getFileById id s8 = Some (apply_updates (clock s3) u md0)) as Hmd8.
  { unfold getFileById. rewrite Hdb8, Hfs6. simpl. rewrite find_map_same.
    - rewrite Hfs3. unfold getFileById in Hmd0. rewrite Hmd0. simpl.
      apply getFileById_some in Hmd0 as [_ Hi].
      now replace (has_id id md0) with true by (symmetry; now apply has_id_true).
    - intros x. destruct (has_id id x); reflexivity. }
  exists b0, b, (apply_updates (clock s3) u md0).
  split; [exact Einit|]. split; [exact Hne|]. split; [exact Hb0|].
  split; [rewrite Hdisk by assumption; exact Hold2|].
  split; [rewrite Hdisk by assumption; exact Hnew2|].
  split; [reflexivity|]. split; [exact Hmd8|].
  split; [simpl; now apply getFileById_some in Hmd0|].
  split; [reflexivity|]. split; [reflexivity|]. split; [reflexivity|].
  split.
  - apply previous_path_in.
    exists (mkPathHistoryEntry (next_rowid (db s3)) id old new (clock s3)).
    rewrite Hdb8. simpl. rewrite Hph6. split; [|split; reflexivity].
    apply in_or_app. right. now left.
  - intros Hd h. unfold detectRename, bind at 1, gets at 1. rewrite Hmd8.
    cbn [apply_updates current_path u_current_path u deleted_at] in *. rewrite Hd.
    destruct (String.eqb_spec new old) as [Heq|_]; [symmetry in Heq; contradiction|].
    cbn [negb andb is_null]. cbn [file_id apply_updates].
    now apply getFileById_some in Hmd0 as [_ ->].
Qed.

(* ================================================================= *)
(** ** What no request does

    A relation between states that every write of the engine respects is
    respected by every handler, and so by every run of the server. *)

Section EveryRequest.

Variable F : Frame.
Hypothesis F_worktree : forall st w, F st (set_worktree w st).
Hypothesis F_git : forall st g, F st (set_git g st).
Hypothesis F_uuid : forall st n, F st (set_uuid_seed n st).
Hypothesis F_clock : forall st t, F st (set_clock t st).
Hypothesis F_insert : forall st row,
  F st (set_db (set_files (files (db st) ++ [row]) (db st)) st).
Hypothesis F_update : forall st id t u,
  F st (set_db (set_files
                  (map (fun r => if has_id id r then apply_updates t u r else r) (files (db st)))
                  (db st)) st).
Hypothesis F_delete : forall st id t,
  F st (set_db (set_files
                  (map (fun r => if has_id id r then mark_deleted t r else r) (files (db st)))
                  (db st)) st).
Hypothesis F_history : forall st e,
  F st (set_db (mkDb (files (db st)) (path_history (db st) ++ [e]) (next_rowid (db st) + 1)) st).

Ltac pres_F :=
  pres_with ltac:(first [ apply F_worktree | apply F_git | apply F_uuid | apply F_history ]).

Lemma every_write_file p c : preserves F (write_file p c).
Proof. unfold write_file. pres_F. Qed.

Lemma every_put_repo r : preserves F (Git.put_repo r).
Proof. unfold Git.put_repo. pres_F. Qed.

Lemma every_git_add p : preserves F (Git.add p).
Proof.
  intros st st' o. unfold Git.add, Git.with_repo.
  destruct (git st) as [r|]; [|intros [= <- _]; apply rel_refl].
  destruct (tree_lookup p (worktree st)); [intros [= <- _]; apply F_git|].
  destruct (tree_mem p (index r)); intros [= <- _]; [apply F_git | apply rel_refl].
Qed.

Lemma every_git_commit msg : preserves F (Git.commit msg).
Proof.
  intros st st' o. unfold Git.commit, Git.with_repo.
  destruct (git st) as [r|]; [|intros [= <- _]; apply rel_refl].
  destruct (tree_eqb (index r) (Git.head_tree r)); intros [= <- _]; [apply rel_refl | apply F_git].
Qed.

Lemma every_git_commit_amend : preserves F Git.commit_amend.
Proof.
  intros st st' o. unfold Git.commit_amend, Git.with_repo.
  destruct (git st) as [r|]; [|intros [= <- _]; apply rel_refl].
  destruct (commits r); intros [= <- _]; [apply rel_refl | apply F_git].
Qed.

Lemma every_git_mv old new : preserves F (Git.mv old new).
Proof.
  intros st st' o. unfold Git.mv, Git.with_repo.
  destruct (git st) as [r|]; [|intros [= <- _]; apply rel_refl].
  destruct (tree_lookup old (worktree st)); [|intros [= <- _]; apply rel_refl].
  destruct (tree_lookup old (index r)); [|intros [= <- _]; apply rel_refl].
  destruct (tree_mem new (worktree st)); [intros [= <- _]; apply rel_refl|].
  unfold bind, modify, Git.put_repo. intros [= <- _].
  eapply rel_trans; [apply F_worktree | apply F_git].
Qed.

Lemma every_updateGitManifest : preserves F updateGitManifest.
Proof.
  intros st st' o. unfold updateGitManifest, write_file, modify. intros [= <- _]. apply F_worktree.
Qed.

Lemma every_uuidv4 : preserves F uuidv4.
Proof. intros st st' o. unfold uuidv4. intros [= <- _]. apply F_uuid. Qed.

Lemma every_insert_file row : preserves F (insert_file row).
Proof.
  intros st st' o. unfold insert_file.
  destruct (existsb _ (files (db st))); intros [= <- _]; [apply rel_refl | apply F_insert].
Qed.

Lemma every_updateFileRecord id u : preserves F (updateFileRecord id u).
Proof.
  intros st st' o. unfold updateFileRecord, now, gets, modify, bind, ret.
  destruct (existsb (has_id id) (files (db st)) && negb (is_null (u_current_path u))).
  - unfold updateGitManifest, write_file, modify. intros [= <- _].
    eapply rel_trans; [apply (F_update st id (clock st) u) | apply F_worktree].
  - intros [= <- _]. apply F_update.
Qed.

Lemma every_softDeleteFile id : preserves F (softDeleteFile id).
Proof.
  intros st st' o. unfold softDeleteFile, now, gets, modify, bind, ret.
  destruct (existsb (has_id id) (files (db st))).
  - unfold updateGitManifest, write_file, modify. intros [= <- _].
    eapply rel_trans; [apply (F_delete st id (clock st)) | apply F_worktree].
  - intros [= <- _]. apply F_delete.
Qed.

Lemma every_recordPathChange id o n : preserves F (recordPathChange id o n).
Proof. unfold recordPathChange. pres_F. Qed.

#[local] Hint Resolve every_write_file every_put_repo every_git_add every_git_commit
  every_git_commit_amend every_git_mv every_updateGitManifest every_uuidv4 every_insert_file
  every_updateFileRecord every_softDeleteFile every_recordPathChange : pres.

Lemma every_initVaultGit : preserves F initVaultGit.
Proof. unfold initVaultGit. pres_F. Qed.

#[local] Hint Resolve every_initVaultGit : pres.

Lemma every_commitFile p c msg : preserves F (commitFile p c msg).
Proof. unfold commitFile. pres_F. Qed.

Lemma every_deleteFile p : preserves F (deleteFile p).
Proof. unfold deleteFile. pres_F. Qed.

Lemma every_mergeFile b l r : preserves F (mergeFile b l r).
Proof. unfold mergeFile. pres_F. Qed.

Lemma every_createFileRecord p h c : preserves F (createFileRecord p h c).
Proof. unfold createFileRecord, generateFileId. pres_F. Qed.

#[local] Hint Resolve every_commitFile every_deleteFile every_mergeFile every_createFileRecord
  : pres.

Lemma every_ensureFileId p h c : preserves F (ensureFileId p h c).
Proof. unfold ensureFileId. pres_F. Qed.

#[local] Hint Resolve every_ensureFileId : pres.

Lemma every_getFileRecord p : preserves F (getFileRecord p).
Proof. unfold getFileRecord. pres_F. Qed.

Lemma every_bootstrap : preserves F bootstrapVaultMetadata.
Proof. unfold bootstrapVaultMetadata. pres_F. Qed.

Lemma every_manifest_row h p : preserves F (manifest_row h p).
Proof. unfold manifest_row. pres_F. Qed.

#[local] Hint Resolve every_getFileRecord every_bootstrap every_manifest_row : pres.

Lemma every_getManifest : preserves F getManifest.
Proof. unfold getManifest. pres_F. Qed.

#[local] Hint Resolve every_getManifest : pres.

Lemma every_getChangesSince since : preserves F (getChangesSince since).
Proof. unfold getChangesSince. pres_F. Qed.

Lemma every_detectRename p h id : preserves F (detectRename p h id).
Proof. unfold detectRename. pres_F. Qed.

Lemma every_renameFile id o n c : preserves F (renameFile id o n c).
Proof. unfold renameFile. pres_F. Qed.

#[local] Hint Resolve every_getChangesSince every_detectRename every_renameFile : pres.

Lemma every_processOperation op i : preserves F (processOperation op i).
Proof.
  unfold processOperation, processCreate, processModify, processRename, processDelete. pres_F.
Qed.

#[local] Hint Resolve every_processOperation : pres.

Lemma every_batch_loop a s ops : forall i rs, preserves F (batch_loop a s i ops rs).
Proof. induction ops as [|op ops IH]; intros i rs; simpl; pres_F. Qed.

Lemma every_answer_merge p h r : preserves F (answer_merge p h r).
Proof. unfold answer_merge. pres_F. Qed.

#[local] Hint Resolve every_batch_loop every_answer_merge : pres.

Lemma every_handle rq : preserves F (handle rq).
Proof.
  destruct rq; unfold handle;
    unfold get_manifest, get_debug, get_status, get_file, post_sync, post_sync_v2, delete_file,
           post_detect_rename, post_rename, get_file_by_id, handleYjsUpdate,
           with_valid_vault, fastify;
    pres_F.
Qed.

Lemma every_serve trace : forall st, F st (serve trace st).
Proof.
  induction trace as [|[t rq] trace IH]; intros st; simpl; [apply rel_refl|].
  eapply rel_trans; [apply (F_clock st t)|].
  destruct (handle rq (set_clock t st)) as [s1 o] eqn:E. simpl.
  eapply rel_trans; [eapply every_handle; eauto | apply IH].
Qed.

End EveryRequest.

Lemma rows_kept_refl st : rows_kept st st.
Proof. intros r Hin. exists r. auto. Qed.

Lemma rows_kept_trans a b c : rows_kept a b -> rows_kept b c -> rows_kept a c.
Proof.
  intros Hab Hbc r Hin. destruct (Hab r Hin) as (r1 & Hin1 & Hi1 & Hv1 & Hc1).
  destruct (Hbc r1 Hin1) as (r2 & Hin2 & Hi2 & Hv2 & Hc2).
  exists r2. repeat split; congruence.
Qed.

Definition rows_frame : Frame := mkFrame rows_kept rows_kept_refl rows_kept_trans.

Lemma rows_kept_same_files st st' : files (db st') = files (db st) -> rows_kept st st'.
Proof. intros H r Hin. exists r. rewrite H. auto. Qed.

Lemma rows_kept_map (f : FileMetadata -> FileMetadata) st st' :
  files (db st') = map f (files (db st)) ->
  (forall r, file_id (f r) = file_id r /\ vault_id (f r) = vault_id r /\
             created_at (f r) = created_at r) ->
  rows_kept st st'.
Proof.
  intros Hf Hkeep r Hin. exists (f r). rewrite Hf. split; [now apply in_map | apply Hkeep].
Qed.

Lemma history_grows_refl st : history_grows st st.
Proof. exists []. now rewrite app_nil_r. Qed.

Lemma history_grows_trans a b c : history_grows a b -> history_grows b c -> history_grows a c.
Proof. intros [l1 H1] [l2 H2]. exists (l1 ++ l2)%list. now rewrite H2, H1, app_assoc. Qed.

Definition history_frame : Frame := mkFrame history_grows history_grows_refl history_grows_trans.

Lemma name_kept_refl st : name_kept st st.
Proof. reflexivity. Qed.

Lemma name_kept_trans a b c : name_kept a b -> name_kept b c -> name_kept a c.
Proof. unfold name_kept. congruence. Qed.

Definition name_frame : Frame := mkFrame name_kept name_kept_refl name_kept_trans.

Lemma serve_keeps_rows trace st : rows_kept st (serve trace st).
Proof.
  apply (every_serve rows_frame); intros; simpl;
    try (apply rows_kept_same_files; reflexivity).
  - intros r Hin. exists r. simpl. split; [apply in_or_app; now left | repeat split].
  - eapply rows_kept_map; [reflexivity|]. intros r. cbv beta. destruct (has_id id r); repeat split.
  - eapply rows_kept_map; [reflexivity|]. intros r. cbv beta. destruct (has_id id r); repeat split.
Qed.

Lemma serve_grows_history trace st : history_grows st (serve trace st).
Proof.
  apply (every_serve history_frame); intros; simpl;
    try (exists []; simpl; now rewrite app_nil_r).
  now exists [e].
Qed.

Lemma serve_keeps_name trace st : vault_name (serve trace st) = vault_name st.
Proof. apply (every_serve name_frame); intros; reflexivity. Qed.

(** X14. The identity store is append-only under every sequence of
    requests, yjs updates included: no row of [files] is ever removed,
    and a row keeps its file_id, its vault and its creation time; the
    entries of [path_history] stay as they are, in place, and new ones
    come after them; the vault keeps its name. *)
Theorem X14_no_request_removes_a_row_or_a_path_history_entry :
  forall (trace : list (timestamp * Request)) (st : Vault),
    rows_kept st (serve trace st) /\
    history_grows st (serve trace st) /\
    vault_name (serve trace st) = vault_name st.
Proof.
  intros trace st. split; [apply serve_keeps_rows|].
  split; [apply serve_grows_history | apply serve_keeps_name].
Qed.

(* ================================================================= *)
(** ** Batches that are not atomic *)

Lemma processOperation_keeps_name op i st st' o :
  processOperation op i st = (st', o) -> vault_name st' = vault_name st.
Proof. apply (every_processOperation name_frame); intros; reflexivity. Qed.

Lemma batch_step_total op i st :
  validateVaultName (vault_name st) = true ->
  exists st' r,
    batch_step op i st = (st', Ok r) /\ validateVaultName (vault_name st') = true.
Proof.
  intros Hv. unfold batch_step. destruct (_ || _); [eexists _, _; split; [reflexivity | exact Hv]|].
  destruct (processOperation op i st) as [st' o] eqn:E.
  pose proof (processOperation_keeps_name _ _ _ _ _ E) as Hn.
  revert E. unfold processOperation.
  destruct (initVaultGit_total st Hv) as (st0 & E0 & _). rewrite (bind_ok _ _ _ _ _ E0).
  unfold try_catch.
  match goal with |- (let (_, _) := ?body st0 in _) = _ -> _ =>
    destruct (body st0) as [s [r|e]] end.
  - intros [= <- <-]. eexists _, _. split; [reflexivity | now rewrite Hn].
  - unfold ret. intros [= <- <-]. eexists _, _. split; [reflexivity | now rewrite Hn].
Qed.

Lemma batch_loop_runs_through start ops :
  forall i rs st,
    validateVaultName (vault_name st) = true ->
    exists st' results,
      batch_loop false start i ops rs st =
        (st', Ok (send_ok (mkV2SyncResponse (forallb success (rs ++ results)) (rs ++ results)
                             (head_of st')))) /\
      processed i ops st results st'.
Proof.
  induction ops as [|op ops IH]; intros i rs st Hv.
  - exists st, []. simpl. rewrite (bind_ok _ _ _ _ _ (getHeadCommit_eq st)).
    rewrite app_nil_r. split; [reflexivity | constructor].
  - destruct (batch_step_total op i st Hv) as (s1 & r & E & Hv1).
    destruct (IH (S i) (rs ++ [r])%list s1 Hv1) as (st' & results & El & Hp).
    exists st', (r :: results). split; [|econstructor; eauto].
    simpl. unfold batch_step in E.
    destruct (String.eqb (op_type op) "" || String.eqb (op_path op) "").
    + injection E as <- <-. rewrite El. now rewrite <- app_assoc.
    + rewrite (bind_ok _ _ _ _ _ E). rewrite andb_false_r. rewrite El. now rewrite <- app_assoc.
Qed.

(** X15. With [atomic: false] a batch is never cut short: on a valid
    vault name the handler answers with status 200 and one result per
    operation, in order and under its own index, each operation being run
    on the state the one before it left, failed or not.  [success] says
    whether all succeeded and [head_commit] is the HEAD after the last
    one. *)
Theorem X15_non_atomic_batch_runs_every_operation :
  forall (op : SyncOperation) (ops : list SyncOperation) (st : Vault),
    validateVaultName (vault_name st) = true ->
    exists st0 st' results,
      initVaultGit st = (st0, Ok tt) /\
      post_sync_v2 (mkV2SyncBody (op :: ops) (Some false)) st =
        (st', Ok (send_ok (mkV2SyncResponse (forallb success results) results (head_of st')))) /\
      processed 0 (op :: ops) st0 results st' /\
      length results = S (length ops) /\
      map index_ results = seq 0 (S (length ops)).
Proof.
  intros op ops st Hv.
  destruct (initVaultGit_total st Hv) as (st0 & E0 & Hn0).
  assert (validateVaultName (vault_name st0) = true) as Hv0 by now rewrite Hn0.
  destruct (batch_loop_runs_through (head_of st0) (op :: ops) 0 [] st0 Hv0)
    as (st' & results & El & Hp).
  exists st0, st', results. split; [exact E0|].
  pose proof (processed_indexes _ _ _ _ _ Hp) as Hidx.
  split; [|split; [exact Hp|split; [|exact Hidx]]].
  - unfold post_sync_v2, with_valid_vault, fastify. apply try_catch_ok.
    unfold bind at 1, gets at 1. rewrite Hv. cbn [negb operations atomic].
    rewrite (bind_ok _ _ _ _ _ E0).
    rewrite (bind_ok _ _ _ _ _ (getHeadCommit_eq st0)). exact El.
  - rewrite <- (length_map index_), Hidx. apply length_seq.
Qed.

(* ================================================================= *)
(** ** Real-time updates *)


(* ================================================================= *)
(** ** Reading a file *)

Lemma getFileRecord_spec p content st :
  uuid_fresh st ->
  tree_lookup p (worktree st) = Some content ->
  exists st' record row,
    getFileRecord p st = (st', Ok (Some record)) /\
    fr_path record = p /\ fr_hash record = computeHash content /\
    getFileByPath p st' = Some row /\ file_id row = fr_file_id record /\
    (forall r, getFileByPath p st = Some r -> fr_file_id record = file_id r) /\
    identity_step st st' /\ uuid_fresh st'.
Proof.
  intros Hf Hc. unfold getFileRecord.
  unfold bind at 1, existsSync, gets at 1, tree_mem. simpl. rewrite Hc. simpl.
  unfold bind at 1, readFileSync, gets at 1. simpl. rewrite Hc.
  destruct (log_try_total (option_map commit_hash) (fun _ => getHeadCommit) p st) as (c & Ec).
  { intros e. eexists. apply getHeadCommit_eq. }
  rewrite (bind_ok _ _ _ _ _ Ec).
  destruct (log_try_total (option_map commit_time) (fun _ => t <- now ;; ret (Some t)) p st)
    as (u & Eu); [intros e; eexists; reflexivity|].
  rewrite (bind_ok _ _ _ _ _ Eu).
  destruct (ensureFileId_spec p (Some (computeHash content)) c st Hf)
    as (st' & row & E & Hrow & Hs & Hf' & _ & Hcase).
  rewrite (bind_ok _ _ _ _ _ E). eexists _, _, row. split; [reflexivity|]. simpl.
  repeat split; try assumption; try apply Hs.
  intros r Hr. rewrite Hr in Hcase. apply Hcase.
Qed.

Lemma getFileRecord_absent p st :
  tree_lookup p (worktree st) = None -> getFileRecord p st = (st, Ok None).
Proof.
  intros Hc. unfold getFileRecord, bind, existsSync, gets, tree_mem. now rewrite Hc.
Qed.


(* ================================================================= *)
(** ** The single-file sync, when it commits *)

Lemma mergeFile_clean b l r m st :
  git_merge_file b l r = MergeClean m ->
  mergeFile b l r st =
  (set_worktree (tree_remove_prefix ".tmp-merge/" (worktree st)) st, Ok (mkMergeResult m false)).
Proof. intros H. unfold mergeFile, bind, modify. now rewrite H. Qed.


(* ================================================================= *)
(** ** Restoring a soft-deleted file *)

Lemma set_files_same (st : Vault) : set_db (set_files (files (db st)) (db st)) st = st.
Proof. destruct st as [v w g [fs ph n] u c]. reflexivity. Qed.

Lemma map_unmatched {A} (f : A -> A) (sel : A -> bool) (l : list A) :
  existsb sel l = false -> map (fun x => if sel x then f x else x) l = l.
Proof.
  induction l as [|x l IH]; simpl; [reflexivity|].
  intros H. apply orb_false_iff in H as [Hx Hl]. rewrite Hx. now rewrite IH.
Qed.

Lemma existsb_has_id_map (id : file_id_t) (f : FileMetadata -> FileMetadata) (l : list FileMetadata) :
  (forall x, file_id (f x) = file_id x) ->
  existsb (has_id id) (map (fun x => if has_id id x then f x else x) l) = existsb (has_id id) l.
Proof.
  intros Hf. induction l as [|x l IH]; simpl; [reflexivity|]. rewrite IH. f_equal.
  destruct (has_id id x) eqn:E; [|exact E]. unfold has_id in *. now rewrite Hf.
Qed.


(* ================================================================= *)
(** ** Finding a file by a current or a former path *)

Lemma sorted_desc_in (x : PathHistoryEntry) (l : list PathHistoryEntry) :
  In x (fold_right insert_desc [] l) <-> In x l.
Proof.
  induction l as [|y l IH]; simpl; [tauto|]. rewrite insert_desc_in, IH. intuition congruence.
Qed.

Lemma history_hits_in (p : path) (st : Vault) (e : PathHistoryEntry) :
  In e (history_hits p st) <->
  In e (path_history (db st)) /\ (old_path e = p \/ new_path e = p) /\
  exists f, In f (files (db st)) /\ file_id f = ph_file_id e /\ active_in (vault_name st) f = true.
Proof.
  unfold history_hits. rewrite filter_In, andb_true_iff, orb_true_iff, !String.eqb_eq, existsb_exists.
  split.
  - intros (Hin & Hp & f & Hf & Hc). apply andb_true_iff in Hc as [Hid Ha].
    apply N.eqb_eq in Hid. eauto 10.
  - intros (Hin & Hp & f & Hf & Hid & Ha). repeat split; auto.
    exists f. split; [assumption|]. apply andb_true_iff. split; [now apply N.eqb_eq | assumption].
Qed.

(** X20. [findFileByAnyPath] answers with a row of the table that is
    active in the vault and that is at the path now or has an entry of
    [path_history] naming the path as old or as new path; the row at the
    path now is preferred.  It answers null exactly when no active row is
    at the path and no active row has such an entry: a path a file once
    had keeps resolving to the file until the file is deleted. *)
Theorem X20_findFileByAnyPath_resolves_current_and_former_paths :
  forall (p : path) (st : Vault),
    (forall f, getFileByPath p st = Some f -> findFileByAnyPath p st = Some f) /\
    (forall f, findFileByAnyPath p st = Some f ->
       In f (files (db st)) /\ active_in (vault_name st) f = true /\
       (current_path f = p \/
        exists e, In e (path_history (db st)) /\ ph_file_id e = file_id f /\
                  (old_path e = p \/ new_path e = p))) /\
    (findFileByAnyPath p st = None <->
       forall f, In f (files (db st)) -> active_in (vault_name st) f = true ->
         current_path f <> p /\
         forall e, In e (path_history (db st)) -> ph_file_id e = file_id f ->
                   old_path e <> p /\ new_path e <> p).
Proof.
  intros p st. unfold findFileByAnyPath, getFileByPath.
  destruct (find (fun r => active_in (vault_name st) r && String.eqb (current_path r) p)
                 (files (db st))) as [cur|] eqn:Ecur.
  - apply find_some in Ecur as Hcur. destruct Hcur as [Hin Hc].
    apply andb_true_iff in Hc as [Ha Hp]. apply String.eqb_eq in Hp.
    split; [auto|]. split.
    + intros f [= <-]. auto.
    + split; [discriminate|]. intros H. destruct (H cur Hin Ha) as [Hne _]. contradiction.
  - pose proof (find_none _ _ Ecur) as Hnone.
    assert (forall f, In f (files (db st)) -> active_in (vault_name st) f = true ->
                      current_path f <> p) as Hnot.
    { intros f Hin Ha Hp. specialize (Hnone f Hin). cbv beta in Hnone. rewrite Ha in Hnone. simpl in Hnone.
      apply String.eqb_neq in Hnone. contradiction. }
    split; [discriminate|].
    destruct (fold_right insert_desc [] (history_hits p st)) as [|e rest] eqn:Es.
    + assert (forall e, ~ In e (history_hits p st)) as Hempty.
      { intros e He. apply sorted_desc_in in He. rewrite Es in He. exact He. }
      split; [discriminate|]. split; [|reflexivity].
      intros _ f Hin Ha. split; [now apply Hnot|].
      intros e He Hid. split; intros Hp; apply (Hempty e); apply history_hits_in; eauto 10.
    + assert (In e (history_hits p st)) as He.
      { apply sorted_desc_in. rewrite Es. now left. }
      apply history_hits_in in He as (Hein & Hp & f0 & Hf0 & Hid0 & Ha0).
      destruct (find (fun f => has_id (ph_file_id e) f && active_in (vault_name st) f)
                     (files (db st))) as [f|] eqn:Ef.
      * apply find_some in Ef as [Hin Hc]. apply andb_true_iff in Hc as [Hid Ha].
        apply N.eqb_eq in Hid. split.
        -- intros f' [= <-]. split; [assumption|]. split; [assumption|]. right.
           exists e. auto.
        -- split; [discriminate|]. intros H.
           destruct (H f Hin Ha) as [_ H2]. destruct (H2 e Hein (eq_sym Hid)) as [H3 H4].
           destruct Hp; contradiction.
      * exfalso. pose proof (find_none _ _ Ef f0 Hf0) as Hc. cbv beta in Hc.
        unfold has_id in Hc. rewrite Ha0 in Hc. apply N.eqb_eq in Hid0. rewrite Hid0 in Hc.
        discriminate Hc.
Qed.

(* ================================================================= *)
(** ** Recovery of the identity store from the manifest *)

Lemma updateGitManifest_writes (st : Vault) :
  updateGitManifest st
  = (set_worktree (tree_insert manifest_path (writeJson (manifest_of st)) (worktree st)) st, Ok tt).
Proof. reflexivity. Qed.

Lemma insert_or_replace_new (row : FileMetadata) (rows : list FileMetadata) :
  ~ In (file_id row) (map file_id rows) -> insert_or_replace row rows = (rows ++ [row])%list.
Proof.
  intros Hnew. unfold insert_or_replace. f_equal.
  induction rows as [|x rows IH]; simpl; [reflexivity|].
  destruct (has_id (file_id row) x) eqn:E.
  - exfalso. apply Hnew. left. now apply N.eqb_eq in E.
  - simpl. f_equal. apply IH. intros H. apply Hnew. now right.
Qed.

Lemma rebuild_rows (v : string) (t : timestamp) (rs : list FileMetadata) :
  forall acc,
    NoDup (map file_id acc ++ map file_id rs) ->
    fold_left (fun rows e =>
                 insert_or_replace
                   (mkFileMetadata (fst e) v (fst (snd e)) None None (snd (snd e)) t None) rows)
              (map (fun r => (file_id r, (current_path r, created_at r))) rs) acc
    = (acc ++ map (rebuilt_row v t) rs)%list.
Proof.
  induction rs as [|r rs IH]; intros acc Hnd; simpl.
  - now rewrite app_nil_r.
  - rewrite insert_or_replace_new.
    + rewrite IH.
      * now rewrite <- app_assoc.
      * rewrite map_app. simpl. rewrite <- app_assoc. exact Hnd.
    + simpl. apply NoDup_remove_2 in Hnd. intros H. apply Hnd. apply in_or_app. now left.
Qed.

Lemma rebuilt_rows_resolve (v : string) (t : timestamp) (p : path) (l : list FileMetadata) :
  option_map file_id
    (find (fun r => active_in v r && String.eqb (current_path r) p)
          (map (rebuilt_row v t) (filter (active_in v) l)))
  = option_map file_id (find (fun r => active_in v r && String.eqb (current_path r) p) l).
Proof.
  induction l as [|x l IH]; simpl; [reflexivity|].
  destruct (active_in v x) eqn:Ea; simpl.
  - unfold active_in at 1. simpl. rewrite String.eqb_refl. simpl.
    destruct (String.eqb (current_path x) p); [reflexivity | exact IH].
  - exact IH.
Qed.


(* ================================================================= *)
(** ** The base of a merge after a rename *)

Lemma first_at_commit_run (c : commit_id) (paths : list path) (st : Vault) :
  exists o,
    first_at_commit c paths st = (st, Ok o) /\
    (forall b, o = Some b -> exists q, In q paths /\ file_at q c st = Some b) /\
    (o = None <-> forall q, In q paths -> file_at q c st = None).
Proof.
  induction paths as [|q paths (o & E & Hsome & Hnone)]; simpl.
  - exists None. split; [reflexivity|]. split; [discriminate|]. split; [contradiction | reflexivity].
  - unfold bind. rewrite getFileAtCommit_eq. destruct (file_at q c st) as [b|] eqn:Eq.
    + exists (Some b). split; [reflexivity|]. split.
      * intros b' [= <-]. exists q. auto.
      * split; [discriminate|]. intros H. specialize (H q (or_introl eq_refl)). congruence.
    + exists o. split; [exact E|]. split.
      * intros b Hb. destruct (Hsome b Hb) as (q' & Hin & Hq'). exists q'. auto.
      * rewrite Hnone. split.
        -- intros H q' [<-|Hin]; auto.
        -- intros H q' Hin. apply H. now right.
Qed.

(** X22. [getFileAtCommitWithHistory] only reads.  It returns the file
    at the current path in the commit when there is one; otherwise the
    file it returns is the one a former path of the file_id (an [old_path]
    of its entries in [path_history]) has in the commit; and it returns
    null exactly when neither the current path nor any former path of the
    file_id has a file in the commit. *)
Theorem X22_getFileAtCommitWithHistory_looks_under_the_former_paths :
  forall (id : file_id_t) (c : commit_id) (p : path) (st : Vault),
    exists o,
      getFileAtCommitWithHistory id c p st = (st, Ok o) /\
      (forall b, file_at p c st = Some b -> o = Some b) /\
      (forall b, o = Some b ->
         exists q, file_at q c st = Some b /\
                   (q = p \/ exists e, In e (path_history (db st)) /\ ph_file_id e = id /\
                                       old_path e = q)) /\
      (o = None <->
         file_at p c st = None /\
         forall e, In e (path_history (db st)) -> ph_file_id e = id ->
                   file_at (old_path e) c st = None).
Proof.
  intros id c p st. unfold getFileAtCommitWithHistory, bind. rewrite getFileAtCommit_eq.
  destruct (file_at p c st) as [b|] eqn:Ep.
  - exists (Some b). split; [reflexivity|]. split; [auto|]. split.
    + intros b' [= <-]. exists p. auto.
    + split; [discriminate | intros [H _]; discriminate H].
  - unfold gets.
    destruct (first_at_commit_run c (getAllPreviousPaths id st) st) as (o & E & Hsome & Hnone).
    exists o. split; [exact E|]. split; [discriminate|]. split.
    + intros b Hb. destruct (Hsome b Hb) as (q & Hin & Hq). exists q. split; [assumption|].
      right. unfold getAllPreviousPaths in Hin. apply dedupe_in in Hin as [Hin _].
      apply in_map_iff in Hin as (e & He & Hin). apply getPathHistory_in in Hin as [Hin Hid].
      eauto.
    + rewrite Hnone. split.
      * intros H. split; [reflexivity|]. intros e Hin Hid. apply H.
        apply previous_path_in. eauto.
      * intros [_ H] q Hin. unfold getAllPreviousPaths in Hin. apply dedupe_in in Hin as [Hin _].
        apply in_map_iff in Hin as (e & He & Hin). apply getPathHistory_in in Hin as [Hin Hid].
        rewrite <- He. now apply H.
Qed.

(* ================================================================= *)
(** ** Conflict copies of binary files *)

Lemma length_append (s1 s2 : string) :
  String.length (s1 ++ s2) = String.length s1 + String.length s2.
Proof. induction s1 as [|a s1 IH]; simpl; [reflexivity | now rewrite IH]. Qed.

Lemma append_empty (s : string) : s ++ "" = s.
Proof. induction s as [|a s IH]; simpl; [reflexivity | now rewrite IH]. Qed.

Lemma prefix_of_append (s1 s2 : string) : substring 0 (String.length s1) (s1 ++ s2) = s1.
Proof.
  induction s1 as [|a s1 IH]; simpl.
  - destruct s2; reflexivity.
  - now rewrite IH.
Qed.

Lemma prefix_length (n : nat) (s : string) : String.length (substring 0 n s) <= n.
Proof.
  revert s. induction n as [|n IH]; intros s.
  - destruct s; simpl; lia.
  - destruct s as [|a s]; simpl; [lia|]. specialize (IH s). lia.
Qed.

Lemma prefix_chars (P : ascii -> Prop) (n : nat) (s : string) :
  Forall P (list_ascii_of_string s) -> Forall P (list_ascii_of_string (substring 0 n s)).
Proof.
  revert s. induction n as [|n IH]; intros s H.
  - destruct s; simpl; constructor.
  - destruct s as [|a s]; simpl; [constructor|]. inversion H; subst.
    constructor; [assumption | now apply IH].
Qed.

Lemma prefix_whole (n : nat) (s : string) : String.length s <= n -> substring 0 n s = s.
Proof.
  revert s. induction n as [|n IH]; intros s H.
  - destruct s; simpl in *; [reflexivity | lia].
  - destruct s as [|a s]; simpl in *; [reflexivity|]. rewrite IH; [reflexivity | lia].
Qed.

Lemma keep_chars_kept (keep : ascii -> bool) (s : string) :
  Forall (fun a => keep a = true) (list_ascii_of_string (keep_chars keep s)).
Proof.
  induction s as [|a s IH]; simpl; [constructor|].
  destruct (keep a) eqn:E; [|exact IH]. simpl. constructor; assumption.
Qed.

Lemma conflict_path_shape (ext base deviceId : string) :
  generateConflictPath ext (base ++ ext) deviceId
  = base ++ ".conflict-" ++ substring 0 16 (keep_chars device_id_char deviceId) ++ ext.
Proof.
  unfold generateConflictPath. destruct (Nat.eqb (String.length ext) 0) eqn:E0.
  - apply Nat.eqb_eq in E0. destruct ext; [|discriminate E0]. now rewrite append_empty.
  - rewrite length_append, Nat.add_sub, prefix_of_append. reflexivity.
Qed.

Lemma conflict_path_differs (ext base deviceId : string) :
  generateConflictPath ext (base ++ ext) deviceId <> base ++ ext.
Proof.
  rewrite conflict_path_shape. intros H. apply (f_equal String.length) in H.
  rewrite !length_append in H. simpl in H. lia.
Qed.

(** X23. For a path [base ++ ext] with extension [ext],
    [generateConflictPath] returns [base.conflict-<id><ext>]: the path
    keeps its directory, name and extension, and the result is never the
    path itself.  [<id>] is made of the characters of the device id that
    are letters, digits or [-], in order, cut after the sixteenth: it has
    no dot and no separator, and it is the whole device id when the device
    id has at most sixteen characters, all of them of this kind. *)
Theorem X23_generateConflictPath_adds_a_sanitised_device_id :
  forall (ext base deviceId : string),
    exists safe,
      generateConflictPath ext (base ++ ext) deviceId = base ++ ".conflict-" ++ safe ++ ext /\
      safe = substring 0 16 (keep_chars device_id_char deviceId) /\
      String.length safe <= 16 /\
      Forall (fun a => device_id_char a = true) (list_ascii_of_string safe) /\
      includes "/" safe = false /\ includes "." safe = false /\
      (String.length deviceId <= 16 ->
       forallb device_id_char (list_ascii_of_string deviceId) = true -> safe = deviceId) /\
      generateConflictPath ext (base ++ ext) deviceId <> base ++ ext.
Proof.
  intros ext base deviceId. exists (substring 0 16 (keep_chars device_id_char deviceId)).
  pose proof (conflict_path_shape ext base deviceId) as E.
  assert (Forall (fun a => device_id_char a = true)
            (list_ascii_of_string (substring 0 16 (keep_chars device_id_char deviceId)))) as Hsafe
    by (apply prefix_chars, keep_chars_kept).
  assert (forall c : ascii, device_id_char c = false ->
            includes (String c EmptyString)
                     (substring 0 16 (keep_chars device_id_char deviceId)) = false) as Hnot.
  { intros c Hc. destruct (includes _ _) eqn:Ei; [|reflexivity].
    apply includes_head_in in Ei. rewrite Forall_forall in Hsafe.
    specialize (Hsafe c Ei). congruence. }
  split; [exact E|]. split; [reflexivity|]. split; [apply prefix_length|].
  split; [exact Hsafe|]. split; [now apply Hnot|]. split; [now apply Hnot|]. split.
  - intros Hlen Hall.
    assert (keep_chars device_id_char deviceId = deviceId) as ->.
    { clear Hlen E Hsafe Hnot. induction deviceId as [|a s IH]; simpl in *; [reflexivity|].
      apply andb_true_iff in Hall as [Ha Hs]. rewrite Ha. now rewrite IH. }
    now apply prefix_whole.
  - apply conflict_path_differs.
Qed.


(* ================================================================= *)
(** ** The DELETE route *)

Lemma deleteFile_absent (p : path) (st : Vault) :
  tree_lookup p (worktree st) = None -> deleteFile p st = (st, Ok false).
Proof.
  intros H. unfold deleteFile, bind, existsSync, gets, tree_mem. now rewrite H.
Qed.


End Engine.

(* ================================================================= *)
(** * The connected clients *)

(** ** The map of client lists *)

Lemma clients_get_in (k : string) (v : list ConnectedClient) m :
  clients_get k m = Some v -> In (k, v) m.
Proof.
  induction m as [|[k' v'] m IH]; simpl; [discriminate|].
  destruct (String.eqb_spec k' k) as [->|_].
  - intros [= ->]. now left.
  - intros H. right. now apply IH.
Qed.

Lemma clients_get_none (k : string) m : clients_get k m = None <-> ~ In k (map fst m).
Proof.
  induction m as [|[k' v'] m IH]; simpl; [tauto|].
  destruct (String.eqb_spec k' k) as [->|Hne].
  - split; [discriminate | intros H; exfalso; apply H; now left].
  - rewrite IH. tauto.
Qed.

Lemma clients_in_get (k : string) (v : list ConnectedClient) m :
  NoDup (map fst m) -> In (k, v) m -> clients_get k m = Some v.
Proof.
  induction m as [|[k' v'] m IH]; simpl; [contradiction|].
  intros Hnd [[= -> ->]|Hin].
  - now rewrite String.eqb_refl.
  - inversion Hnd as [|? ? Hk Hnd']; subst.
    destruct (String.eqb_spec k' k) as [->|_]; [|now apply IH].
    exfalso. apply Hk. apply in_map_iff. now exists (k, v).
Qed.

Lemma clients_get_set (k k' : string) (v : list ConnectedClient) m :
  clients_get k' (clients_set k v m) = if String.eqb k k' then Some v else clients_get k' m.
Proof.
  induction m as [|[k0 v0] m IH]; simpl.
  - reflexivity.
  - destruct (String.eqb_spec k0 k) as [->|Hne]; simpl.
    + destruct (String.eqb_spec k k'); reflexivity.
    + rewrite IH. destruct (String.eqb_spec k0 k') as [->|_]; [|reflexivity].
      destruct (String.eqb_spec k k'); congruence.
Qed.

Lemma clients_set_keys (k : string) (v : list ConnectedClient) m :
  map fst (clients_set k v m)
  = if existsb (String.eqb k) (map fst m) then map fst m else (map fst m ++ [k])%list.
Proof.
  induction m as [|[k0 v0] m IH]; simpl; [reflexivity|].
  destruct (String.eqb_spec k0 k) as [->|Hne]; simpl.
  - now rewrite String.eqb_refl.
  - rewrite IH. destruct (String.eqb_spec k k0) as [->|_]; [congruence|]. simpl.
    now destruct (existsb (String.eqb k) (map fst m)).
Qed.

Lemma clients_set_nodup (k : string) (v : list ConnectedClient) m :
  NoDup (map fst m) -> NoDup (map fst (clients_set k v m)).
Proof.
  intros Hnd. rewrite clients_set_keys.
  destruct (existsb (String.eqb k) (map fst m)) eqn:E; [assumption|].
  apply NoDup_app; [assumption | repeat constructor; intros [] |].
  intros x Hx [<-|[]].
  assert (existsb (String.eqb k) (map fst m) = true) as H; [|congruence].
  apply existsb_exists. exists k. split; [assumption | apply String.eqb_refl].
Qed.

Lemma clients_set_forall (P : string * list ConnectedClient -> Prop) k v m :
  Forall P m -> P (k, v) -> Forall P (clients_set k v m).
Proof.
  intros Hm Hk. induction m as [|[k0 v0] m IH]; simpl.
  - constructor; [assumption | constructor].
  - inversion Hm; subst. destruct (String.eqb k0 k); constructor; auto.
Qed.

Lemma clients_delete_incl (k : string) m : incl (clients_delete k m) m.
Proof.
  induction m as [|[k0 v0] m IH]; simpl; [apply incl_refl|].
  destruct (String.eqb k0 k).
  - apply incl_tl, incl_refl.
  - intros x [<-|Hx]; [now left | right; now apply IH].
Qed.

Lemma clients_delete_nodup (k : string) m :
  NoDup (map fst m) -> NoDup (map fst (clients_delete k m)).
Proof.
  induction m as [|[k0 v0] m IH]; simpl; [auto|].
  intros Hnd. inversion Hnd as [|? ? Hk Hnd']; subst.
  destruct (String.eqb k0 k); [assumption|]. simpl. constructor; [|now apply IH].
  intros Hin. apply Hk. apply in_map_iff in Hin as (x & Hx & Hin).
  apply in_map_iff. exists x. split; [assumption|]. now apply (clients_delete_incl k m).
Qed.

Lemma clients_delete_forall (P : string * list ConnectedClient -> Prop) k m :
  Forall P m -> Forall P (clients_delete k m).
Proof.
  rewrite !Forall_forall. intros H x Hx. apply H. now apply (clients_delete_incl k m).
Qed.

Lemma clients_get_delete (k k' : string) m :
  NoDup (map fst m) ->
  clients_get k' (clients_delete k m) = if String.eqb k k' then None else clients_get k' m.
Proof.
  induction m as [|[k0 v0] m IH]; simpl; intros Hnd.
  - now destruct (String.eqb k k').
  - inversion Hnd as [|? ? Hk Hnd']; subst.
    destruct (String.eqb_spec k0 k) as [->|Hne]; simpl.
    + destruct (String.eqb_spec k k') as [<-|_]; [|reflexivity].
      now apply clients_get_none.
    + rewrite IH by assumption. destruct (String.eqb_spec k0 k') as [->|_]; [|reflexivity].
      destruct (String.eqb_spec k k'); congruence.
Qed.

(** ** Lists of clients *)

Lemma splice_first_incl {A} (f : A -> bool) (l : list A) : incl (splice_first f l) l.
Proof.
  induction l as [|x l IH]; simpl; [apply incl_refl|].
  destruct (f x).
  - apply incl_tl, incl_refl.
  - intros y [<-|Hy]; [now left | right; now apply IH].
Qed.

Lemma splice_first_devices (d : string) (l : list ConnectedClient) :
  NoDup (map c_deviceId l) ->
  NoDup (map c_deviceId (splice_first (same_device d) l)) /\
  (existsb (same_device d) l = true ->
   ~ In d (map c_deviceId (splice_first (same_device d) l))).
Proof.
  induction l as [|x l IH]; simpl; intros Hnd.
  - split; [constructor | discriminate].
  - inversion Hnd as [|? ? Hx Hnd']; subst.
    destruct (same_device d x) eqn:E; simpl.
    + unfold same_device in E. apply String.eqb_eq in E. subst d.
      split; [assumption | auto].
    + destruct (IH Hnd') as [H1 H2]. split.
      * constructor; [|assumption]. intros Hin. apply Hx.
        apply in_map_iff in Hin as (y & Hy & Hin). apply in_map_iff. exists y.
        split; [assumption|]. now apply (splice_first_incl (same_device d) l).
      * intros He [Heq|Hin]; [|now apply H2].
        unfold same_device in E. rewrite Heq, String.eqb_refl in E. discriminate.
Qed.

Lemma splice_first_filter (d : string) (l : list ConnectedClient) :
  NoDup (map c_deviceId l) ->
  splice_first (same_device d) l = filter (fun c => negb (same_device d c)) l.
Proof.
  induction l as [|x l IH]; simpl; intros Hnd; [reflexivity|].
  inversion Hnd as [|? ? Hx Hnd']; subst.
  destruct (same_device d x) eqn:E; simpl.
  - symmetry. apply forallb_filter_id. apply forallb_forall. intros y Hy.
    unfold same_device in *. apply String.eqb_eq in E.
    destruct (String.eqb_spec (c_deviceId y) d) as [Hd|_]; [|reflexivity].
    exfalso. apply Hx. apply in_map_iff. exists y. split; [congruence | assumption].
  - now rewrite IH.
Qed.

Lemma find_none_devices (d : string) (l : list ConnectedClient) :
  find (same_device d) l = None -> ~ In d (map c_deviceId l).
Proof.
  intros H Hin. apply in_map_iff in Hin as (c & Hc & Hin).
  pose proof (find_none _ _ H c Hin) as Hf. unfold same_device in Hf.
  rewrite Hc, String.eqb_refl in Hf. discriminate.
Qed.

Lemma find_existsb {A} (f : A -> bool) (l : list A) :
  existsb f l = match find f l with Some _ => true | None => false end.
Proof. induction l as [|x l IH]; simpl; [reflexivity|]. now destruct (f x). Qed.

(** ** What the calls keep *)

Lemma ws_ok_get (v : string) (cs : list ConnectedClient) (m : WsManager) :
  ws_ok m -> clients_get v (clients m) = Some cs -> entry_ok (v, cs).
Proof.
  intros [_ Hall] Hget. apply clients_get_in in Hget.
  rewrite Forall_forall in Hall. now apply Hall.
Qed.

Lemma ws_ok_vault_clients (v : string) (m : WsManager) :
  ws_ok m ->
  NoDup (map c_deviceId (getVaultClients v m)) /\
  Forall (fun c => c_vaultName c = v) (getVaultClients v m).
Proof.
  intros Hok. unfold getVaultClients.
  destruct (clients_get v (clients m)) as [cs|] eqn:E.
  - destruct (ws_ok_get v cs m Hok E) as (_ & H1 & H2). auto.
  - split; constructor.
Qed.

Lemma ws_ok_set (v : string) (cs : list ConnectedClient) (m : WsManager) :
  ws_ok m -> entry_ok (v, cs) -> ws_ok (set_clients (clients_set v cs (clients m)) m).
Proof.
  intros [Hnd Hall] He. split; simpl.
  - now apply clients_set_nodup.
  - now apply clients_set_forall.
Qed.

Lemma ws_ok_delete (v : string) (m : WsManager) :
  ws_ok m -> ws_ok (set_clients (clients_delete v (clients m)) m).
Proof.
  intros [Hnd Hall]. split; simpl.
  - now apply clients_delete_nodup.
  - now apply clients_delete_forall.
Qed.

Lemma ws_ok_clients (m m' : WsManager) : clients m' = clients m -> ws_ok m -> ws_ok m'.
Proof. unfold ws_ok. now intros ->. Qed.

Lemma handleConnection_ok (s : socket_id) (v d : string) (now : N) (m : WsManager) :
  ws_ok m -> ws_ok (handleConnection s v d now m).
Proof.
  intros Hok. destruct (ws_ok_vault_clients v m Hok) as [Hnd Hv].
  unfold handleConnection.
  destruct (find (same_device d) (getVaultClients v m)) as [existing|] eqn:Ef.
  - apply (ws_ok_set v _ (socket_close (c_socket existing) m)); [exact Hok|].
    destruct (splice_first_devices d _ Hnd) as [H1 H2].
    split; [|split]; simpl.
    + intros H. apply app_eq_nil in H as [_ H]. discriminate H.
    + rewrite map_app. simpl. apply NoDup_app; [assumption | repeat constructor; intros [] |].
      intros x Hx [<-|[]]. revert Hx. apply H2. rewrite find_existsb. now rewrite Ef.
    + apply Forall_app. split; [|repeat constructor].
      rewrite Forall_forall in *. intros c Hc. apply Hv.
      now apply (splice_first_incl (same_device d) _).
  - apply ws_ok_set; [exact Hok|].
    split; [|split]; simpl.
    + intros H. apply app_eq_nil in H as [_ H]. discriminate H.
    + rewrite map_app. simpl. apply NoDup_app; [assumption | repeat constructor; intros [] |].
      intros x Hx [<-|[]]. revert Hx. now apply find_none_devices.
    + apply Forall_app. split; [assumption | repeat constructor].
Qed.

Lemma handleDisconnect_ok (v d : string) (m : WsManager) :
  ws_ok m -> ws_ok (handleDisconnect v d m).
Proof.
  intros Hok. unfold handleDisconnect.
  destruct (clients_get v (clients m)) as [cs|] eqn:E; [|assumption].
  destruct (existsb (same_device d) cs); [|assumption].
  destruct (Nat.eqb (length (splice_first (same_device d) cs)) 0) eqn:El.
  - now apply ws_ok_delete.
  - apply ws_ok_set; [assumption|].
    destruct (ws_ok_get v cs m Hok E) as (_ & Hnd & Hv). simpl in *.
    split; [|split]; simpl.
    + intros H. rewrite H in El. discriminate El.
    + now apply splice_first_devices.
    + rewrite Forall_forall in *. intros c Hc. apply Hv.
      now apply (splice_first_incl (same_device d) _).
Qed.

Lemma sendToClient_keeps (c : ConnectedClient) (msg : WebSocketMessage) (m : WsManager) :
  clients (sendToClient c msg m) = clients m /\
  heartbeatInterval (sendToClient c msg m) = heartbeatInterval m /\
  forall s, readyState (sendToClient c msg m) s = readyState m s.
Proof. unfold sendToClient. destruct (N.eqb _ 1); simpl; auto. Qed.

(** The loop of [broadcast]. *)
Lemma broadcast_loop (msg : WebSocketMessage) (ex : option string) (cs : list ConnectedClient) :
  forall m,
    clients (fold_left (fun m c => if excluded ex c then m else sendToClient c msg m) cs m)
    = clients m /\
    heartbeatInterval (fold_left (fun m c => if excluded ex c then m else sendToClient c msg m) cs m)
    = heartbeatInterval m /\
    (forall s, readyState (fold_left (fun m c => if excluded ex c then m
                                                 else sendToClient c msg m) cs m) s
               = readyState m s) /\
    sent (fold_left (fun m c => if excluded ex c then m else sendToClient c msg m) cs m)
    = (sent m ++ map (fun c => (c_socket c, msg))
                     (filter (fun c => negb (excluded ex c)
                                       && N.eqb (readyState m (c_socket c)) 1) cs))%list.
Proof.
  induction cs as [|c cs IH]; intros m; simpl.
  - rewrite app_nil_r. auto.
  - destruct (excluded ex c); simpl; [apply IH|].
    destruct (IH (sendToClient c msg m)) as (H1 & H2 & H3 & H4).
    destruct (sendToClient_keeps c msg m) as (K1 & K2 & K3).
    rewrite H1, H2, H4, K1, K2. split; [reflexivity|]. split; [reflexivity|]. split.
    + intros s. now rewrite H3, K3.
    + assert (filter (fun c0 => negb (excluded ex c0)
                                && N.eqb (readyState (sendToClient c msg m) (c_socket c0)) 1) cs
              = filter (fun c0 => negb (excluded ex c0)
                                  && N.eqb (readyState m (c_socket c0)) 1) cs) as ->.
      { apply filter_ext. intros a. now rewrite K3. }
      unfold sendToClient. destruct (N.eqb (readyState m (c_socket c)) 1); simpl.
      * now rewrite <- app_assoc.
      * reflexivity.
Qed.

Lemma broadcast_ok (v : string) (msg : WebSocketMessage) (ex : option string) (m : WsManager) :
  ws_ok m -> ws_ok (broadcast v msg ex m).
Proof.
  intros Hok. unfold broadcast. destruct (clients_get v (clients m)) as [cs|]; [|assumption].
  destruct (Nat.eqb (length cs) 0); [assumption|].
  eapply ws_ok_clients; [|exact Hok]. apply broadcast_loop.
Qed.

Lemma sendToDevice_ok (v d : string) (msg : WebSocketMessage) (m : WsManager) :
  ws_ok m -> ws_ok (fst (sendToDevice v d msg m)).
Proof.
  intros Hok. unfold sendToDevice. destruct (clients_get v (clients m)) as [cs|]; [|assumption].
  destruct (find (same_device d) cs) as [c|]; [|assumption]. simpl.
  eapply ws_ok_clients; [|exact Hok]. apply sendToClient_keeps.
Qed.

(** The loop of the heartbeat over the clients of a vault. *)
Lemma heartbeat_clients_loop (v : string) (now : N) (cs : list ConnectedClient) :
  forall m acc,
    clients (fst (fold_left (heartbeat_client v now) cs (m, acc))) = clients m /\
    heartbeatInterval (fst (fold_left (heartbeat_client v now) cs (m, acc)))
    = heartbeatInterval m /\
    snd (fold_left (heartbeat_client v now) cs (m, acc))
    = (acc ++ filter (seen_lately now) cs)%list.
Proof.
  induction cs as [|c cs IH]; intros m acc; simpl.
  - now rewrite app_nil_r.
  - unfold heartbeat_client at 2 4 6, seen_lately at 1. simpl.
    destruct (N.ltb CLIENT_TIMEOUT (now - c_lastSeen c)); simpl.
    + destruct (IH (socket_close (c_socket c) m) acc) as (H1 & H2 & H3). auto.
    + destruct (IH (sendToClient c (ping v now) m) (acc ++ [c])%list) as (H1 & H2 & H3).
      destruct (sendToClient_keeps c (ping v now) m) as (K1 & K2 & _).
      rewrite H1, H2, H3, K1, K2, <- app_assoc. auto.
Qed.

Lemma filter_devices (f : ConnectedClient -> bool) (cs : list ConnectedClient) :
  NoDup (map c_deviceId cs) -> NoDup (map c_deviceId (filter f cs)).
Proof.
  induction cs as [|c cs IH]; simpl; intros Hnd; [constructor|].
  inversion Hnd as [|? ? Hc Hnd']; subst.
  destruct (f c); simpl; [|now apply IH]. constructor; [|now apply IH].
  intros Hin. apply Hc. apply in_map_iff in Hin as (y & Hy & Hin).
  apply in_map_iff. exists y. split; [assumption|]. now apply filter_In in Hin.
Qed.

Lemma heartbeat_vault_ok (now : N) (m : WsManager) (entry : string * list ConnectedClient) :
  entry_ok entry -> ws_ok m -> ws_ok (heartbeat_vault now m entry).
Proof.
  intros (_ & Hnd & Hv) Hok. unfold heartbeat_vault.
  destruct (heartbeat_clients_loop (fst entry) now (snd entry) m []) as (H1 & _ & H3).
  simpl in H3.
  assert (ws_ok (fst (fold_left (heartbeat_client (fst entry) now) (snd entry) (m, []))))
    as Hok1 by (eapply ws_ok_clients; eauto).
  destruct (Nat.eqb (length (snd (fold_left (heartbeat_client (fst entry) now) (snd entry)
                                            (m, [])))) 0) eqn:El.
  - now apply ws_ok_delete.
  - apply ws_ok_set; [assumption|]. rewrite H3 in *. split; [|split]; simpl.
    + intros H. rewrite H in El. discriminate El.
    + now apply filter_devices.
    + rewrite Forall_forall in *. intros c Hc. apply Hv. now apply filter_In in Hc.
Qed.

Lemma heartbeat_ok (now : N) (m : WsManager) : ws_ok m -> ws_ok (heartbeat now m).
Proof.
  intros Hok. unfold heartbeat.
  assert (forall entries m0,
            Forall entry_ok entries -> ws_ok m0 ->
            ws_ok (fold_left (heartbeat_vault now) entries m0)) as Hloop.
  { induction entries as [|e entries IH]; intros m0 Hall Hok0; simpl; [assumption|].
    inversion Hall; subst. apply IH; [assumption|]. now apply heartbeat_vault_ok. }
  apply Hloop; [apply Hok | exact Hok].
Qed.

Lemma ws_call_ok (m : WsManager) (c : WsCall) : ws_ok m -> ws_ok (ws_call m c).
Proof.
  intros Hok. destruct c; simpl.
  - now apply handleConnection_ok.
  - now apply handleDisconnect_ok.
  - now apply broadcast_ok.
  - now apply sendToDevice_ok.
  - destruct (heartbeatInterval m); [now apply heartbeat_ok | assumption].
  - split; simpl; constructor.
Qed.

Lemma ws_run_ok (calls : list WsCall) : forall m, ws_ok m -> ws_ok (ws_run calls m).
Proof.
  unfold ws_run. induction calls as [|c calls IH]; intros m Hok; simpl; [assumption|].
  apply IH. now apply ws_call_ok.
Qed.

(** X26. In every state the manager reaches from its creation, through
    any sequence of connections, socket close or error events, broadcasts,
    sends, heartbeat timers and [destroy]: the clients listed for a vault
    are clients of that vault, no two of them have the same device id, the
    vaults of [getConnectedVaults] are distinct and are exactly the vaults
    with at least one client (no empty list stays in the map), and
    [getClientCount] is the number of clients listed. *)
Theorem X26_one_client_per_device_and_no_vault_without_clients :
  forall (ready : socket_id -> N) (calls : list WsCall) (vaultName : string),
    NoDup (map c_deviceId (getVaultClients vaultName (ws_run calls (wsManager_new ready)))) /\
    Forall (fun c => c_vaultName c = vaultName)
           (getVaultClients vaultName (ws_run calls (wsManager_new ready))) /\
    NoDup (getConnectedVaults (ws_run calls (wsManager_new ready))) /\
    (In vaultName (getConnectedVaults (ws_run calls (wsManager_new ready))) <->
     getVaultClients vaultName (ws_run calls (wsManager_new ready)) <> []) /\
    getClientCount vaultName (ws_run calls (wsManager_new ready))
    = length (getVaultClients vaultName (ws_run calls (wsManager_new ready))).
Proof.
  intros ready calls v.
  assert (ws_ok (ws_run calls (wsManager_new ready))) as Hok.
  { apply ws_run_ok. split; simpl; constructor. }
  destruct (ws_ok_vault_clients v _ Hok) as [H1 H2].
  split; [exact H1|]. split; [exact H2|]. split; [apply Hok|].
  unfold getConnectedVaults, getVaultClients, getClientCount.
  destruct (clients_get v (clients (ws_run calls (wsManager_new ready)))) as [cs|] eqn:E.
  - split; [|reflexivity]. destruct (ws_ok_get v cs _ Hok E) as (Hne & _). simpl in Hne.
    split; [auto|]. intros _. apply clients_get_in in E. apply in_map_iff. now exists (v, cs).
  - split; [|reflexivity]. apply clients_get_none in E. split; [contradiction|].
    intros H. now contradiction H.
Qed.

(** ** A device that connects again *)

Lemma clients_set_set (k : string) (x y : list ConnectedClient) m :
  clients_set k y (clients_set k x m) = clients_set k y m.
Proof.
  induction m as [|[k0 v0] m IH]; simpl.
  - now rewrite String.eqb_refl.
  - destruct (String.eqb k0 k) eqn:E; simpl.
    + now rewrite String.eqb_refl.
    + now rewrite E, IH.
Qed.

Lemma clients_delete_set (k : string) (x : list ConnectedClient) m :
  clients_delete k (clients_set k x m) = clients_delete k m.
Proof.
  induction m as [|[k0 v0] m IH]; simpl.
  - now rewrite String.eqb_refl.
  - destruct (String.eqb k0 k) eqn:E; simpl.
    + now rewrite String.eqb_refl.
    + now rewrite E, IH.
Qed.

Lemma clients_set_same (k : string) (x : list ConnectedClient) m :
  clients_get k m = Some x -> clients_set k x m = m.
Proof.
  induction m as [|[k0 v0] m IH]; simpl; [discriminate|].
  destruct (String.eqb_spec k0 k) as [->|_].
  - now intros [= ->].
  - intros H. now rewrite IH.
Qed.

Lemma clients_delete_absent (k : string) m : clients_get k m = None -> clients_delete k m = m.
Proof.
  induction m as [|[k0 v0] m IH]; simpl; [reflexivity|].
  destruct (String.eqb k0 k); [discriminate|]. intros H. now rewrite IH.
Qed.

Lemma splice_first_last (d : string) (l : list ConnectedClient) (c : ConnectedClient) :
  ~ In d (map c_deviceId l) -> c_deviceId c = d ->
  splice_first (same_device d) (l ++ [c]) = l /\ existsb (same_device d) (l ++ [c]) = true.
Proof.
  intros Hl Hc. induction l as [|x l IH]; simpl.
  - unfold same_device. rewrite Hc, String.eqb_refl. auto.
  - assert (same_device d x = false) as ->.
    { unfold same_device. apply String.eqb_neq. intros H. apply Hl. now left. }
    simpl. destruct IH as [-> ->]; [|auto]. intros H. apply Hl. now right.
Qed.

Lemma existsb_devices (d : string) (l : list ConnectedClient) :
  existsb (same_device d) l = false -> ~ In d (map c_deviceId l).
Proof.
  intros H. apply find_none_devices. rewrite find_existsb in H.
  now destruct (find (same_device d) l).
Qed.

Lemma handleDisconnect_removes (v d : string) (m : WsManager) :
  ws_ok m -> ~ In d (map c_deviceId (getVaultClients v (handleDisconnect v d m))).
Proof.
  intros Hok. unfold handleDisconnect.
  destruct (clients_get v (clients m)) as [cs|] eqn:E.
  2:{ unfold getVaultClients. rewrite E. auto. }
  destruct (existsb (same_device d) cs) eqn:Ex.
  2:{ unfold getVaultClients. rewrite E. now apply existsb_devices. }
  destruct (ws_ok_get v cs m Hok E) as (_ & Hnd & _). simpl in Hnd.
  destruct (Nat.eqb (length (splice_first (same_device d) cs)) 0); unfold getVaultClients; simpl.
  - rewrite clients_get_delete by apply Hok. rewrite String.eqb_refl. auto.
  - rewrite clients_get_set, String.eqb_refl. now apply splice_first_devices.
Qed.

(** X27. The [close] and [error] handlers of a socket call
    [handleDisconnect] with the vault and the device id, and
    [handleDisconnect] removes the client of that device whatever its
    socket.  So a connection of a device followed by such an event for the
    device leaves the map as the event alone would: the device has no
    client in the vault, also when the event is that of the socket the new
    connection replaced, and the new socket, if no client had it, is in
    the state it was in. *)
Theorem X27_a_close_event_removes_the_device_whatever_socket_it_has_now :
  forall (socket : socket_id) (vaultName deviceId : string) (now : N) (m : WsManager),
    ws_ok m ->
    clients (handleDisconnect vaultName deviceId
               (handleConnection socket vaultName deviceId now m))
    = clients (handleDisconnect vaultName deviceId m) /\
    ~ In deviceId
         (map c_deviceId
            (getVaultClients vaultName
               (handleDisconnect vaultName deviceId
                  (handleConnection socket vaultName deviceId now m)))) /\
    ((forall c, In c (getVaultClients vaultName m) -> c_socket c <> socket) ->
     readyState (handleDisconnect vaultName deviceId
                   (handleConnection socket vaultName deviceId now m)) socket
     = readyState m socket).
Proof.
  intros s v d now m Hok.
  assert (clients (handleDisconnect v d (handleConnection s v d now m))
          = clients (handleDisconnect v d m)) as Hsame.
  { unfold handleConnection, getVaultClients.
    destruct (clients_get v (clients m)) as [cs|] eqn:E.
    - destruct (ws_ok_get v cs m Hok E) as (Hne & Hnd & _). simpl in Hne, Hnd.
      destruct (splice_first_devices d cs Hnd) as [_ Hgone].
      destruct (find (same_device d) cs) as [existing|] eqn:Ef.
      + assert (existsb (same_device d) cs = true) as Hex by (rewrite find_existsb; now rewrite Ef).
        destruct (splice_first_last d (splice_first (same_device d) cs)
                    (mkConnectedClient d v s now) (Hgone Hex) eq_refl) as [Hsp Hex'].
        unfold handleDisconnect. simpl. rewrite clients_get_set, String.eqb_refl, Hex', Hsp.
        rewrite E, Hex.
        destruct (Nat.eqb (length (splice_first (same_device d) cs)) 0); simpl.
        * apply clients_delete_set.
        * apply clients_set_set.
      + assert (existsb (same_device d) cs = false) as Hex by (rewrite find_existsb; now rewrite Ef).
        destruct (splice_first_last d cs (mkConnectedClient d v s now)
                    (find_none_devices d cs Ef) eq_refl) as [Hsp Hex'].
        unfold handleDisconnect. simpl. rewrite clients_get_set, String.eqb_refl, Hex', Hsp.
        rewrite E, Hex.
        destruct cs as [|c0 cs']; [contradiction|]. simpl.
        rewrite clients_set_set. now apply clients_set_same.
    - destruct (splice_first_last d [] (mkConnectedClient d v s now) (fun H => H) eq_refl)
        as [Hsp Hex'].
      cbn [find]. unfold handleDisconnect. cbn [clients set_clients].
      rewrite clients_get_set, String.eqb_refl, Hex', Hsp, E. cbn [length Nat.eqb clients set_clients].
      rewrite clients_delete_set. now apply clients_delete_absent. }
  split; [exact Hsame|]. split.
  - unfold getVaultClients. rewrite Hsame. now apply handleDisconnect_removes.
  - intros Hfresh.
    assert (forall m0, readyState (handleDisconnect v d m0) s = readyState m0 s) as Hd.
    { intros m0. unfold handleDisconnect. destruct (clients_get v (clients m0)); [|reflexivity].
      destruct (existsb _ _); [|reflexivity]. now destruct (Nat.eqb _ 0). }
    rewrite Hd. unfold handleConnection.
    destruct (find (same_device d) (getVaultClients v m)) as [existing|] eqn:Ef; simpl;
      [|reflexivity].
    apply find_some in Ef as [Hin _]. specialize (Hfresh existing Hin).
    destruct (N.eqb_spec s (c_socket existing)); [congruence | reflexivity].
Qed.

(** ** Broadcasts *)

(** X28. [broadcast] changes neither the map of clients nor the state of
    a socket.  It sends the message once for each client of the vault, in
    the order of the list, whose socket is OPEN and whose device id is not
    the excluded one (an empty excluded id excludes nobody); nothing is
    sent to a client of another vault, and nothing at all when the vault
    has no client. *)
Theorem X28_broadcast_reaches_the_open_sockets_of_the_other_devices :
  forall (vaultName : string) (message : WebSocketMessage) (excludeDeviceId : option string)
         (m : WsManager),
    clients (broadcast vaultName message excludeDeviceId m) = clients m /\
    (forall s, readyState (broadcast vaultName message excludeDeviceId m) s = readyState m s) /\
    sent (broadcast vaultName message excludeDeviceId m)
    = (sent m ++
       map (fun c => (c_socket c, message))
           (filter (fun c => negb (excluded excludeDeviceId c)
                             && N.eqb (readyState m (c_socket c)) 1)
                   (getVaultClients vaultName m)))%list.
Proof.
  intros v msg ex m. unfold broadcast, getVaultClients.
  destruct (clients_get v (clients m)) as [cs|].
  - destruct (Nat.eqb (length cs) 0) eqn:El.
    + destruct cs; [|discriminate El]. simpl. now rewrite app_nil_r.
    + destruct (broadcast_loop msg ex cs m) as (H1 & _ & H3 & H4). auto.
  - simpl. now rewrite app_nil_r.
Qed.

(** ** The heartbeat *)

Lemma clients_set_app (k : string) (x y : list ConnectedClient) l1 l2 :
  ~ In k (map fst l1) ->
  clients_set k y (l1 ++ (k, x) :: l2) = (l1 ++ (k, y) :: l2)%list.
Proof.
  induction l1 as [|[k0 v0] l1 IH]; simpl; intros Hk.
  - now rewrite String.eqb_refl.
  - destruct (String.eqb_spec k0 k) as [->|_]; [exfalso; apply Hk; now left|].
    rewrite IH; [reflexivity|]. intros H. apply Hk. now right.
Qed.

Lemma clients_delete_app (k : string) (x : list ConnectedClient) l1 l2 :
  ~ In k (map fst l1) ->
  clients_delete k (l1 ++ (k, x) :: l2) = (l1 ++ l2)%list.
Proof.
  induction l1 as [|[k0 v0] l1 IH]; simpl; intros Hk.
  - now rewrite String.eqb_refl.
  - destruct (String.eqb_spec k0 k) as [->|_]; [exfalso; apply Hk; now left|].
    rewrite IH; [reflexivity|]. intros H. apply Hk. now right.
Qed.

Lemma heartbeat_vault_clients (now : N) (m : WsManager) (e : string * list ConnectedClient) :
  clients (heartbeat_vault now m e)
  = if Nat.eqb (length (filter (seen_lately now) (snd e))) 0
    then clients_delete (fst e) (clients m)
    else clients_set (fst e) (filter (seen_lately now) (snd e)) (clients m).
Proof.
  unfold heartbeat_vault.
  destruct (heartbeat_clients_loop (fst e) now (snd e) m []) as (H1 & _ & H3). simpl in H3.
  rewrite H3. destruct (Nat.eqb _ 0); simpl; now rewrite H1.
Qed.

Lemma heartbeat_entries (now : N) (todo : list (string * list ConnectedClient)) :
  forall done m,
    clients m = (done ++ todo)%list -> NoDup (map fst (done ++ todo)) ->
    clients (fold_left (heartbeat_vault now) todo m) = (done ++ swept now todo)%list.
Proof.
  induction todo as [|[k cs] todo IH]; intros done m Hm Hnd; simpl.
  - unfold swept. simpl. exact Hm.
  - assert (~ In k (map fst done)) as Hk.
    { rewrite map_app in Hnd. simpl in Hnd. apply NoDup_remove_2 in Hnd.
      intros H. apply Hnd. apply in_or_app. now left. }
    pose proof (heartbeat_vault_clients now m (k, cs)) as Hc. simpl in Hc. rewrite Hm in Hc.
    unfold swept. simpl.
    destruct (Nat.eqb (length (filter (seen_lately now) cs)) 0) eqn:El; simpl.
    + rewrite clients_delete_app in Hc by assumption.
      apply (IH done _ Hc). rewrite map_app in *. simpl in Hnd.
      now apply NoDup_remove_1 in Hnd.
    + rewrite clients_set_app in Hc by assumption.
      change (done ++ (k, filter (seen_lately now) cs) :: todo)%list
        with (done ++ [(k, filter (seen_lately now) cs)] ++ todo)%list in Hc.
      rewrite app_assoc in Hc.
      rewrite (IH _ _ Hc).
      * now rewrite <- app_assoc.
      * rewrite <- app_assoc. simpl. rewrite map_app in *. exact Hnd.
Qed.

(** The sockets and the messages in the loop over the clients of a vault. *)
Lemma heartbeat_clients_sockets (v : string) (now : N) (cs : list ConnectedClient) :
  forall m acc,
    (forall s, readyState m s <> 1%N ->
               readyState (fst (fold_left (heartbeat_client v now) cs (m, acc))) s <> 1%N) /\
    (forall c, In c cs -> seen_lately now c = false ->
               readyState (fst (fold_left (heartbeat_client v now) cs (m, acc))) (c_socket c)
               <> 1%N) /\
    (forall s, (forall c, In c cs -> seen_lately now c = false -> c_socket c <> s) ->
               readyState (fst (fold_left (heartbeat_client v now) cs (m, acc))) s
               = readyState m s) /\
    exists pings,
      sent (fst (fold_left (heartbeat_client v now) cs (m, acc))) = (sent m ++ pings)%list /\
      forall s x, In (s, x) pings ->
                  exists c, In c cs /\ seen_lately now c = true /\ c_socket c = s /\
                            x = ping v now.
Proof.
  induction cs as [|c cs IH]; intros m acc; simpl.
  - split; [auto|]. split; [contradiction|]. split; [auto|].
    exists []. rewrite app_nil_r. split; [reflexivity | contradiction].
  - assert (heartbeat_client v now (m, acc) c
            = if N.ltb CLIENT_TIMEOUT (now - c_lastSeen c)
              then (socket_close (c_socket c) m, acc)
              else (sendToClient c (ping v now) m, (acc ++ [c])%list)) as -> by reflexivity.
    assert (seen_lately now c = negb (N.ltb CLIENT_TIMEOUT (now - c_lastSeen c))) as Hseen
      by reflexivity.
    destruct (N.ltb CLIENT_TIMEOUT (now - c_lastSeen c)) eqn:Et; cbn [negb] in Hseen.
    + destruct (IH (socket_close (c_socket c) m) acc) as (A & B & C & pings & D & Dp).
      assert (readyState (socket_close (c_socket c) m) (c_socket c) <> 1%N) as Hclosed.
      { simpl. rewrite N.eqb_refl. destruct (N.eqb (readyState m (c_socket c)) 3); discriminate. }
      split; [|split; [|split]].
      * intros s Hs. apply A. simpl. destruct (N.eqb s (c_socket c)); [|exact Hs].
        destruct (N.eqb (readyState m (c_socket c)) 3); discriminate.
      * intros c' [<-|Hin] Hst; [now apply A | now apply B].
      * intros s Hs. rewrite C by (intros c' Hin; apply Hs; now right). simpl.
        destruct (N.eqb_spec s (c_socket c)) as [->|_]; [|reflexivity].
        exfalso. now apply (Hs c); [left | |].
      * exists pings. split; [exact D|]. intros s x Hin.
        destruct (Dp s x Hin) as (c' & H1 & H2). exists c'. split; [now right | exact H2].
    + destruct (IH (sendToClient c (ping v now) m) (acc ++ [c])%list)
        as (A & B & C & pings & D & Dp).
      destruct (sendToClient_keeps c (ping v now) m) as (_ & _ & K3).
      split; [|split; [|split]].
      * intros s Hs. apply A. now rewrite K3.
      * intros c' [<-|Hin] Hst; [congruence | now apply B].
      * intros s Hs. rewrite C by (intros c' Hin; apply Hs; now right). apply K3.
      * assert (exists first,
                   sent (sendToClient c (ping v now) m) = (sent m ++ first)%list /\
                   forall s x, In (s, x) first -> s = c_socket c /\ x = ping v now)
          as (first & Hf & Hfp).
        { unfold sendToClient. destruct (N.eqb (readyState m (c_socket c)) 1).
          - exists [(c_socket c, ping v now)]. split; [reflexivity|].
            intros s x [[= <- <-]|[]]. auto.
          - exists []. rewrite app_nil_r. split; [reflexivity | contradiction]. }
        exists (first ++ pings)%list. rewrite D, Hf, app_assoc. split; [reflexivity|].
        intros s x Hin. apply in_app_or in Hin as [Hin|Hin].
        -- destruct (Hfp s x Hin) as [-> ->]. exists c. auto.
        -- destruct (Dp s x Hin) as (c' & H1 & H2). exists c'. split; [now right | exact H2].
Qed.

Lemma heartbeat_vault_sockets (now : N) (m : WsManager) (e : string * list ConnectedClient) :
  (forall s, readyState m s <> 1%N -> readyState (heartbeat_vault now m e) s <> 1%N) /\
  (forall c, In c (snd e) -> seen_lately now c = false ->
             readyState (heartbeat_vault now m e) (c_socket c) <> 1%N) /\
  (forall s, (forall c, In c (snd e) -> seen_lately now c = false -> c_socket c <> s) ->
             readyState (heartbeat_vault now m e) s = readyState m s) /\
  exists pings,
    sent (heartbeat_vault now m e) = (sent m ++ pings)%list /\
    forall s x, In (s, x) pings ->
                exists c, In c (snd e) /\ seen_lately now c = true /\ c_socket c = s /\
                          x = ping (fst e) now.
Proof.
  destruct (heartbeat_clients_sockets (fst e) now (snd e) m []) as (A & B & C & D).
  unfold heartbeat_vault.
  destruct (Nat.eqb (length (snd (fold_left (heartbeat_client (fst e) now) (snd e) (m, [])))) 0);
    simpl; auto.
Qed.

Lemma heartbeat_sockets (now : N) (entries : list (string * list ConnectedClient)) :
  forall m,
    (forall s, readyState m s <> 1%N ->
               readyState (fold_left (heartbeat_vault now) entries m) s <> 1%N) /\
    (forall v s, socket_of false now entries v s ->
                 readyState (fold_left (heartbeat_vault now) entries m) s <> 1%N) /\
    (forall s, (forall v, ~ socket_of false now entries v s) ->
               readyState (fold_left (heartbeat_vault now) entries m) s = readyState m s) /\
    exists pings,
      sent (fold_left (heartbeat_vault now) entries m) = (sent m ++ pings)%list /\
      forall s x, In (s, x) pings ->
                  exists v, socket_of true now entries v s /\ x = ping v now.
Proof.
  induction entries as [|[k cs] entries IH]; intros m; simpl.
  - split; [auto|]. split; [intros v s (? & ? & [] & _)|]. split; [auto|].
    exists []. rewrite app_nil_r. split; [reflexivity | contradiction].
  - destruct (IH (heartbeat_vault now m (k, cs))) as (A & B & C & pings & D & Dp).
    destruct (heartbeat_vault_sockets now m (k, cs)) as (A0 & B0 & C0 & first & D0 & Dp0).
    simpl in B0, C0, Dp0.
    split; [|split; [|split]].
    + intros s Hs. now apply A, A0.
    + intros v s (cs' & c & [[= <- <-]|Hin] & Hc & Hst & <-).
      * now apply A, B0.
      * apply (B v). exists cs', c. auto.
    + intros s Hs. rewrite C.
      * apply C0. intros c Hc Hst Heq. apply (Hs k). exists cs, c. simpl. auto.
      * intros v (cs' & c & Hin & H). apply (Hs v). exists cs', c. simpl. auto.
    + exists (first ++ pings)%list. rewrite D, D0, app_assoc. split; [reflexivity|].
      intros s x Hin. apply in_app_or in Hin as [Hin|Hin].
      * destruct (Dp0 s x Hin) as (c & Hc & Hl & Hs & ->). exists k. split; [|reflexivity].
        exists cs, c. simpl. auto.
      * destruct (Dp s x Hin) as (v & (cs' & c & Hc & H) & ->). exists v. split; [|reflexivity].
        exists cs', c. simpl. auto.
Qed.

(** X29. What a heartbeat does.  Of each vault it keeps the clients seen
    in the last sixty seconds, in their order, and it drops the vaults left
    without client.  The socket of every client it drops is closed (not
    OPEN afterwards), the state of the other sockets is as before, and
    what it sends are pings, each to the socket of a client it keeps, with
    the name of the vault of that client. *)
Theorem X29_heartbeat_drops_the_clients_not_seen_for_a_minute :
  forall (now : N) (m : WsManager),
    NoDup (getConnectedVaults m) ->
    clients (heartbeat now m) = swept now (clients m) /\
    (forall v s, socket_of false now (clients m) v s -> readyState (heartbeat now m) s <> 1%N) /\
    (forall s, (forall v, ~ socket_of false now (clients m) v s) ->
               readyState (heartbeat now m) s = readyState m s) /\
    exists pings,
      sent (heartbeat now m) = (sent m ++ pings)%list /\
      forall s x, In (s, x) pings ->
                  exists v, socket_of true now (clients m) v s /\ x = ping v now.
Proof.
  intros now m Hnd. unfold heartbeat. split.
  - apply (heartbeat_entries now (clients m) [] m); [reflexivity | exact Hnd].
  - apply heartbeat_sockets.
Qed.

(* ================================================================= *)
(** * Runs of the model

    The statements above are applied to the sample vaults, with
    [whole_file_merge] for [git merge-file]. *)

(** ** The content hash on the test vectors of SHA-256 *)

Example computeHash_empty :
  computeHash EmptyString = "e3b0c44298fc1c149afbf4c8996fb92427ae41e4649b934ca495991b7852b855".
Proof. vm_compute. reflexivity. Qed.

Example computeHash_abc :
  computeHash "abc" = "ba7816bf8f01cfea414140de5dae2223b00361a396177a9cb410ff61f20015ad".
Proof. vm_compute. reflexivity. Qed.

Example computeHash_two_blocks :
  computeHash "abcdbcdecdefdefgefghfghighijhijkijkljklmklmnlmnomnopnopq"
  = "248d6a61d20638b8e5c026930c3e6039a33ce45964ff2167f6ecedd419db06c1".
Proof. vm_compute. reflexivity. Qed.

(** ** The side conditions, decided on a given state *)

Lemma uuid_fresh_check (st : Vault) : uuid_fresh_b st = true -> uuid_fresh st.
Proof.
  unfold uuid_fresh_b, uuid_fresh. rewrite forallb_forall.
  intros H r Hin. apply N.ltb_lt. now apply H.
Qed.

Lemma soft_deleted_check (id : file_id_t) (st : Vault) :
  soft_deleted_b id st = true -> soft_deleted id st.
Proof.
  unfold soft_deleted_b, soft_deleted. rewrite andb_true_iff, existsb_exists, forallb_forall.
  intros [(r & Hin & Hr) Hall]. split.
  - exists r. split; [assumption | now apply has_id_true].
  - intros x Hx Hid. specialize (Hall x Hx). apply has_id_true in Hid. rewrite Hid in Hall.
    simpl in Hall. destruct (deleted_at x); [discriminate | discriminate Hall].
Qed.

(* ----------------------------------------------------------------- *)
(** ** A conflicting upload *)


(* ----------------------------------------------------------------- *)
(** ** A batch that fails at its second operation *)

(** On a new vault the create of [a.md] commits, the modify of an unknown
    file_id fails and the create of [b.md] is not run: status 400, two
    results, and the head commit from before the batch. *)
Lemma C2_batch_with_bad_modify_stops :
  exists st' rs r,
    post_sync_v2 whole_file_merge
      (mkV2SyncBody ([create_op "a.md" "one"] ++ modify_op 99%N "x.md" "two" None
                       :: [create_op "b.md" "three"]) (Some true))
      (empty_vault "V") =
    (st', Ok (mkHttpReply 400
                (Some (mkV2SyncResponse false (rs ++ [r])
                         (head_of (after initVaultGit (empty_vault "V")))))
                (Some (batch_failure_message 1 r))))
    /\ length (rs ++ [r]) = 2
    /\ map index_ (rs ++ [r]) = seq 0 2.
Proof.
  eexists _, _, _.
  eapply (C2_atomic_batch_stops_at_the_first_failure whole_file_merge
            [create_op "a.md" "one"] (modify_op 99%N "x.md" "two" None) [create_op "b.md" "three"]
            (Some true) (empty_vault "V") (after initVaultGit (empty_vault "V"))).
  - reflexivity.
  - discriminate.
  - vm_compute. reflexivity.
  - eapply processed_cons; [vm_compute; reflexivity | apply processed_nil].
  - repeat constructor.
  - vm_compute. reflexivity.
  - reflexivity.
Defined.

(** The first create of that batch stays committed: HEAD has moved although
    the answer names the commit from before the batch. *)
Example batch_with_bad_modify_keeps_the_first_commit :
  head_of (after initVaultGit (empty_vault "V")) = Some 0%N /\
  head_of (after (post_sync_v2 whole_file_merge (mkV2SyncBody batch_with_bad_modify (Some true)))
                 (empty_vault "V")) = Some 1%N.
Proof. split; vm_compute; reflexivity. Qed.

(* ----------------------------------------------------------------- *)
(** ** Changes since a commit, and the manifest *)



(** C4, on the code. The manifest of an initialised vault has rows for
    user files only: no path under [.scion/], no [.gitignore].
    [getChangesSince] filters [.gitignore] alone: after the rename of
    [a.md] to [b.md], whose commit carries the rewritten recovery
    manifest, the changes since commit 1 list [.scion/manifest.json],
    which is not a user path. *)
Theorem C4_manifest_rows_are_user_files_but_changes_list_the_recovery_manifest :
  (forall (st : Vault) (r : Repo) (c0 : Commit) (older : list Commit),
      validateVaultName (vault_name st) = true ->
      git st = Some r -> commits r = c0 :: older -> uuid_fresh st ->
      exists st' rows,
        getManifest st = (st', Ok rows) /\
        forall row, In row rows -> user_path (fr_path row) = true)
  /\ (exists paths,
        snd (getChangesSince (Some 1%N) vault_renamed) = Ok (mkChanges (Some 3%N) paths) /\
        In manifest_path paths)
  /\ user_path manifest_path = false
  /\ (exists rows, snd (getManifest vault_renamed) = Ok rows /\ map fr_path rows = ["b.md"]).
Proof.
  split; [|split; [|split]].
  - intros st r c0 older Hv Hg Hc Hf.
    destruct (getManifest_runs st r c0 older Hv Hg Hc Hf) as (st' & rows & E & Hp & _).
    exists st', rows. split; [exact E|]. intros row Hin.
    apply (in_map fr_path) in Hin. rewrite Hp in Hin. unfold tracked_on_disk in Hin.
    rewrite Hg in Hin. apply filter_In in Hin as [Hin _]. now apply filter_In in Hin as [_ Hin].
  - eexists. split; [vm_compute; reflexivity | left; reflexivity].
  - vm_compute. reflexivity.
  - eexists. split; vm_compute; reflexivity.
Qed.

(* ----------------------------------------------------------------- *)
(** ** Identical uploads *)



(* ----------------------------------------------------------------- *)
(** ** Rename detection *)

(** [b.md] (once [a.md]) and [c.md] have the same contents: two rows match
    the hash of the missing [a.md], and the detector still answers found,
    from the path history. *)
Lemma C6_two_hash_matches_are_answered_from_the_path_history :
  map current_path (hash_candidates "a.md" (computeHash "hello") vault_twins) = ["b.md"; "c.md"]
  /\ snd (detectRename "a.md" (computeHash "hello") None vault_twins) =
       Ok (mkDetectResult true (Some "b.md") (Some 1%N) (Some PathHistory)).
Proof. split; vm_compute; reflexivity. Qed.

(* ----------------------------------------------------------------- *)
(** ** Soft-deleted identities *)


(** In that run the yjs update writes [a.md] back at the path of the
    deleted row, the create is refused since the file exists, and the read
    of the manifest gives the file a new row: the rows are file 1, deleted,
    and file 2, active at [a.md]. *)
Example revival_trace_rows :
  map (fun r => (file_id r, current_path r, is_null (deleted_at r)))
      (files (db (serve whole_file_merge revival_trace vault_deleted)))
  = [(1%N, "a.md", false); (2%N, "a.md", true)].
Proof. vm_compute. reflexivity. Qed.

(* ----------------------------------------------------------------- *)
(** ** Rename *)

(** The rename of [a.md] to [b.md] at HEAD 1 returns commit 2; HEAD is
    commit 3, the amended one. *)
Lemma C8_rename_on_vault_created :
  exists st0 c n,
    initVaultGit (set_clock 2%positive vault_created) = (st0, Ok tt) /\
    history vault_renamed = c :: history st0 /\
    commit_message c = "Rename " ++ "a.md" ++ " to " ++ "b.md" /\
    tree_lookup manifest_path (commit_tree c) <> None /\
    tree_lookup manifest_path (commit_tree c) = tree_lookup manifest_path (worktree vault_renamed) /\
    rn_commit (mkRenameResult true (Some 2%N) None) = Some n /\
    head_of vault_renamed = Some (n + 1)%N /\
    head_of vault_renamed <> rn_commit (mkRenameResult true (Some 2%N) None).
Proof.
  apply (C8_rename_returns_the_commit_the_amend_replaced 1%N "a.md" "b.md" None
           (set_clock 2%positive vault_created) vault_renamed (mkRenameResult true (Some 2%N) None)).
  - vm_compute. reflexivity.
  - reflexivity.
Defined.

Example rename_on_vault_created_commits :
  snd (renameFile 1%N "a.md" "b.md" None (set_clock 2%positive vault_created))
    = Ok (mkRenameResult true (Some 2%N) None)
  /\ head_of vault_renamed = Some 3%N
  /\ map commit_hash (history vault_renamed) = [3%N; 1%N; 0%N].
Proof. repeat split; vm_compute; reflexivity. Qed.

(* ----------------------------------------------------------------- *)
(** ** Lookups and deletes *)

(** After the delete of file 1 the path has no record, and the lookup by
    file_id returns the deleted row. *)
Lemma C9_lookups_on_vault_deleted :
  getFileByPath "a.md" vault_deleted = None /\ getFileById 1%N vault_deleted = Some deleted_row.
Proof.
  apply (C9_lookup_by_path_skips_deleted_rows_lookup_by_id_returns_them
           vault_deleted "a.md" 1%N deleted_row).
  - intros x Hin _. vm_compute in Hin. destruct Hin as [<-|[]]. discriminate.
  - vm_compute. left. reflexivity.
  - reflexivity.
  - discriminate.
  - intros x Hin _. vm_compute in Hin. destruct Hin as [<-|[]]. vm_compute. reflexivity.
Defined.

Lemma C9_lookup_by_id_returns_a_deleted_row :
  getFileById 1%N vault_deleted = Some deleted_row
  /\ deleted_at deleted_row = Some 2%positive.
Proof. split; vm_compute; reflexivity. Qed.



(* ----------------------------------------------------------------- *)
(** ** The content store and the identity store on the sample vaults *)

(** A vault name with a separator: the read of a file is refused and
    nothing is written. *)
Lemma X2_get_file_in_a_vault_named_with_a_slash :
  exists resp,
    handle whole_file_merge (GetFile "a.md") (empty_vault "a/b") = (empty_vault "a/b", Ok resp) /\
    match resp with
    | YjsReply y => yjs_success y = false
    | _ => response_status resp = Some 400 /\ response_error resp = Some "Invalid vault name"
    end.
Proof.
  apply (X2_requests_to_an_invalid_vault_name_change_nothing whole_file_merge
           (GetFile "a.md") (empty_vault "a/b")).
  vm_compute. reflexivity.
Defined.

(** The first [initVaultGit] of the vault [V] makes the commit of
    [.gitignore]; the second changes nothing. *)
Lemma X3_initVaultGit_on_the_empty_vault :
  exists st0,
    initVaultGit (empty_vault "V") = (st0, Ok tt) /\
    initVaultGit st0 = (st0, Ok tt) /\
    (git (empty_vault "V") <> None -> st0 = empty_vault "V") /\
    (git (empty_vault "V") = None ->
     exists c,
       history st0 = [c] /\ commit_message c = "Initialize vault" /\
       commit_tree c = [(".gitignore", gitignore)] /\
       tree_lookup ".gitignore" (worktree st0) = Some gitignore /\
       db st0 = db (empty_vault "V")).
Proof.
  apply (X3_initVaultGit_creates_the_repository_once (empty_vault "V")).
  vm_compute. reflexivity.
Defined.



(** [ensureFileId] for [a.md] on [vault_created] answers file 1 and adds
    no row. *)
Lemma X7_ensureFileId_on_vault_created :
  exists st1 id,
    ensureFileId "a.md" (Some "h") None vault_created = (st1, Ok id) /\
    (exists row, getFileByPath "a.md" st1 = Some row /\ file_id row = id) /\
    (forall r, getFileByPath "a.md" vault_created = Some r ->
       id = file_id r /\ length (files (db st1)) = length (files (db vault_created))) /\
    (getFileByPath "a.md" vault_created = None ->
       length (files (db st1)) = S (length (files (db vault_created))) /\
       forall r, In r (files (db vault_created)) -> file_id r <> id) /\
    (forall h' c', exists st2,
       ensureFileId "a.md" h' c' st1 = (st2, Ok id) /\
       length (files (db st2)) = length (files (db st1))).
Proof.
  apply (X7_ensureFileId_is_get_or_create "a.md" (Some "h") None vault_created).
  apply uuid_fresh_check. vm_compute. reflexivity.
Defined.


(** The delete of file 1 on [vault_created] at time 2. *)
Lemma X10_delete_on_vault_created :
  exists md st',
    getFileById 1%N (set_clock 2%positive vault_created) = Some md /\
    processDelete (delete_op 1%N "a.md") 0 (set_clock 2%positive vault_created) =
      (st', Ok (mkOperationResult 0 true (Some 1%N) (head_of st') None None
                  (Some false) (Some false) None)) /\
    tree_lookup "a.md" (worktree st') = None /\
    getFileById 1%N st' = Some (mark_deleted 2%positive md) /\
    (forall r, In r (files (db st')) -> file_id r = 1%N -> deleted_at r = Some 2%positive) /\
    (forall q r, getFileByPath q st' = Some r -> file_id r <> 1%N).
Proof.
  assert (exists md, getFileById 1%N (set_clock 2%positive vault_created) = Some md /\
                     current_path md = "a.md") as (md & Hid & Hp).
  { eexists. vm_compute. split; reflexivity. }
  exists md.
  destruct (X10_processDelete_soft_deletes_the_row_and_removes_the_file
              (delete_op 1%N "a.md") 0 1%N md "hello" (set_clock 2%positive vault_created))
    as (st' & H).
  - reflexivity.
  - exact Hid.
  - rewrite Hp. vm_compute. reflexivity.
  - exists st'. rewrite Hp in H. split; [exact Hid | exact H].
Defined.


(** The rename of [a.md] to [b.md] on [vault_created] at time 2. *)
Lemma X13_rename_on_vault_created :
  exists st0 b0 b md,
    initVaultGit (set_clock 2%positive vault_created) = (st0, Ok tt) /\
    "a.md" <> "b.md" /\
    tree_lookup "a.md" (worktree st0) = Some b0 /\
    tree_lookup "a.md" (worktree vault_renamed) = None /\
    tree_lookup "b.md" (worktree vault_renamed) = Some b /\
    b = b0 /\
    getFileById 1%N vault_renamed = Some md /\
    file_id md = 1%N /\ current_path md = "b.md" /\
    content_hash md = Some (computeHash b) /\ git_commit md = Some 2%N /\
    In "a.md" (getAllPreviousPaths 1%N vault_renamed) /\
    (deleted_at md = None ->
     forall h, detectRename "a.md" h (Some 1%N) vault_renamed =
               (vault_renamed, Ok (mkDetectResult true (Some "b.md") (Some 1%N) (Some ByFileId)))).
Proof.
  apply (X13_renameFile_moves_the_file_and_its_row 1%N "a.md" "b.md" None
           (set_clock 2%positive vault_created) vault_renamed
           (mkRenameResult true (Some 2%N) None)).
  - vm_compute. reflexivity.
  - reflexivity.
  - discriminate.
  - discriminate.
Defined.

(** A batch with [atomic: false] whose second operation fails: both
    operations are run and the create stays committed. *)
Lemma X15_non_atomic_batch_on_the_empty_vault :
  exists st0 st' results,
    initVaultGit (empty_vault "V") = (st0, Ok tt) /\
    post_sync_v2 whole_file_merge
      (mkV2SyncBody [create_op "a.md" "hello"; modify_op 9%N "x.md" "y" None] (Some false))
      (empty_vault "V") =
      (st', Ok (send_ok (mkV2SyncResponse (forallb success results) results (head_of st')))) /\
    processed whole_file_merge 0 [create_op "a.md" "hello"; modify_op 9%N "x.md" "y" None]
              st0 results st' /\
    length results = 2 /\
    map index_ results = [0; 1].
Proof.
  apply (X15_non_atomic_batch_runs_every_operation whole_file_merge
           (create_op "a.md" "hello") [modify_op 9%N "x.md" "y" None] (empty_vault "V")).
  vm_compute. reflexivity.
Defined.




(** The reader that knows the manifest of [vault_created]. *)
Definition reads_manifest_of (st : Vault) (text : bytes) : option GitManifest :=
  if String.eqb text (writeJson (manifest_of st)) then Some (manifest_of st) else None.



(** [My Vault-2] is accepted; [a.b] is refused. *)
Lemma X1_vault_names_with_a_space_and_with_a_dot :
  validateVaultName "My Vault-2" = true /\ validateVaultName "a.b" = false /\
  includes "." "My Vault-2" = false.
Proof.
  destruct (X1_validateVaultName_accepts_the_pattern_and_no_separator "My Vault-2") as [H1 H2].
  assert (validateVaultName "My Vault-2" = true) as Hv by (vm_compute; reflexivity).
  split; [exact Hv|]. split; [vm_compute; reflexivity|]. exact (proj1 (H2 Hv)).
Defined.



(** The former paths of file 1 on [vault_renamed]. *)
Lemma X11_former_paths_on_vault_renamed :
  getAllPreviousPaths 1%N vault_renamed = ["a.md"] /\
  NoDup (getAllPreviousPaths 1%N vault_renamed).
Proof.
  split; [vm_compute; reflexivity|].
  exact (proj1 (X11_getAllPreviousPaths_lists_each_old_path_once 1%N vault_renamed)).
Defined.

(** The three requests of [revival_trace] on [vault_deleted]. *)
Lemma X14_rows_after_the_revival_trace :
  rows_kept vault_deleted (serve whole_file_merge revival_trace vault_deleted) /\
  history_grows vault_deleted (serve whole_file_merge revival_trace vault_deleted) /\
  vault_name (serve whole_file_merge revival_trace vault_deleted) = "V".
Proof.
  exact (X14_no_request_removes_a_row_or_a_path_history_entry whole_file_merge
           revival_trace vault_deleted).
Defined.


(** On [vault_renamed] the former path [a.md] resolves to file 1, now at
    [b.md]; a path no file ever had resolves to nothing. *)
Lemma X20_former_path_on_vault_renamed :
  (exists f, findFileByAnyPath "a.md" vault_renamed = Some f /\
             file_id f = 1%N /\ current_path f = "b.md" /\
             In f (files (db vault_renamed))) /\
  findFileByAnyPath "z.md" vault_renamed = None.
Proof.
  split.
  - assert (exists f, findFileByAnyPath "a.md" vault_renamed = Some f /\
                      file_id f = 1%N /\ current_path f = "b.md") as (f & E & H1 & H2).
    { eexists. vm_compute. repeat split; reflexivity. }
    exists f.
    destruct (X20_findFileByAnyPath_resolves_current_and_former_paths "a.md" vault_renamed)
      as (_ & H & _).
    destruct (H f E) as (Hin & _).
    split; [exact E|]. split; [exact H1|]. split; [exact H2 | exact Hin].
  - apply (X20_findFileByAnyPath_resolves_current_and_former_paths "z.md" vault_renamed).
    assert (exists f e, files (db vault_renamed) = [f] /\ path_history (db vault_renamed) = [e] /\
                        current_path f = "b.md" /\ old_path e = "a.md" /\ new_path e = "b.md")
      as (f0 & e0 & Hf & He & H1 & H2 & H3).
    { eexists _, _. vm_compute. repeat split; reflexivity. }
    rewrite Hf, He.
    intros f [<-|[]] _. rewrite H1. split; [discriminate|].
    intros e [<-|[]] _. rewrite H2, H3. split; discriminate.
Defined.

(** On [vault_renamed], the file [b.md] at commit 1, from before the
    rename, is the file [a.md] had there. *)
Lemma X22_base_of_the_renamed_file :
  file_at "b.md" 1%N vault_renamed = None /\
  getFileAtCommitWithHistory 1%N 1%N "b.md" vault_renamed = (vault_renamed, Ok (Some "hello")).
Proof.
  assert (file_at "b.md" 1%N vault_renamed = None) as Hb by (vm_compute; reflexivity).
  assert (file_at "a.md" 1%N vault_renamed = Some "hello") as Ha by (vm_compute; reflexivity).
  assert (exists e, path_history (db vault_renamed) = [e] /\ old_path e = "a.md" /\
                    ph_file_id e = 1%N) as (e0 & He & Ho & Hi).
  { eexists. vm_compute. repeat split; reflexivity. }
  split; [exact Hb|].
  destruct (X22_getFileAtCommitWithHistory_looks_under_the_former_paths 1%N 1%N "b.md"
              vault_renamed) as (o & E & _ & Hsome & Hnone).
  rewrite E. destruct o as [b|].
  - destruct (Hsome b eq_refl) as (q & Hq & [->|(e & Hin & _ & <-)]).
    + rewrite Hb in Hq. discriminate Hq.
    + rewrite He in Hin. destruct Hin as [<-|[]]. rewrite Ho, Ha in Hq. now injection Hq as <-.
  - exfalso. destruct (proj1 Hnone eq_refl) as [_ H].
    specialize (H e0). rewrite He, Ho, Ha in H. specialize (H (or_introl eq_refl) Hi).
    discriminate H.
Defined.

(** A device id with separators and more than sixteen characters. *)
Lemma X23_conflict_path_of_a_long_device_id :
  generateConflictPath ".png" "img/a.png" "../phone-0123456789abcdef"
  = "img/a.conflict-phone-0123456789.png" /\
  generateConflictPath ".png" "img/a.png" "../phone-0123456789abcdef" <> "img/a.png".
Proof.
  split; [vm_compute; reflexivity|].
  destruct (X23_generateConflictPath_adds_a_sanitised_device_id ".png" "img/a"
              "../phone-0123456789abcdef") as (safe & _ & _ & _ & _ & _ & _ & _ & H).
  exact H.
Defined.


(* ----------------------------------------------------------------- *)
(** ** The connected clients: a phone and a laptop on the vault [V] *)

Definition ws_two_devices : WsManager :=
  ws_run [WsConnect 1%N "V" "phone" 1000%N; WsConnect 2%N "V" "laptop" 20000%N]
         (wsManager_new (fun _ => 1%N)).

Definition binary_update : WebSocketMessage :=
  mkWebSocketMessage MsgBinaryUpdate "V" "phone" (Some "img.png") (Some "hash") 21000%N None.

Lemma ws_two_devices_ok : ws_ok ws_two_devices.
Proof. apply ws_run_ok. split; simpl; constructor. Qed.

(** The phone connects again, the old socket closes, the timer
    fires: the laptop is the only client left. *)
Lemma X26_clients_after_a_reconnection :
  map c_deviceId
      (getVaultClients "V"
         (ws_run [WsConnect 1%N "V" "phone" 1000%N; WsConnect 2%N "V" "laptop" 20000%N;
                  WsConnect 3%N "V" "phone" 21000%N; WsSocketClosed "V" "phone";
                  WsTimer 30000%N]
                 (wsManager_new (fun _ => 1%N)))) = ["laptop"] /\
  NoDup (map c_deviceId
           (getVaultClients "V"
              (ws_run [WsConnect 1%N "V" "phone" 1000%N; WsConnect 2%N "V" "laptop" 20000%N;
                       WsConnect 3%N "V" "phone" 21000%N; WsSocketClosed "V" "phone";
                       WsTimer 30000%N]
                      (wsManager_new (fun _ => 1%N))))).
Proof.
  split; [vm_compute; reflexivity|].
  apply (X26_one_client_per_device_and_no_vault_without_clients (fun _ => 1%N)
           [WsConnect 1%N "V" "phone" 1000%N; WsConnect 2%N "V" "laptop" 20000%N;
            WsConnect 3%N "V" "phone" 21000%N; WsSocketClosed "V" "phone"; WsTimer 30000%N] "V").
Defined.

(** The phone connects again on socket 3 and the close event of socket 1
    follows: the phone has no client, and socket 3 is open. *)
Lemma X27_the_phone_connects_again :
  map c_deviceId
      (getVaultClients "V"
         (handleDisconnect "V" "phone" (handleConnection 3%N "V" "phone" 21000%N ws_two_devices)))
  = ["laptop"] /\
  ~ In "phone"
       (map c_deviceId
          (getVaultClients "V"
             (handleDisconnect "V" "phone"
                (handleConnection 3%N "V" "phone" 21000%N ws_two_devices)))) /\
  readyState (handleDisconnect "V" "phone"
                (handleConnection 3%N "V" "phone" 21000%N ws_two_devices)) 3%N = 1%N.
Proof.
  destruct (X27_a_close_event_removes_the_device_whatever_socket_it_has_now
              3%N "V" "phone" 21000%N ws_two_devices ws_two_devices_ok) as (_ & H2 & H3).
  split; [vm_compute; reflexivity|]. split; [exact H2|].
  rewrite H3; [reflexivity|].
  intros c Hc. vm_compute in Hc. destruct Hc as [<-|[<-|[]]]; discriminate.
Defined.

(** A binary update of the phone is sent to the laptop only. *)
Lemma X28_broadcast_of_the_phone :
  sent (broadcast "V" binary_update (Some "phone") ws_two_devices) = [(2%N, binary_update)] /\
  sent (broadcast "W" binary_update (Some "phone") ws_two_devices) = [].
Proof.
  destruct (X28_broadcast_reaches_the_open_sockets_of_the_other_devices
              "V" binary_update (Some "phone") ws_two_devices) as (_ & _ & H).
  split; [rewrite H; vm_compute; reflexivity | vm_compute; reflexivity].
Defined.

(** The heartbeat at 70 seconds: the phone, last seen at 1, is dropped and
    its socket closed; the laptop gets a ping. *)
Lemma X29_heartbeat_at_seventy_seconds :
  map (fun e => (fst e, map c_deviceId (snd e))) (clients (heartbeat 70000%N ws_two_devices))
  = [("V", ["laptop"])] /\
  readyState (heartbeat 70000%N ws_two_devices) 1%N <> 1%N /\
  sent (heartbeat 70000%N ws_two_devices) = [(2%N, ping "V" 70000%N)].
Proof.
  destruct (X29_heartbeat_drops_the_clients_not_seen_for_a_minute 70000%N ws_two_devices)
    as (H1 & H2 & _).
  - apply ws_two_devices_ok.
  - split; [rewrite H1; vm_compute; reflexivity|]. split; [|vm_compute; reflexivity].
    apply (H2 "V"). exists (getVaultClients "V" ws_two_devices).
    exists (mkConnectedClient "phone" "V" 1%N 1000%N).
    vm_compute. repeat split; auto.
Defined.
